(** * Historical test-data cache job and manifest handler: a shallow embedding

    This development models four pieces of the evergreen code base:

    - [units/cache_historical_test_data.go]: the job that synchronises
      hourly and daily test statistics up to a bounded target time, and
      its constructors;
    - [service/api_plugin_manifest.go]: the manifest load handler;
    - [cli/migration.go]: the migration command;
    - the Go library functions they call ([strings.Trim], [time.Time.Add],
      [time.Time.After], [errors.Wrap], [fmt.Sprintf]).

    Pure Go functions are Rocq functions.  Calls into other packages
    (database, clock, GitHub, the generator functions) are fields of an
    environment acting on an abstract world; the call sequence is recorded
    in a ghost trace so that statements about "what was invoked, and in what
    order" can be written down. *)

From Stdlib Require Import ZArith String Ascii List Lia.
From stdpp Require Import base option list gmap strings.

Local Open Scope string_scope.
Local Open Scope list_scope.
Local Open Scope Z_scope.

(** ** Go library types *)

(** [time.Time] is modelled as an instant counted in nanoseconds, and
    [time.Duration] (an [int64] of nanoseconds) as an integer.  The only
    duration the code builds is one week, far below the [int64] range, and
    [Add] is exact for every instant the Go representation can hold.
    [After] compares instants.  As keys of a map, two [time.Time] values
    are taken to be equal when they are the same instant: the keys of the
    rollup all come from the [Day] field of the fetched units, which the
    database driver fills in one location and without a monotonic clock
    reading. *)
Abbreviation Time := Z.
Abbreviation Duration := Z.

Definition Nanosecond : Duration := 1.
Definition Second : Duration := 1000000000 * Nanosecond.
Definition Minute : Duration := 60 * Second.
Definition Hour : Duration := 60 * Minute.

Definition Time_Add (t : Time) (d : Duration) : Time := t + d.
Definition Time_After (t u : Time) : bool := bool_decide (u < t).

(** [error] values: a base error or an error wrapped by [errors.Wrap]. *)
Inductive Error : Type :=
| ErrNew (msg : string)
| ErrWrap (cause : Error) (msg : string).

(** A Go [(value, error)] pair in which exactly one side is meaningful. *)
Inductive result (A : Type) : Type :=
| Ok (a : A)
| Err (e : Error).
Arguments Ok {A} a.
Arguments Err {A} e.

(** [errors.Wrap(err, msg)]: [nil] stays [nil]. *)
Definition errors_Wrap (err : option Error) (msg : string) : option Error :=
  match err with
  | None => None
  | Some e => Some (ErrWrap e msg)
  end.

(** [strings.Trim(s, cutset)] for a cutset of ASCII bytes: leading and
    trailing bytes that occur in the cutset are removed. *)
Fixpoint inCutset (cutset : string) (c : ascii) : bool :=
  match cutset with
  | EmptyString => false
  | String d rest => if Ascii.eqb c d then true else inCutset rest c
  end.

Fixpoint strings_TrimLeft (s cutset : string) : string :=
  match s with
  | EmptyString => EmptyString
  | String c rest =>
      if inCutset cutset c then strings_TrimLeft rest cutset else s
  end.

Definition strings_TrimRight (s cutset : string) : string :=
  String.rev (strings_TrimLeft (String.rev s) cutset).

Definition strings_Trim (s cutset : string) : string :=
  strings_TrimLeft (strings_TrimRight s cutset) cutset.

(** ** The job's data *)

Definition maxSyncDuration : Duration := Hour * 24 * 7.

(** The parts of package [stats] the job reads: the [StatsToUpdate] and
    [StatsStatus] structs. *)
Module stats.

Record StatsToUpdate : Type := mkStatsToUpdate {
  ProjectId : string;
  Requester : string;
  Hour : Time;
  Day : Time;
  Tasks : list string
}.

Record StatsStatus : Type := mkStatsStatus {
  ProcessedTasksUntil : Time
}.

End stats.

(** [type dailyStatsRollup map[time.Time]map[string][]string] *)
Abbreviation dailyStatsRollup := (gmap Z (gmap string (list string))).

(** A slice is a list; the [nil] slice and the empty slice are both [[]].
    Reading a missing map key gives the zero value. *)
Definition isNil {A} (l : list A) : bool :=
  match l with [] => true | _ => false end.

(** ** Pure functions of the job *)

Section Regexp.

(** Go's [regexp] package: the compiled pattern type, [regexp.Compile]
    and the [MatchString] method of a compiled pattern. *)
Variable Regexp : Type.
Variable regexp_Compile : string -> result Regexp.
Variable MatchString : Regexp -> string -> bool.

Fixpoint anyRegexMatch (value : string) (regexList : list Regexp) : bool :=
  match regexList with
  | [] => false
  | re :: rest =>
      if MatchString re value then true else anyRegexMatch value rest
  end.

Definition filterIgnoredTasks (taskList : list string)
    (tasksToIgnore : list Regexp) : list string :=
  fold_left
    (fun filteredTaskList task =>
       if negb (anyRegexMatch task tasksToIgnore)
       then filteredTaskList ++ [task]
       else filteredTaskList)
    taskList [].

Fixpoint createRegexpLoop (filePatterns : list string)
    (tasksToIgnore : list Regexp) : result (list Regexp) :=
  match filePatterns with
  | [] => Ok tasksToIgnore
  | patternStr :: rest =>
      let pattern := strings_Trim patternStr " " in
      if bool_decide (pattern <> "") then
        match regexp_Compile pattern with
        | Err err => Err (ErrWrap err "Could not compile regexp")
        | Ok re => createRegexpLoop rest (tasksToIgnore ++ [re])
        end
      else createRegexpLoop rest tasksToIgnore
  end.

Definition createRegexpFromStrings (filePatterns : list string)
    : result (list Regexp) :=
  createRegexpLoop filePatterns [].

End Regexp.

Arguments anyRegexMatch {Regexp} MatchString value regexList.
Arguments filterIgnoredTasks {Regexp} MatchString taskList tasksToIgnore.
Arguments createRegexpLoop {Regexp} regexp_Compile filePatterns tasksToIgnore.
Arguments createRegexpFromStrings {Regexp} regexp_Compile filePatterns.

(** One iteration of the loop in [buildDailyStatsRollup]. *)
Definition rollupStep (rollup : dailyStatsRollup) (stat : stats.StatsToUpdate)
    : dailyStatsRollup :=
  let rollup1 :=
    match rollup !! stats.Day stat with
    | None => <[stats.Day stat := ∅]> rollup
    | Some _ => rollup
    end in
  let inner := default ∅ (rollup1 !! stats.Day stat) in
  let current := default [] (inner !! stats.Requester stat) in
  if isNil current
  then
    <[stats.Day stat := <[stats.Requester stat := stats.Tasks stat]> inner]>
      rollup1
  else
    <[stats.Day stat :=
        <[stats.Requester stat := current ++ stats.Tasks stat]> inner]>
      rollup1.

Definition buildDailyStatsRollup (hourlyStats : list stats.StatsToUpdate)
    : dailyStatsRollup :=
  fold_left rollupStep hourlyStats ∅.

(** The task list stored under [(day, requester)], [[]] when there is none:
    what [rollup[day][requester]] reads in Go. *)
Definition bucket (rollup : dailyStatsRollup) (day : Time) (requester : string)
    : list string :=
  default [] (rollup !! day ≫= (.!! requester)).

(** ** Effects

    A Go function that calls into other packages is a function of the
    world it runs in.  It returns the new world, the calls it made (a
    ghost trace, in program order) and how it ended: by falling through
    with a value, by an early [return] (of a non-nil [error], or after
    writing an error response), or by a run-time panic (here: a nil
    pointer dereference). *)

Inductive outcome (X A : Type) : Type :=
| Done (a : A)
| Failed (x : X)
| Panicked.
Arguments Done {X A} a.
Arguments Failed {X A} x.
Arguments Panicked {X A}.

Definition M (W E X A : Type) : Type := W -> W * list E * outcome X A.

Section Monad.

Context {W E X : Type}.

Definition ret {A} (a : A) : M W E X A := fun w => (w, [], Done a).

Definition bind {A B} (m : M W E X A) (k : A -> M W E X B) : M W E X B :=
  fun w =>
    match m w with
    | (w1, evs1, Done a) =>
        match k a w1 with
        | (w2, evs2, o) => (w2, evs1 ++ evs2, o)
        end
    | (w1, evs1, Failed x) => (w1, evs1, Failed x)
    | (w1, evs1, Panicked) => (w1, evs1, Panicked)
    end.

(** An early [return]. *)
Definition fail {A} (x : X) : M W E X A := fun w => (w, [], Failed x).

Definition panic {A} : M W E X A := fun w => (w, [], Panicked).

(** Dereferencing a pointer: [nil] panics. *)
Definition deref {A} (p : option A) : M W E X A :=
  match p with
  | Some a => ret a
  | None => panic
  end.

(** A call into another package that leaves no entry in the trace. *)
Definition call {A} (f : W -> W * A) : M W E X A :=
  fun w => match f w with (w1, a) => (w1, [], Done a) end.

(** A call into another package, recorded in the trace with its result. *)
Definition extcall {A} (f : W -> W * A) (ev : A -> E) : M W E X A :=
  fun w => match f w with (w1, a) => (w1, [ev a], Done a) end.

(** [for _, x := range xs { body }] where [body] may return early. *)
Fixpoint forEach {A} (xs : list A) (body : A -> M W E X unit)
    : M W E X unit :=
  match xs with
  | [] => ret tt
  | x :: rest => bind (body x) (fun _ => forEach rest body)
  end.

Definition worldOf {A} (m : M W E X A) (w : W) : W := (m w).1.1.
Definition eventsOf {A} (m : M W E X A) (w : W) : list E := (m w).1.2.
Definition outcomeOf {A} (m : M W E X A) (w : W) : outcome X A := (m w).2.

(** Every event of every run of [m] satisfies [P]. *)
Definition Emits {A} (P : E -> Prop) (m : M W E X A) : Prop :=
  forall w, Forall P (eventsOf m w).

End Monad.

Notation "x <~ m ;; k" := (bind m (fun x => k))
  (at level 100, m at next level, right associativity,
   format "'[v' x  <~  m  ;;  '/' k ']'").

Section ErrorMonad.

Context {W E : Type}.

(** [if err != nil { return errors.Wrap(err, msg) }] after a call that
    returned [(v, err)]. *)
Definition orWrap {A} (r : result A) (msg : string) : M W E Error A :=
  match r with
  | Ok a => ret a
  | Err e => fail (ErrWrap e msg)
  end.

(** [v, err := m(); if err != nil { return errors.Wrap(err, msg) }] for a
    call [m] of a function of the same package. *)
Definition wrapping {A} (m : M W E Error A) (msg : string) : M W E Error A :=
  fun w =>
    match m w with
    | (w1, evs, Failed e) => (w1, evs, Failed (ErrWrap e msg))
    | other => other
    end.

End ErrorMonad.

(** What the Go runtime decides: the clock, and the order in which a
    [range] over a map yields its entries (unspecified by the language,
    and free to differ from one loop to the next). *)
Class GoRuntime (W : Type) : Type := {
  time_Now : W -> W * Time;
  map_range : forall (K : Type) `{Countable K} (A : Type),
      gmap K A -> W -> W * list (K * A);
  map_range_perm : forall (K : Type) `{Countable K} (A : Type)
      (m : gmap K A) (w : W),
      (map_range K A m w).2 ≡ₚ map_to_list m
}.
Arguments map_range {W _ K _ _ A} m w.

(** The parts of package [model] the code reads.  [Module] is a keyword,
    so the struct [model.Module] is [model.Module_]. *)
Module model.

Record ProjectRef : Type := mkProjectRef {
  Identifier : string;
  Branch : string;
  FilesIgnoredFromCache : list string
}.

Record Module_ : Type := mkModule {
  Name : string;
  ModuleBranch : string;
  Repo : string
}.

Record Project : Type := mkProject {
  Modules : list Module_
}.

End model.

(** ** The job *)

Inductive Stage : Type := Hourly | Daily.

(** One invocation of a generator function: the loop it was made from
    (with the [displayName] of that loop), the arguments it was given and
    the error it returned. *)
Record GenCall : Type := mkGenCall {
  gc_stage : Stage;
  gc_displayName : string;
  gc_projectId : string;
  gc_requester : string;
  gc_timePeriod : Time;
  gc_tasks : list string;
  gc_jobDate : Time;
  gc_err : option Error
}.

Inductive JobEvent : Type :=
| EvGetStatsStatus (projectId : string) (r : result stats.StatsStatus)
| EvFindOneProjectRef (projectId : string)
    (r : result (option model.ProjectRef))
| EvFindStatsToUpdate (projectId : string) (from to : Time)
    (r : result (list stats.StatsToUpdate))
| EvGenerate (c : GenCall)
| EvUpdateStatsStatus (projectId : string) (jobTime processedUntil : Time)
    (err : option Error).

Section Job.

Context {W : Type} `{GoRuntime W}.
Context {Regexp : Type}.
Variable regexp_Compile : string -> result Regexp.
Variable MatchString : Regexp -> string -> bool.

(** [type generateStatsFn func(projectId string, requester string,
    timePeriod time.Time, tasks []string, jobDate time.Time) error] *)
Definition generateStatsFn : Type :=
  string -> string -> Time -> list string -> Time -> W -> W * option Error.

Record generateFunctions : Type := mkGenerateFunctions {
  HourlyFns : gmap string generateStatsFn;
  DailyFns : gmap string generateStatsFn
}.

Record cacheHistoricalJobContext : Type := mkJobContext {
  ProjectId : string;
  JobTime : Time;
  TasksToIgnore : list Regexp
}.

(** The functions of packages [stats] and [model] that the job calls. *)
Record JobEnv : Type := mkJobEnv {
  stats_GetStatsStatus : string -> W -> W * result stats.StatsStatus;
  model_FindOneProjectRef :
    string -> W -> W * result (option model.ProjectRef);
  stats_FindStatsToUpdate :
    string -> Time -> Time -> W -> W * result (list stats.StatsToUpdate);
  stats_GenerateHourlyTestStats : generateStatsFn;
  stats_GenerateDailyTestStatsFromHourly : generateStatsFn;
  stats_GenerateDailyTaskStats : generateStatsFn;
  stats_UpdateStatsStatus : string -> Time -> Time -> W -> W * option Error
}.

Variable env : JobEnv.

(** [err := errors.Wrap(fn(...), msg); grip.Warning(...);
     if err != nil { return err }] -- the generator call of both
    iterators.  The warning only writes a log line and is left out. *)
Definition generate (stage : Stage) (displayName : string)
    (fn : generateStatsFn) (projectId requester : string) (timePeriod : Time)
    (tasks : list string) (jobDate : Time) (msg : string)
    : M W JobEvent Error unit :=
  err <~ extcall (fn projectId requester timePeriod tasks jobDate)
           (fun err => EvGenerate
              (mkGenCall stage displayName projectId requester timePeriod
                 tasks jobDate err)) ;;
  match errors_Wrap err msg with
  | Some e => fail e
  | None => ret tt
  end.

Definition iteratorOverHourlyStats (c : cacheHistoricalJobContext)
    (stats : list stats.StatsToUpdate) (fn : generateStatsFn)
    (displayName : string) : M W JobEvent Error unit :=
  forEach stats (fun stat =>
    let taskList :=
      filterIgnoredTasks MatchString (stats.Tasks stat) (TasksToIgnore c) in
    if (0 <? length taskList)%nat then
      generate Hourly displayName fn (stats.ProjectId stat)
        (stats.Requester stat) (stats.Hour stat) taskList (JobTime c)
        "Could not sync hourly stats"
    else ret tt).

Definition iteratorOverDailyStats (c : cacheHistoricalJobContext)
    (dailyStats : dailyStatsRollup) (fn : generateStatsFn)
    (displayName : string) : M W JobEvent Error unit :=
  days <~ call (map_range dailyStats) ;;
  forEach days (fun '(day, stats) =>
    requesters <~ call (map_range stats) ;;
    forEach requesters (fun '(requester, tasks) =>
      let taskList := filterIgnoredTasks MatchString tasks (TasksToIgnore c) in
      if (0 <? length taskList)%nat then
        generate Daily displayName fn (ProjectId c) requester day taskList
          (JobTime c) "Could not sync daily stats"
      else ret tt)).

(** The first loop of [updateHourlyAndDailyStats]. *)
Definition hourlyStage (c : cacheHistoricalJobContext)
    (statsToUpdate : list stats.StatsToUpdate)
    (generateFns : generateFunctions) : M W JobEvent Error unit :=
  hourlyFns <~ call (map_range (HourlyFns generateFns)) ;;
  forEach hourlyFns (fun '(name, genFn) =>
    iteratorOverHourlyStats c statsToUpdate genFn name).

(** The rest of [updateHourlyAndDailyStats]: the rollup and the second
    loop. *)
Definition dailyStage (c : cacheHistoricalJobContext)
    (statsToUpdate : list stats.StatsToUpdate)
    (generateFns : generateFunctions) : M W JobEvent Error unit :=
  let dailyStats := buildDailyStatsRollup statsToUpdate in
  dailyFns <~ call (map_range (DailyFns generateFns)) ;;
  forEach dailyFns (fun '(name, genFn) =>
    iteratorOverDailyStats c dailyStats genFn name).

Definition updateHourlyAndDailyStats (c : cacheHistoricalJobContext)
    (statsToUpdate : list stats.StatsToUpdate)
    (generateFns : generateFunctions) : M W JobEvent Error unit :=
  _ <~ hourlyStage c statsToUpdate generateFns ;;
  dailyStage c statsToUpdate generateFns.

Definition findTargetTimeForSync (previousSyncTime : Time)
    : M W JobEvent Error Time :=
  now <~ call time_Now ;;
  let maxSyncTime := Time_Add previousSyncTime maxSyncDuration in
  if Time_After maxSyncTime now then ret now else ret maxSyncTime.

Definition getTasksToIgnore (projectId : string)
    : M W JobEvent Error (list Regexp) :=
  r <~ extcall (model_FindOneProjectRef env projectId)
         (EvFindOneProjectRef projectId) ;;
  ref <~ orWrap r "Could not get project ref" ;;
  ref <~ deref ref ;;
  let filePatternsStr := model.FilesIgnoredFromCache ref in
  match createRegexpFromStrings regexp_Compile filePatternsStr with
  | Ok res => ret res
  | Err e => fail e
  end.

(** The table of generator functions that [Run] builds. *)
Definition generateMap : generateFunctions :=
  mkGenerateFunctions
    {[ "test" := stats_GenerateHourlyTestStats env ]}
    {[ "test" := stats_GenerateDailyTestStatsFromHourly env;
       "task" := stats_GenerateDailyTaskStats env ]}.

(** [Run] for the job of project [j_ProjectId].  [Failed e] is
    [j.AddError(e)] followed by [return]; the deferred [j.MarkComplete()]
    runs however the body ends.  [grip.Info] only writes a log line. *)
Definition Run (j_ProjectId : string) : M W JobEvent Error unit :=
  r <~ extcall (stats_GetStatsStatus env j_ProjectId)
         (EvGetStatsStatus j_ProjectId) ;;
  statsStatus <~ orWrap r "error retrieving last sync date" ;;
  tasksToIgnore <~
    wrapping (getTasksToIgnore j_ProjectId)
      "error retrieving project settings" ;;
  jobTime <~ call time_Now ;;
  let jobContext := mkJobContext j_ProjectId jobTime tasksToIgnore in
  let syncFromTime := stats.ProcessedTasksUntil statsStatus in
  syncToTime <~ findTargetTimeForSync syncFromTime ;;
  r <~ extcall (stats_FindStatsToUpdate env j_ProjectId syncFromTime syncToTime)
         (EvFindStatsToUpdate j_ProjectId syncFromTime syncToTime) ;;
  statsToUpdate <~ orWrap r "error finding tasks to update" ;;
  _ <~ wrapping (updateHourlyAndDailyStats jobContext statsToUpdate generateMap)
         "error generating hourly test stats" ;;
  err <~ extcall (stats_UpdateStatsStatus env j_ProjectId jobTime syncToTime)
           (EvUpdateStatsStatus j_ProjectId jobTime syncToTime) ;;
  match err with
  | Some e => fail (ErrWrap e "error updating last synced date")
  | None => ret tt
  end.

End Job.

(** ** The manifest load handler *)

(** The parts of package [manifest] the handler builds. *)
Module manifest.

Record Module_ : Type := mkModule {
  Branch : string;
  Revision : string;
  Repo : string;
  Owner : string;
  URL : string
}.

Record Manifest : Type := mkManifest {
  Id : string;
  ManifestRevision : string;
  ProjectName : string;
  ManifestBranch : string;
  Modules : gmap string Module_
}.

End manifest.

(** [github.Branch], with the pointers the handler follows. *)
Module github.

Record RepositoryCommit : Type := mkRepositoryCommit {
  SHA : option string;
  CommitURL : option string
}.

Record Branch : Type := mkBranch {
  Commit : option RepositoryCommit
}.

End github.

(** The task that [MustHaveTask] takes from the request. *)
Record Task : Type := mkTask {
  TaskProject : string;
  TaskVersion : string;
  TaskRevision : string
}.

Definition StatusBadRequest : Z := 400.
Definition StatusInternalServerError : Z := 500.

(** What the handler writes to the response. *)
Inductive Response : Type :=
| LoggedError (status : Z) (err : Error)
| WriteJSON (m : manifest.Manifest).

Inductive HandlerEvent : Type :=
| EvProjectRef (project : string) (r : result (option model.ProjectRef))
| EvFindProject (ref : option model.ProjectRef)
    (r : result (option model.Project))
| EvFindOne (version : string) (r : result (option manifest.Manifest))
| EvGetGithubOauthToken (r : result string)
| EvGetBranchEvent (token owner repo branch : string)
    (r : result (option github.Branch))
| EvTryInsert (m : manifest.Manifest) (r : result bool).

Section Handler.

Context {W : Type}.

(** The functions of other packages that the handler calls.
    [manifest_FindOne v] is [manifest.FindOne(manifest.ById(v))] and
    [TryInsert m] is [m.TryInsert()], whose boolean reports a duplicate
    key. *)
Record HandlerEnv : Type := mkHandlerEnv {
  handler_FindOneProjectRef :
    string -> W -> W * result (option model.ProjectRef);
  model_FindProject :
    string -> option model.ProjectRef -> W ->
    W * result (option model.Project);
  manifest_FindOne : string -> W -> W * result (option manifest.Manifest);
  GetRepoOwnerAndName : model.Module_ -> string * string;
  GetGithubOauthToken : W -> W * result string;
  thirdparty_GetBranchEvent :
    string -> string -> string -> string -> W ->
    W * result (option github.Branch);
  TryInsert : manifest.Manifest -> W -> W * result bool
}.

Variable as_ : HandlerEnv.

Abbreviation H := (M W HandlerEvent Response).

(** [if err != nil { as.LoggedError(w, r, status, wrap(err)); return }] *)
Definition orRespond {A} (r : result A) (status : Z) (msg : string) : H A :=
  match r with
  | Ok a => ret a
  | Err err => fail (LoggedError status (ErrWrap err msg))
  end.

(** The loop that fills [modules], one upstream query per module. *)
Fixpoint populateModules (projectModules : list model.Module_)
    (modules : gmap string manifest.Module_)
    : H (gmap string manifest.Module_) :=
  match projectModules with
  | [] => ret modules
  | module :: rest =>
      let '(owner, repo) := GetRepoOwnerAndName as_ module in
      r <~ extcall (GetGithubOauthToken as_) EvGetGithubOauthToken ;;
      token <~ orRespond r StatusInternalServerError
                 "error getting github token" ;;
      r <~ extcall
             (thirdparty_GetBranchEvent as_ token owner repo
                (model.ModuleBranch module))
             (EvGetBranchEvent token owner repo (model.ModuleBranch module)) ;;
      gitBranch <~ orRespond r StatusInternalServerError
                     ("problem retrieving getting git branch for module "
                      +:+ model.Name module) ;;
      gitBranch <~ deref gitBranch ;;
      commit <~ deref (github.Commit gitBranch) ;;
      sha <~ deref (github.SHA commit) ;;
      url <~ deref (github.CommitURL commit) ;;
      populateModules rest
        (<[model.Name module :=
             manifest.mkModule (model.ModuleBranch module) sha repo owner url]>
           modules)
  end.

Definition manifestLoadHandler (task : Task) : H Response :=
  r <~ extcall (handler_FindOneProjectRef as_ (TaskProject task))
         (EvProjectRef (TaskProject task)) ;;
  projectRef <~ orRespond r StatusBadRequest
                  ("projectRef not found for project " +:+ TaskProject task) ;;
  r <~ extcall (model_FindProject as_ "" projectRef)
         (EvFindProject projectRef) ;;
  project <~
    match r with
    | Ok project => ret project
    | Err err =>
        ref <~ deref projectRef ;;
        fail (LoggedError StatusBadRequest
                (ErrWrap err ("project not found for ProjectRef "
                              +:+ model.Identifier ref)))
    end ;;
  project <~
    match project with
    | Some project => ret project
    | None =>
        ref <~ deref projectRef ;;
        fail (LoggedError StatusBadRequest
                (ErrNew ("empty project not found for ProjectRef "
                         +:+ model.Identifier ref)))
    end ;;
  (* try to get the manifest *)
  r <~ extcall (manifest_FindOne as_ (TaskVersion task))
         (EvFindOne (TaskVersion task)) ;;
  currentManifest <~
    orRespond r StatusBadRequest
      ("error retrieving manifest with version id " +:+ TaskVersion task) ;;
  match currentManifest with
  | Some currentManifest => ret (WriteJSON currentManifest)
  | None =>
      if bool_decide (TaskVersion task = "") then
        ref <~ deref projectRef ;;
        fail (LoggedError StatusBadRequest
                (ErrNew ("found empty version when retrieving manifest for "
                         +:+ model.Identifier ref)))
      else
        (* attempt to insert a manifest after making GitHub API calls *)
        ref <~ deref projectRef ;;
        modules <~ populateModules (model.Modules project) ∅ ;;
        let newManifest :=
          manifest.mkManifest (TaskVersion task) (TaskRevision task)
            (TaskProject task) (model.Branch ref) modules in
        r <~ extcall (TryInsert as_ newManifest) (EvTryInsert newManifest) ;;
        duplicate <~
          orRespond r StatusInternalServerError
            ("problem inserting manifest for project "
             +:+ manifest.ProjectName newManifest) ;;
        if (duplicate : bool) then
          r <~ extcall (manifest_FindOne as_ (TaskVersion task))
                 (EvFindOne (TaskVersion task)) ;;
          m <~ orRespond r StatusBadRequest
                 ("problem getting latest manifest for project "
                  +:+ manifest.ProjectName newManifest) ;;
          match m with
          | Some m => ret (WriteJSON m)
          | None => ret (WriteJSON newManifest)
          end
        else ret (WriteJSON newManifest)
  end.

(** The response written by a run: the handler returns early exactly
    after writing one. *)
Definition responseOf (o : outcome Response Response) : option Response :=
  match o with
  | Done r => Some r
  | Failed r => Some r
  | Panicked => None
  end.

End Handler.

(** ** Vocabulary for the statements *)

(** The generator calls of a trace, in order. *)
Definition genCalls (evs : list JobEvent) : list GenCall :=
  omap (fun ev => match ev with EvGenerate c => Some c | _ => None end) evs.

Definition callOk (c : GenCall) : Prop := gc_err c = None.

Definition isGenerate (ev : JobEvent) : bool :=
  match ev with EvGenerate _ => true | _ => false end.

(** The message each iterator wraps a generator error in. *)
Definition stageMsg (stage : Stage) : string :=
  match stage with
  | Hourly => "Could not sync hourly stats"
  | Daily => "Could not sync daily stats"
  end.

(** A trace and an outcome that fit the fail-fast policy: the run ends
    normally when every generator call returned [nil], and ends with the
    wrapped error of its last call when that call, and no earlier one,
    failed. *)
Definition failFast {A} (evs : list JobEvent) (o : outcome Error A) : Prop :=
  match o with
  | Done _ => Forall callOk (genCalls evs)
  | Failed e =>
      exists pre c e0,
        genCalls evs = pre ++ [c] /\ Forall callOk pre /\
        gc_err c = Some e0 /\ e = ErrWrap e0 (stageMsg (gc_stage c))
  | Panicked => False
  end.

(** A call as it would read had it returned [nil]. *)
Definition asOk (c : GenCall) : GenCall :=
  mkGenCall (gc_stage c) (gc_displayName c) (gc_projectId c)
    (gc_requester c) (gc_timePeriod c) (gc_tasks c) (gc_jobDate c) None.

(** A trace and an outcome that work through the list [expected] of
    calls: all of them when the run ends normally, and up to the first
    failing one otherwise. *)
Definition runsThrough {A} (expected : list GenCall) (evs : list JobEvent)
    (o : outcome Error A) : Prop :=
  match o with
  | Done _ => genCalls evs = expected
  | Failed e =>
      exists pre c e0 rest,
        genCalls evs = pre ++ [c] /\ expected = pre ++ asOk c :: rest /\
        gc_err c = Some e0 /\ e = ErrWrap e0 (stageMsg (gc_stage c))
  | Panicked => False
  end.

Definition FailFast {W A} (m : M W JobEvent Error A) : Prop :=
  forall w, failFast (eventsOf m w) (outcomeOf m w).

Definition RunsThrough {W A} (expected : W -> list GenCall)
    (m : M W JobEvent Error A) : Prop :=
  forall w, runsThrough (expected w) (eventsOf m w) (outcomeOf m w).

(** The units that fold into the bucket of [(day, requester)]. *)
Definition inBucket (day : Time) (requester : string)
    (u : stats.StatsToUpdate) : bool :=
  bool_decide (stats.Day u = day /\ stats.Requester u = requester).

(** Which keys the rollup holds. *)
Definition hasKey (rollup : dailyStatsRollup) (day : Time)
    (requester : string) : Prop :=
  is_Some (rollup !! day ≫= (.!! requester)).

Section SpecJob.

Context {Regexp : Type}.
Variable regexp_Compile : string -> result Regexp.
Variable MatchString : Regexp -> string -> bool.

(** The spec's [RollupBuilder.Filter]: "for each unit, remove task names
    matched by the matcher; drop units whose task list becomes empty after
    filtering". *)
Definition filterUnit (tasksToIgnore : list Regexp) (u : stats.StatsToUpdate)
    : stats.StatsToUpdate :=
  stats.mkStatsToUpdate (stats.ProjectId u) (stats.Requester u)
    (stats.Hour u) (stats.Day u)
    (List.filter
       (fun t => negb (existsb (fun re => MatchString re t) tasksToIgnore))
       (stats.Tasks u)).

Definition spec_Filter (tasksToIgnore : list Regexp)
    (units : list stats.StatsToUpdate) : list stats.StatsToUpdate :=
  List.filter (fun u => negb (isNil (stats.Tasks u)))
    (map (filterUnit tasksToIgnore) units).

(** The hourly generator call for one filtered unit, had it succeeded. *)
Definition hourlyCall (jobTime : Time) (displayName : string)
    (u : stats.StatsToUpdate) : GenCall :=
  mkGenCall Hourly displayName (stats.ProjectId u) (stats.Requester u)
    (stats.Hour u) (stats.Tasks u) jobTime None.

(** All hourly calls of one generator, in unit order. *)
Definition hourlyCalls (jobTime : Time) (tasksToIgnore : list Regexp)
    (units : list stats.StatsToUpdate) (displayName : string)
    : list GenCall :=
  map (hourlyCall jobTime displayName) (spec_Filter tasksToIgnore units).

(** The calls of the whole hourly stage when its generators are ranged
    over in the order [names]. *)
Definition hourlyStageCalls (jobTime : Time) (tasksToIgnore : list Regexp)
    (units : list stats.StatsToUpdate) (names : list string) : list GenCall :=
  flat_map (hourlyCalls jobTime tasksToIgnore units) names.

(** An hourly call made for one of [units]: it is given that unit's
    project, requester and hour, and the unit's task names without the
    ignored ones, of which at least one is left. *)
Definition hourlyEvent (jobTime : Time) (tasksToIgnore : list Regexp)
    (units : list stats.StatsToUpdate) (ev : JobEvent) : Prop :=
  exists c u,
    ev = EvGenerate c /\ gc_stage c = Hourly /\ In u units /\
    gc_projectId c = stats.ProjectId u /\
    gc_requester c = stats.Requester u /\
    gc_timePeriod c = stats.Hour u /\
    gc_jobDate c = jobTime /\
    gc_tasks c = filterIgnoredTasks MatchString (stats.Tasks u) tasksToIgnore /\
    gc_tasks c <> [].

(** A daily call made for a key of [rollup]: it is given the job's
    project, the key, and the key's bucket without the ignored names, of
    which at least one is left. *)
Definition dailyEvent (projectId : string) (jobTime : Time)
    (tasksToIgnore : list Regexp) (rollup : dailyStatsRollup)
    (ev : JobEvent) : Prop :=
  exists c,
    ev = EvGenerate c /\ gc_stage c = Daily /\
    gc_projectId c = projectId /\
    gc_jobDate c = jobTime /\
    hasKey rollup (gc_timePeriod c) (gc_requester c) /\
    gc_tasks c =
      filterIgnoredTasks MatchString
        (bucket rollup (gc_timePeriod c) (gc_requester c)) tasksToIgnore /\
    gc_tasks c <> [].

(** The spec's [IgnoreFilterCompiler.Compile], with "trimmed of
    surrounding whitespace" read as Go's [strings.TrimSpace] on ASCII:
    space, tab, newline, vertical tab, form feed and carriage return. *)
Definition asciiWhitespace : string :=
  String " " (String "009" (String "010" (String "011" (String "012"
    (String "013" EmptyString))))).

(** Compile every pattern of an already trimmed list, stopping at the
    first one the compiler rejects. *)
Fixpoint compileAll (patterns : list string) : result (list Regexp) :=
  match patterns with
  | [] => Ok []
  | p :: rest =>
      match regexp_Compile p with
      | Err err => Err (ErrWrap err "Could not compile regexp")
      | Ok re =>
          match compileAll rest with
          | Ok res => Ok (re :: res)
          | Err e => Err e
          end
      end
  end.

Definition spec_Compile (cutset : string) (patterns : list string)
    : result (list Regexp) :=
  compileAll
    (List.filter (fun p => negb (String.eqb p ""))
       (map (fun p => strings_Trim p cutset) patterns)).

End SpecJob.

(** The spec's [WindowPlanner.ComputeRange]. *)
Definition spec_ComputeRange (lastProcessed now : Time) (maxWindow : Duration)
    : Time * Time :=
  (lastProcessed, Z.min now (lastProcessed + maxWindow)).

Definition days (n : Z) : Duration := n * (24 * Hour).

(** A string made of [n] spaces. *)
Fixpoint spaces (n : nat) : string :=
  match n with
  | O => EmptyString
  | S n => String " " (spaces n)
  end.

Definition firstChar (s : string) : option ascii :=
  match s with
  | EmptyString => None
  | String c _ => Some c
  end.

Definition lastChar (s : string) : option ascii := firstChar (String.rev s).

(** The upstream queries of a handler trace. *)
Definition branchQueries (evs : list HandlerEvent)
    : list (string * string * string) :=
  omap (fun ev =>
          match ev with
          | EvGetBranchEvent _ owner repo branch _ => Some (owner, repo, branch)
          | _ => None
          end) evs.

(** What a trace of [Run] shows. *)
Definition updateCalled (evs : list JobEvent) : Prop :=
  exists p jobTime processedUntil err,
    In (EvUpdateStatsStatus p jobTime processedUntil err) evs.

Definition patternsCompiled {Regexp : Type}
    (regexp_Compile : string -> result Regexp) (evs : list JobEvent) : Prop :=
  exists p ref res,
    In (EvFindOneProjectRef p (Ok (Some ref))) evs /\
    createRegexpFromStrings regexp_Compile (model.FilesIgnoredFromCache ref)
      = Ok res.

Definition unitsFetched (evs : list JobEvent) : Prop :=
  exists p from to units, In (EvFindStatsToUpdate p from to (Ok units)) evs.

Definition generatorsSucceeded (evs : list JobEvent) : Prop :=
  Forall callOk (genCalls evs).

(** The windows [(from, to)] a trace asked the stats source for. *)
Definition fetchWindows (evs : list JobEvent) : list (Time * Time) :=
  omap (fun ev =>
          match ev with
          | EvFindStatsToUpdate _ from to _ => Some (from, to)
          | _ => None
          end) evs.

(** The checkpoint values a trace passed to the checkpoint update. *)
Definition checkpointUpdates (evs : list JobEvent) : list Time :=
  omap (fun ev =>
          match ev with
          | EvUpdateStatsStatus _ _ processedUntil _ => Some processedUntil
          | _ => None
          end) evs.

(** The target that [findTargetTimeForSync] returns when the clock reads
    [now]. *)
Definition syncTarget (now previousSyncTime : Time) : Time :=
  let maxSyncTime := Time_Add previousSyncTime maxSyncDuration in
  if Time_After maxSyncTime now then now else maxSyncTime.

Section RunPaths.

Context {W : Type} `{GoRuntime W}.
Context {Regexp : Type}.
Variable regexp_Compile : string -> result Regexp.
Variable MatchString : Regexp -> string -> bool.
Variable env : @JobEnv W.

(** [Run] got as far as the fetch: the checkpoint [st] was loaded, the
    project's patterns were compiled to [res], the clock was read twice
    ([jobTime], then [now] inside [findTargetTimeForSync]), leaving the
    world [w4]. *)
Inductive Prepares (p : string) (w : W)
    : stats.StatsStatus -> model.ProjectRef -> list Regexp ->
      Time -> Time -> W -> Prop :=
| prepares st ref res w1 w2 w3 w4 jobTime now
    (Hstatus : stats_GetStatsStatus env p w = (w1, Ok st))
    (Href : model_FindOneProjectRef env p w1 = (w2, Ok (Some ref)))
    (Hcompiled :
       createRegexpFromStrings regexp_Compile
         (model.FilesIgnoredFromCache ref) = Ok res)
    (HjobTime : time_Now w2 = (w3, jobTime))
    (Hnow : time_Now w3 = (w4, now)) :
    Prepares p w st ref res jobTime now w4.

(** The ways through [Run], each with its trace and outcome. *)
Inductive RunPath (p : string) (w : W)
    : list JobEvent -> outcome Error unit -> Prop :=
| path_status_error w1 e
    (Hstatus : stats_GetStatsStatus env p w = (w1, Err e)) :
    RunPath p w [EvGetStatsStatus p (Err e)]
      (Failed (ErrWrap e "error retrieving last sync date"))
| path_ref_error st w1 w2 e
    (Hstatus : stats_GetStatsStatus env p w = (w1, Ok st))
    (Href : model_FindOneProjectRef env p w1 = (w2, Err e)) :
    RunPath p w [EvGetStatsStatus p (Ok st); EvFindOneProjectRef p (Err e)]
      (Failed (ErrWrap (ErrWrap e "Could not get project ref")
                 "error retrieving project settings"))
| path_ref_nil st w1 w2
    (Hstatus : stats_GetStatsStatus env p w = (w1, Ok st))
    (Href : model_FindOneProjectRef env p w1 = (w2, Ok None)) :
    RunPath p w [EvGetStatsStatus p (Ok st); EvFindOneProjectRef p (Ok None)]
      Panicked
| path_compile_error st ref w1 w2 e
    (Hstatus : stats_GetStatsStatus env p w = (w1, Ok st))
    (Href : model_FindOneProjectRef env p w1 = (w2, Ok (Some ref)))
    (Hrejected :
       createRegexpFromStrings regexp_Compile
         (model.FilesIgnoredFromCache ref) = Err e) :
    RunPath p w
      [EvGetStatsStatus p (Ok st); EvFindOneProjectRef p (Ok (Some ref))]
      (Failed (ErrWrap e "error retrieving project settings"))
| path_fetch_error st ref res jobTime now w4 w5 e
    (Hprep : Prepares p w st ref res jobTime now w4) :
    let from := stats.ProcessedTasksUntil st in
    let to := syncTarget now from in
    forall (Hfetch : stats_FindStatsToUpdate env p from to w4 = (w5, Err e)),
    RunPath p w
      [EvGetStatsStatus p (Ok st); EvFindOneProjectRef p (Ok (Some ref));
       EvFindStatsToUpdate p from to (Err e)]
      (Failed (ErrWrap e "error finding tasks to update"))
| path_generator_error st ref res jobTime now w4 w5 units e
    (Hprep : Prepares p w st ref res jobTime now w4) :
    let from := stats.ProcessedTasksUntil st in
    let to := syncTarget now from in
    forall (Hfetch :
              stats_FindStatsToUpdate env p from to w4 = (w5, Ok units)),
    let dispatch :=
      updateHourlyAndDailyStats MatchString (mkJobContext p jobTime res)
        units (generateMap env) in
    forall (Hout : outcomeOf dispatch w5 = Failed e),
    RunPath p w
      ([EvGetStatsStatus p (Ok st); EvFindOneProjectRef p (Ok (Some ref));
        EvFindStatsToUpdate p from to (Ok units)]
       ++ eventsOf dispatch w5)
      (Failed (ErrWrap e "error generating hourly test stats"))
| path_update st ref res jobTime now w4 w5 units w7 err
    (Hprep : Prepares p w st ref res jobTime now w4) :
    let from := stats.ProcessedTasksUntil st in
    let to := syncTarget now from in
    forall (Hfetch :
              stats_FindStatsToUpdate env p from to w4 = (w5, Ok units)),
    let dispatch :=
      updateHourlyAndDailyStats MatchString (mkJobContext p jobTime res)
        units (generateMap env) in
    forall (Hout : outcomeOf dispatch w5 = Done tt)
      (Hupdate :
         stats_UpdateStatsStatus env p jobTime to (worldOf dispatch w5)
         = (w7, err)),
    RunPath p w
      ([EvGetStatsStatus p (Ok st); EvFindOneProjectRef p (Ok (Some ref));
        EvFindStatsToUpdate p from to (Ok units)]
       ++ eventsOf dispatch w5
       ++ [EvUpdateStatsStatus p jobTime to err])
      (match err with
       | None => Done tt
       | Some e => Failed (ErrWrap e "error updating last synced date")
       end).

End RunPaths.

(** What a trace of the handler shows. *)
Definition findResults (evs : list HandlerEvent)
    : list (result (option manifest.Manifest)) :=
  omap (fun ev =>
          match ev with
          | EvFindOne _ r => Some r
          | _ => None
          end) evs.

Definition insertAttempts (evs : list HandlerEvent)
    : list (manifest.Manifest * result bool) :=
  omap (fun ev =>
          match ev with
          | EvTryInsert m r => Some (m, r)
          | _ => None
          end) evs.

(** The project that the project lookup returned. *)
Definition resolvedProject (evs : list HandlerEvent) : option model.Project :=
  head (omap (fun ev =>
                match ev with
                | EvFindProject _ (Ok (Some project)) => Some project
                | _ => None
                end) evs).

(** The upstream query the handler makes for one module. *)
Definition moduleQuery {W : Type} (as_ : @HandlerEnv W) (m : model.Module_)
    : string * string * string :=
  ((GetRepoOwnerAndName as_ m).1, (GetRepoOwnerAndName as_ m).2,
   model.ModuleBranch m).

(** An upstream call of the trace did not deliver a branch head: the
    token or the branch query failed, or the branch came back without a
    commit, SHA or URL. *)
Definition upstreamFailure (ev : HandlerEvent) : bool :=
  match ev with
  | EvGetGithubOauthToken (Err _) => true
  | EvGetBranchEvent _ _ _ _ (Err _) => true
  | EvGetBranchEvent _ _ _ _ (Ok None) => true
  | EvGetBranchEvent _ _ _ _ (Ok (Some b)) =>
      match github.Commit b with
      | None => true
      | Some c =>
          match github.SHA c, github.CommitURL c with
          | Some _, Some _ => false
          | _, _ => true
          end
      end
  | _ => false
  end.

(** What the upstream calls for the modules of a project come to: a
    branch head (SHA and URL) for every module; or the error of the first
    call that failed; or a branch that came back, without an error,
    missing its commit, SHA or URL. *)
Inductive Heads : Type :=
| Delivered (heads : list (string * string))
| UpstreamFailed (e : Error)
| HeadMissing.

Definition headOf (b : option github.Branch) : option (string * string) :=
  match b with
  | Some b =>
      match github.Commit b with
      | Some c =>
          match github.SHA c, github.CommitURL c with
          | Some sha, Some url => Some (sha, url)
          | _, _ => None
          end
      | None => None
      end
  | None => None
  end.

(** The spec's "queries an upstream source-control API once per declared
    module for its branch head commit", as a function of the world the
    queries start in: for each module in turn a token is fetched and the
    branch of the module is asked for, up to the first call that does not
    deliver a head. *)
Fixpoint spec_BranchHeads {W : Type} (as_ : @HandlerEnv W)
    (modules : list model.Module_) (w : W) : W * Heads :=
  match modules with
  | [] => (w, Delivered [])
  | m :: rest =>
      match GetGithubOauthToken as_ w with
      | (w1, Err e) => (w1, UpstreamFailed e)
      | (w1, Ok token) =>
          match thirdparty_GetBranchEvent as_ token
                  (GetRepoOwnerAndName as_ m).1 (GetRepoOwnerAndName as_ m).2
                  (model.ModuleBranch m) w1 with
          | (w2, Err e) => (w2, UpstreamFailed e)
          | (w2, Ok b) =>
              match headOf b with
              | None => (w2, HeadMissing)
              | Some head =>
                  match spec_BranchHeads as_ rest w2 with
                  | (w3, Delivered heads) => (w3, Delivered (head :: heads))
                  | other => other
                  end
              end
          end
      end
  end.

(** ** A small concrete instance

    A world, a runtime and a pattern compiler on which the definitions
    above can be run.  They are used to evaluate the model at concrete
    inputs; no general statement depends on them. *)
Module Sample.

(** A stand-in for Go's [regexp]: an optional leading [^], a literal, an
    optional trailing [.*].  A pattern whose parentheses or brackets do
    not balance is rejected. *)
Record Pattern : Type := mkPattern {
  anchored : bool;
  literal : string
}.

Fixpoint countChar (c : ascii) (s : string) : nat :=
  match s with
  | EmptyString => O
  | String d rest =>
      if Ascii.eqb c d then S (countChar c rest) else countChar c rest
  end.

Definition balanced (s : string) : bool :=
  Nat.eqb (countChar "(" s) (countChar ")" s)
  && Nat.eqb (countChar "[" s) (countChar "]" s).

Definition dropSuffix (suffix s : string) : string :=
  let r := String.rev s in
  let rs := String.rev suffix in
  if String.prefix rs r
  then String.rev (String.substring (String.length rs)
                     (String.length r - String.length rs) r)
  else s.

Definition Compile (p : string) : result Pattern :=
  if balanced p then
    match p with
    | String "^" rest => Ok (mkPattern true (dropSuffix ".*" rest))
    | _ => Ok (mkPattern false (dropSuffix ".*" p))
    end
  else Err (ErrNew "error parsing regexp").

Definition MatchString (re : Pattern) (s : string) : bool :=
  if anchored re then String.prefix (literal re) s
  else match String.index 0 (literal re) s with
       | Some _ => true
       | None => false
       end.

(** Modelled from the spec: the external interfaces of the job (spec,
    section 6), which are not part of the sources at hand.  The checkpoint
    store keeps one timestamp ([GetCheckpoint] reads [checkpoint],
    [SetCheckpoint] overwrites it); the stats source returns [units] or
    fails ([fetchFails]); the project configuration source returns
    [ignorePatterns].  A generator fails when its task list contains
    [poison].  Each clock reading advances the clock by [tick]. *)
Record World : Type := mkWorld {
  clock : Time;
  tick : Duration;
  checkpoint : Time;
  ignorePatterns : list string;
  fetchFails : bool;
  units : list stats.StatsToUpdate;
  poison : string
}.

Definition now (w : World) : World * Time :=
  (mkWorld (clock w + tick w) (tick w) (checkpoint w) (ignorePatterns w)
     (fetchFails w) (units w) (poison w),
   clock w).

#[global] Instance runtime : GoRuntime World :=
  Build_GoRuntime World now
    (fun K _ _ A m w => (w, map_to_list m))
    (fun K _ _ A m w => reflexivity _).

Definition generator : @generateStatsFn World :=
  fun _ _ _ tasks _ w =>
    (w, if bool_decide (poison w ∈ tasks)
        then Some (ErrNew "generator failed") else None).

Definition jobEnv : @JobEnv World :=
  mkJobEnv
    (fun _ w => (w, Ok (stats.mkStatsStatus (checkpoint w))))
    (fun p w => (w, Ok (Some (model.mkProjectRef p "main" (ignorePatterns w)))))
    (fun _ _ _ w =>
       (w, if fetchFails w then Err (ErrNew "fetch failed")
           else Ok (units w)))
    generator generator generator
    (fun _ _ processedUntil w =>
       (mkWorld (clock w) (tick w) processedUntil (ignorePatterns w)
          (fetchFails w) (units w) (poison w), None)).

(** Two generators that ignore their arguments, and a table of three
    hourly generators of which one fails. *)
Definition succeeds : @generateStatsFn World :=
  fun _ _ _ _ _ w => (w, None).

Definition fails : @generateStatsFn World :=
  fun _ _ _ _ _ w => (w, Some (ErrNew "generator failed")).

Definition threeHourly : @generateFunctions World :=
  mkGenerateFunctions
    {[ "first" := succeeds; "second" := fails; "third" := succeeds ]}
    {[ "daily" := succeeds ]}.

(** The world of the handler: the result of every call is scripted, the
    successive results of [manifest.FindOne] being taken from a list. *)
Record Script : Type := mkScript {
  s_projectRef : result (option model.ProjectRef);
  s_project : result (option model.Project);
  s_finds : list (result (option manifest.Manifest));
  s_token : result string;
  s_branch : result (option github.Branch);
  s_insert : result bool
}.

Definition handlerEnv : @HandlerEnv Script :=
  mkHandlerEnv
    (fun _ w => (w, s_projectRef w))
    (fun _ _ w => (w, s_project w))
    (fun _ w =>
       match s_finds w with
       | [] => (w, Ok None)
       | r :: rest =>
           (mkScript (s_projectRef w) (s_project w) rest (s_token w)
              (s_branch w) (s_insert w), r)
       end)
    (fun m => ("evergreen-ci", model.Repo m))
    (fun w => (w, s_token w))
    (fun _ _ _ _ w => (w, s_branch w))
    (fun _ w => (w, s_insert w)).

End Sample.

(** ** The job's constructors *)

Definition cacheHistoricalTestDataName : string := "cache-historical-test-data".

(** The parts of packages [amboy], [dependency] and [job] the
    constructors touch: the job type, the dependency manager and the
    fields of [job.Base] that [SetID] and [SetDependency] write. *)
Module amboy.

Record JobType : Type := mkJobType {
  Name : string;
  Version : Z
}.

End amboy.

Module dependency.

Inductive Manager : Type := Always.

Definition NewAlways : Manager := Always.

End dependency.

Module job.

Record Base : Type := mkBase {
  TaskID : string;
  JobType : amboy.JobType;
  Dependency : option dependency.Manager
}.

Definition SetID (n : string) (b : Base) : Base :=
  mkBase n (JobType b) (Dependency b).

Definition SetDependency (d : dependency.Manager) (b : Base) : Base :=
  mkBase (TaskID b) (JobType b) (Some d).

Definition ID (b : Base) : string := TaskID b.

End job.

(** [type cacheHistoricalTestDataJob struct].  The field [ProjectId] is
    [JobProjectId] here, the name [ProjectId] being the field of the job
    context. *)
Record cacheHistoricalTestDataJob : Type := mkCacheHistoricalTestDataJob {
  JobProjectId : string;
  Base : job.Base
}.

Definition makeCacheHistoricalTestDataJob : cacheHistoricalTestDataJob :=
  let j :=
    mkCacheHistoricalTestDataJob ""
      (job.mkBase "" (amboy.mkJobType cacheHistoricalTestDataName 0) None) in
  mkCacheHistoricalTestDataJob (JobProjectId j)
    (job.SetDependency dependency.NewAlways (Base j)).

(** [fmt.Sprintf("%s.%s.%s", a, b, c)] *)
Definition sprintf_dotted (a b c : string) : string :=
  a +:+ "." +:+ b +:+ "." +:+ c.

Definition NewCacheHistoricalTestDataJob (projectId id : string)
    : cacheHistoricalTestDataJob :=
  let j := makeCacheHistoricalTestDataJob in
  let j := mkCacheHistoricalTestDataJob projectId (Base j) in
  mkCacheHistoricalTestDataJob (JobProjectId j)
    (job.SetID
       (sprintf_dotted cacheHistoricalTestDataName projectId id) (Base j)).

(** The character [c] occurs in [s]. *)
Fixpoint occurs (c : ascii) (s : string) : bool :=
  match s with
  | EmptyString => false
  | String d rest => if Ascii.eqb c d then true else occurs c rest
  end.

(** ** The migration command *)

Record MigrationCommand : Type := mkMigrationCommand {
  ConfigPath : string;
  MongoDBURI : string;
  DryRun : bool
}.

Definition migrationFeatureDisabled : bool := true.

(** The error side of a [(value, error)] pair. *)
Definition errOf {A} (r : result A) : option Error :=
  match r with
  | Ok _ => None
  | Err e => Some e
  end.

(** The calls of [Execute], each with the error it returned; [EvClose]
    and [EvCancel] are the two deferred calls. *)
Inductive MigrationEvent : Type :=
| EvNewSettings (path : string) (err : option Error)
| EvValidate (err : option Error)
| EvSetup (uri : string) (err : option Error)
| EvApplication (err : option Error)
| EvAppRun (dryRun : bool) (err : option Error)
| EvClose
| EvCancel.

Section Migration.

(** The world, and the values of packages [evergreen] and [migrations]
    that the command passes on: the settings, the migration environment
    and the application. *)
Context {W Settings Environment App : Type}.

(** [app_Run app dryRun] is [app.DryRun = dryRun] followed by
    [app.Run(ctx)]. *)
Record MigrationEnv : Type := mkMigrationEnv {
  evergreen_NewSettings : string -> W -> W * result Settings;
  settings_Validate : Settings -> W -> W * option Error;
  settings_Database_Url : Settings -> string;
  migrations_Setup : string -> W -> W * result Environment;
  env_Close : Environment -> W -> W * unit;
  migrations_Application : Environment -> W -> W * result App;
  app_Run : App -> bool -> W -> W * option Error
}.

Variable menv : MigrationEnv.

(** The command is reached through a pointer: it is part of the state,
    next to the world. *)
Abbreviation MS := (W * MigrationCommand)%type.

Definition onWorld {A} (f : W -> W * A) (s : MS) : MS * A :=
  match f s.1 with (w1, a) => ((w1, s.2), a) end.

Definition getCommand (s : MS) : MS * MigrationCommand := (s, s.2).

Definition setMongoDBURI (uri : string) (s : MS) : MS * unit :=
  ((s.1, mkMigrationCommand (ConfigPath s.2) uri (DryRun s.2)), tt).

(** [defer cleanup] ahead of [body]: the cleanup runs when the function
    returns, however [body] ends. *)
Definition deferring {A} (cleanup : M MS MigrationEvent Error unit)
    (body : M MS MigrationEvent Error A) : M MS MigrationEvent Error A :=
  fun s =>
    match body s with
    | (s1, evs1, o) =>
        match cleanup s1 with
        | (s2, evs2, _) => (s2, evs1 ++ evs2, o)
        end
    end.

(** [return errors.Wrap(err, msg)] when [err] is not nil. *)
Definition returnWrapped (err : option Error) (msg : string)
    : M MS MigrationEvent Error unit :=
  match errors_Wrap err msg with
  | Some e => fail e
  | None => ret tt
  end.

(** [Execute] from the creation of the context on. *)
Definition migrate : M MS MigrationEvent Error unit :=
  deferring (extcall (fun s => (s, tt)) (fun _ => EvCancel))
    (c <~ call getCommand ;;
     r <~ extcall (onWorld (migrations_Setup menv (MongoDBURI c)))
            (fun r => EvSetup (MongoDBURI c) (errOf r)) ;;
     env <~ orWrap r "problem setting up migration environment" ;;
     deferring (extcall (onWorld (env_Close menv env)) (fun _ => EvClose))
       (r <~ extcall (onWorld (migrations_Application menv env))
               (fun r => EvApplication (errOf r)) ;;
        app <~ orWrap r "problem configuring migration application" ;;
        c <~ call getCommand ;;
        err <~ extcall (onWorld (app_Run menv app (DryRun c)))
                 (EvAppRun (DryRun c)) ;;
        returnWrapped err "problem running migration operation")).

(** [Execute] after the feature guard. *)
Definition executeEnabled : M MS MigrationEvent Error unit :=
  c <~ call getCommand ;;
  r <~ extcall (onWorld (evergreen_NewSettings menv (ConfigPath c)))
         (fun r => EvNewSettings (ConfigPath c) (errOf r)) ;;
  settings <~ orWrap r "problem getting settings" ;;
  err <~ extcall (onWorld (settings_Validate menv settings)) EvValidate ;;
  _ <~ returnWrapped err "problem validating settings" ;;
  _ <~ (if bool_decide (MongoDBURI c = "")
        then call (setMongoDBURI (settings_Database_Url menv settings))
        else ret tt) ;;
  migrate.

Definition Execute (args : list string) : M MS MigrationEvent Error unit :=
  if migrationFeatureDisabled
  then fail (ErrNew "migrations are not enabled in this build")
  else executeEnabled.

End Migration.

(** The deferred calls that are owed after the calls [body]: the
    environment is closed if it was set up, and the context is cancelled
    if it was created, which is just before the set-up is tried. *)
Definition isCleanup (ev : MigrationEvent) : bool :=
  match ev with
  | EvClose => true
  | EvCancel => true
  | _ => false
  end.

Definition cleanupsOwed (body : list MigrationEvent) : list MigrationEvent :=
  (if existsb (fun ev => match ev with EvSetup _ None => true | _ => false end)
        body
   then [EvClose] else []) ++
  (if existsb (fun ev => match ev with EvSetup _ _ => true | _ => false end)
        body
   then [EvCancel] else []).

(** The settings were validated. *)
Definition validated (evs : list MigrationEvent) : bool :=
  existsb (fun ev => match ev with EvValidate None => true | _ => false end)
    evs.

(** How the command ends after a last call [ev] of its body. *)
Definition migrationEndsAfter (ev : MigrationEvent) (o : outcome Error unit)
    : Prop :=
  match ev with
  | EvNewSettings _ (Some e) =>
      o = Failed (ErrWrap e "problem getting settings")
  | EvValidate (Some e) =>
      o = Failed (ErrWrap e "problem validating settings")
  | EvSetup _ (Some e) =>
      o = Failed (ErrWrap e "problem setting up migration environment")
  | EvApplication (Some e) =>
      o = Failed (ErrWrap e "problem configuring migration application")
  | EvAppRun _ (Some e) =>
      o = Failed (ErrWrap e "problem running migration operation")
  | EvAppRun _ None => o = Done tt
  | _ => False
  end.

(** What a call of the command is given: the configuration path, the
    database URI and the dry-run flag. *)
Definition migrationArgs (path uri : string) (dryRun : bool)
    (ev : MigrationEvent) : Prop :=
  match ev with
  | EvNewSettings q _ => q = path
  | EvSetup u _ => u = uri
  | EvAppRun d _ => d = dryRun
  | _ => True
  end.

(** ** More vocabulary *)

(** The number of task names a rollup holds, over all of its buckets. *)
Definition innerTaskCount (inner : gmap string (list string)) : nat :=
  map_fold (fun _ tasks acc => (length tasks + acc)%nat) O inner.

Definition rollupTaskCount (rollup : dailyStatsRollup) : nat :=
  map_fold (fun _ inner acc => (innerTaskCount inner + acc)%nat) O rollup.

Definition unitsTaskCount (units : list stats.StatsToUpdate) : nat :=
  foldr (fun u acc => (length (stats.Tasks u) + acc)%nat) O units.

(** What the rollup reads of a unit. *)
Definition rollupView (u : stats.StatsToUpdate)
    : Time * string * list string :=
  (stats.Day u, stats.Requester u, stats.Tasks u).

(** The checkpoint after [n] successful runs that all read the clock at
    [now]: each run moves it to its sync target. *)
Definition checkpointAfter (n : nat) (now lastProcessed : Time) : Time :=
  Nat.iter n (syncTarget now) lastProcessed.

(** A call made on behalf of the job of project [p], in a trace [evs]:
    the lookups, the fetch and the checkpoint update name [p]; a daily
    generator call names [p] and the day and requester of a fetched unit;
    an hourly generator call names the project, the requester and the
    hour of a fetched unit. *)
Definition callOfJob (p : string) (evs : list JobEvent) (ev : JobEvent)
    : Prop :=
  match ev with
  | EvGetStatsStatus q _ => q = p
  | EvFindOneProjectRef q _ => q = p
  | EvFindStatsToUpdate q _ _ _ => q = p
  | EvUpdateStatsStatus q _ _ _ => q = p
  | EvGenerate c =>
      exists from to units u,
        In (EvFindStatsToUpdate p from to (Ok units)) evs /\ In u units /\
        gc_requester c = stats.Requester u /\
        match gc_stage c with
        | Hourly =>
            gc_projectId c = stats.ProjectId u /\
            gc_timePeriod c = stats.Hour u
        | Daily =>
            gc_projectId c = p /\ gc_timePeriod c = stats.Day u
        end
  end.

(** The generator, day and requester of a daily call, and those of
    all the daily calls of a trace. *)
Definition dailyKey (ev : JobEvent) : option (string * Time * string) :=
  match ev with
  | EvGenerate c =>
      match gc_stage c with
      | Daily => Some (gc_displayName c, gc_timePeriod c, gc_requester c)
      | Hourly => None
      end
  | _ => None
  end.

Definition dailyKeys (evs : list JobEvent) : list (string * Time * string) :=
  omap dailyKey evs.

(** What a call of a run is given of the two clock readings [jobTime]
    and [now]: a generator call and the checkpoint update get [jobTime] as
    the job date; the fetch and the checkpoint update get the sync target
    for [now] as the end of the window. *)
Definition timedBy (lastProcessed jobTime now : Time) (ev : JobEvent)
    : Prop :=
  match ev with
  | EvGenerate c => gc_jobDate c = jobTime
  | EvFindStatsToUpdate _ from to _ =>
      from = lastProcessed /\ to = syncTarget now lastProcessed
  | EvUpdateStatsStatus _ jt processedUntil _ =>
      jt = jobTime /\ processedUntil = syncTarget now lastProcessed
  | _ => True
  end.

(** How [Run] ends after a last call [ev]. *)
Definition endsAfter {Regexp : Type}
    (regexp_Compile : string -> result Regexp) (ev : JobEvent)
    (o : outcome Error unit) : Prop :=
  match ev with
  | EvGetStatsStatus _ (Err e) =>
      o = Failed (ErrWrap e "error retrieving last sync date")
  | EvFindOneProjectRef _ (Err e) =>
      o = Failed (ErrWrap (ErrWrap e "Could not get project ref")
                    "error retrieving project settings")
  | EvFindOneProjectRef _ (Ok None) => o = Panicked
  | EvFindOneProjectRef _ (Ok (Some ref)) =>
      exists e,
        createRegexpFromStrings regexp_Compile
          (model.FilesIgnoredFromCache ref) = Err e /\
        o = Failed (ErrWrap e "error retrieving project settings")
  | EvFindStatsToUpdate _ _ _ (Err e) =>
      o = Failed (ErrWrap e "error finding tasks to update")
  | EvGenerate c =>
      exists e,
        gc_err c = Some e /\
        o = Failed (ErrWrap (ErrWrap e (stageMsg (gc_stage c)))
                      "error generating hourly test stats")
  | EvUpdateStatsStatus _ _ _ (Some e) =>
      o = Failed (ErrWrap e "error updating last synced date")
  | EvUpdateStatsStatus _ _ _ None => o = Done tt
  | _ => False
  end.

(** The branch heads (SHA and URL) that the upstream queries of a trace
    delivered, in order. *)
Definition branchHeads (evs : list HandlerEvent) : list (string * string) :=
  omap (fun ev =>
          match ev with
          | EvGetBranchEvent _ _ _ _ (Ok (Some b)) =>
              match github.Commit b with
              | Some c =>
                  match github.SHA c, github.CommitURL c with
                  | Some sha, Some url => Some (sha, url)
                  | _, _ => None
                  end
              | None => None
              end
          | _ => None
          end) evs.

(** The entry the handler stores for a module whose branch head is
    [head]. *)
Definition moduleEntry {W : Type} (as_ : @HandlerEnv W) (m : model.Module_)
    (head : string * string) : manifest.Module_ :=
  manifest.mkModule (model.ModuleBranch m) head.1
    (GetRepoOwnerAndName as_ m).2 (GetRepoOwnerAndName as_ m).1 head.2.

(** The module map after the entries for [projectModules], built from
    the branch heads [heads], are put into [modules] one after the other. *)
Definition builtModules {W : Type} (as_ : @HandlerEnv W)
    (projectModules : list model.Module_) (heads : list (string * string))
    (modules : gmap string manifest.Module_) : gmap string manifest.Module_ :=
  fold_left
    (fun acc mh => <[model.Name mh.1 := moduleEntry as_ mh.1 mh.2]> acc)
    (zip projectModules heads) modules.

(** The calls that go upstream: for a token and for a branch. *)
Definition isUpstream (ev : HandlerEvent) : bool :=
  match ev with
  | EvGetGithubOauthToken _ => true
  | EvGetBranchEvent _ _ _ _ _ => true
  | _ => false
  end.

(** The calls whose error the handler answers with a server error. *)
Definition serverSide (ev : HandlerEvent) : bool :=
  match ev with
  | EvGetGithubOauthToken (Err _) => true
  | EvGetBranchEvent _ _ _ _ (Err _) => true
  | EvTryInsert _ (Err _) => true
  | _ => false
  end.

(** Every upstream query of the trace is made with the token that the
    call just before it returned, and nothing follows a token that could
    not be fetched. *)
Fixpoint tokensPaired (evs : list HandlerEvent) : bool :=
  match evs with
  | [] => true
  | EvGetGithubOauthToken (Ok token)
      :: EvGetBranchEvent token' _ _ _ _ :: rest =>
      String.eqb token token' && tokensPaired rest
  | [EvGetGithubOauthToken (Err _)] => true
  | _ => false
  end.

(** A branch came back with a nil pointer on the way to its SHA and URL. *)
Definition nilBranch (ev : HandlerEvent) : bool :=
  match ev with
  | EvGetBranchEvent _ _ _ _ (Ok _) => upstreamFailure ev
  | _ => false
  end.

(** * Proofs *)

(** [naive_solver] may try to clear a hypothesis that a substitution has
    already removed; the warning about it carries no information. *)
#[local] Set Warnings "-clear-no-such-hyp".

(** ** Runs of the monad *)

Section Runs.

Context {W E X : Type}.

Lemma run_eta {A} (m : M W E X A) w :
  m w = (worldOf m w, eventsOf m w, outcomeOf m w).
Proof. unfold worldOf, eventsOf, outcomeOf. by destruct (m w) as [[??]?]. Qed.

Lemma events_bind {A B} (m : M W E X A) (k : A -> M W E X B) w :
  eventsOf (bind m k) w =
  eventsOf m w ++
    match outcomeOf m w with
    | Done a => eventsOf (k a) (worldOf m w)
    | _ => []
    end.
Proof.
  unfold eventsOf, outcomeOf, worldOf, bind.
  destruct (m w) as [[w1 evs1] [a|e|]]; simpl; rewrite ?app_nil_r; auto.
  by destruct (k a w1) as [[??]?].
Qed.

Lemma outcome_bind {A B} (m : M W E X A) (k : A -> M W E X B) w :
  outcomeOf (bind m k) w =
    match outcomeOf m w with
    | Done a => outcomeOf (k a) (worldOf m w)
    | Failed e => Failed e
    | Panicked => Panicked
    end.
Proof.
  unfold eventsOf, outcomeOf, worldOf, bind.
  destruct (m w) as [[w1 evs1] [a|e|]]; simpl; auto.
  by destruct (k a w1) as [[??]?].
Qed.

Lemma events_call {A} (f : W -> W * A) w : eventsOf (@call W E X A f) w = [].
Proof. unfold eventsOf, call. by destruct (f w). Qed.

Lemma outcome_call {A} (f : W -> W * A) w :
  outcomeOf (@call W E X A f) w = Done (f w).2.
Proof. unfold outcomeOf, call. by destruct (f w). Qed.

Lemma world_call {A} (f : W -> W * A) w :
  worldOf (@call W E X A f) w = (f w).1.
Proof. unfold worldOf, call. by destruct (f w). Qed.

Lemma events_extcall {A} (f : W -> W * A) (ev : A -> E) w :
  eventsOf (@extcall W E X A f ev) w = [ev (f w).2].
Proof. unfold eventsOf, extcall. by destruct (f w). Qed.

Lemma outcome_extcall {A} (f : W -> W * A) (ev : A -> E) w :
  outcomeOf (@extcall W E X A f ev) w = Done (f w).2.
Proof. unfold outcomeOf, extcall. by destruct (f w). Qed.

Lemma run_parts {A} (m : M W E X A) w w' evs o :
  m w = (w', evs, o) ->
  w' = worldOf m w /\ evs = eventsOf m w /\ o = outcomeOf m w.
Proof. unfold worldOf, eventsOf, outcomeOf. by intros ->. Qed.

(** Inversion of one step of a run. *)
Lemma bind_inv {A B} (m : M W E X A) (k : A -> M W E X B) w w' evs o :
  bind m k w = (w', evs, o) ->
  (exists w1 evs1 a evs2,
     m w = (w1, evs1, Done a) /\ k a w1 = (w', evs2, o) /\
     evs = evs1 ++ evs2) \/
  (exists x, m w = (w', evs, Failed x) /\ o = Failed x) \/
  (m w = (w', evs, Panicked) /\ o = Panicked).
Proof.
  unfold bind. destruct (m w) as [[w1 evs1] [a|x|]].
  - destruct (k a w1) as [[w2 evs2] o2] eqn:Hk. intros [= <- <- <-].
    left. by exists w1, evs1, a, evs2.
  - intros [= <- <- <-]. right; left. by exists x.
  - intros [= <- <- <-]. by right; right.
Qed.

Lemma ret_inv {A} (a : A) (w w' : W) (evs : list E) (o : outcome X A) :
  ret a w = (w', evs, o) -> w' = w /\ evs = [] /\ o = Done a.
Proof. by intros [= <- <- <-]. Qed.

Lemma fail_inv {A} x (w w' : W) (evs : list E) (o : outcome X A) :
  fail x w = (w', evs, o) -> w' = w /\ evs = [] /\ o = Failed x.
Proof. by intros [= <- <- <-]. Qed.

Lemma panic_inv {A} (w w' : W) (evs : list E) (o : outcome X A) :
  panic w = (w', evs, o) -> w' = w /\ evs = [] /\ o = Panicked.
Proof. by intros [= <- <- <-]. Qed.

Lemma call_inv {A} (f : W -> W * A) w w' (evs : list E)
    (o : outcome X A) :
  call f w = (w', evs, o) ->
  exists a, f w = (w', a) /\ evs = [] /\ o = Done a.
Proof. unfold call. destruct (f w) as [w1 a]. intros [= <- <- <-]. eauto. Qed.

Lemma extcall_inv {A} (f : W -> W * A) (ev : A -> E) w w' evs
    (o : outcome X A) :
  extcall f ev w = (w', evs, o) ->
  exists a, f w = (w', a) /\ evs = [ev a] /\ o = Done a.
Proof.
  unfold extcall. destruct (f w) as [w1 a]. intros [= <- <- <-]. eauto.
Qed.

Lemma deref_inv {A} (p : option A) (w w' : W) (evs : list E)
    (o : outcome X A) :
  deref p w = (w', evs, o) ->
  w' = w /\ evs = [] /\
  o = match p with Some a => Done a | None => Panicked end.
Proof. destruct p; by intros [= <- <- <-]. Qed.

Lemma Emits_ret {A} P (a : A) : Emits P (@ret W E X A a).
Proof. intros w. constructor. Qed.

Lemma Emits_call {A} P (f : W -> W * A) : Emits P (@call W E X A f).
Proof. intros w. rewrite events_call. constructor. Qed.

Lemma Emits_bind {A B} P (m : M W E X A) (k : A -> M W E X B) :
  Emits P m -> (forall a, Emits P (k a)) -> Emits P (bind m k).
Proof.
  intros Hm Hk w. rewrite events_bind. apply Forall_app. split; [apply Hm|].
  destruct (outcomeOf m w); [apply Hk|constructor|constructor].
Qed.

Lemma Emits_bind_call {A B} P (f : W -> W * A) (k : A -> M W E X B) :
  (forall w, Emits P (k (f w).2)) -> Emits P (bind (call f) k).
Proof.
  intros Hk w. rewrite events_bind, events_call, outcome_call, world_call.
  apply Hk.
Qed.

Lemma Emits_forEach {A} P (xs : list A) (body : A -> M W E X unit) :
  (forall x, x ∈ xs -> Emits P (body x)) -> Emits P (forEach xs body).
Proof.
  induction xs as [|x xs IH]; intros Hb; simpl.
  - apply Emits_ret.
  - apply Emits_bind.
    + apply Hb. left.
    + intros _. apply IH. intros y Hy. apply Hb. by right.
Qed.

End Runs.

Section ErrorRuns.

Context {W E : Type}.

Lemma events_wrapping {A} (m : M W E Error A) msg w :
  eventsOf (wrapping m msg) w = eventsOf m w.
Proof.
  unfold eventsOf, wrapping. by destruct (m w) as [[? ?] [?|?|]].
Qed.

Lemma wrapping_inv {A} (m : M W E Error A) msg w w' evs o :
  wrapping m msg w = (w', evs, o) ->
  exists o', m w = (w', evs, o') /\
    o = match o' with
        | Failed e => Failed (ErrWrap e msg)
        | other => other
        end.
Proof.
  unfold wrapping. destruct (m w) as [[w1 evs1] [a|e|]];
    intros [= <- <- <-]; eauto.
Qed.

Lemma orWrap_inv {A} (r : result A) msg w w' evs (o : outcome Error A) :
  @orWrap W E A r msg w = (w', evs, o) ->
  w' = w /\ evs = [] /\
  o = match r with Ok a => Done a | Err e => Failed (ErrWrap e msg) end.
Proof. destruct r; by intros [= <- <- <-]. Qed.

End ErrorRuns.

(** Take the next step of a run apart. *)
Ltac run_step :=
  match goal with
  | H : ret _ _ = (_, _, _) |- _ => apply ret_inv in H as (? & ? & ?)
  | H : fail _ _ = (_, _, _) |- _ => apply fail_inv in H as (? & ? & ?)
  | H : panic _ = (_, _, _) |- _ => apply panic_inv in H as (? & ? & ?)
  | H : call _ _ = (_, _, _) |- _ => apply call_inv in H as (? & ? & ? & ?)
  | H : extcall _ _ _ = (_, _, _) |- _ =>
      apply extcall_inv in H as (? & ? & ? & ?)
  | H : deref ?p _ = (_, _, _) |- _ =>
      destruct p eqn:?; apply deref_inv in H as (? & ? & ?)
  | H : orWrap ?r _ _ = (_, _, _) |- _ =>
      destruct r; apply orWrap_inv in H as (? & ? & ?)
  | H : wrapping _ _ _ = (_, _, _) |- _ =>
      apply wrapping_inv in H as (? & ? & ?)
  | H : (match ?x with _ => _ end) _ = (_, _, _) |- _ => destruct x eqn:?
  | H : bind _ _ _ = (_, _, _) |- _ =>
      apply bind_inv in H
        as [(? & ? & ? & ? & ? & ? & ?)|[(? & ? & ?)|[? ?]]]
  end; simplify_eq/=.

(** ** Filtering task names *)

Section FilterFacts.

Context {Regexp : Type}.
Variable MatchString : Regexp -> string -> bool.

Lemma anyRegexMatch_existsb value (regexList : list Regexp) :
  anyRegexMatch MatchString value regexList =
  existsb (fun re => MatchString re value) regexList.
Proof.
  induction regexList as [|re rest IH]; simpl; [done|].
  rewrite IH. by destruct (MatchString re value).
Qed.

Lemma anyRegexMatch_true value (regexList : list Regexp) :
  anyRegexMatch MatchString value regexList = true <->
  exists re, In re regexList /\ MatchString re value = true.
Proof. rewrite anyRegexMatch_existsb. apply existsb_exists. Qed.

(** The loop appends the kept names to its accumulator. *)
Lemma filter_loop (tasksToIgnore : list Regexp) (taskList acc : list string) :
  fold_left
    (fun filteredTaskList task =>
       if negb (anyRegexMatch MatchString task tasksToIgnore)
       then filteredTaskList ++ [task]
       else filteredTaskList)
    taskList acc =
  acc ++ List.filter
           (fun t => negb (anyRegexMatch MatchString t tasksToIgnore)) taskList.
Proof.
  revert acc. induction taskList as [|t rest IH]; intros acc; simpl.
  - by rewrite app_nil_r.
  - rewrite IH.
    destruct (anyRegexMatch MatchString t tasksToIgnore); simpl; [done|].
    by rewrite <- app_assoc.
Qed.

Lemma filterIgnoredTasks_filter (taskList : list string) tasksToIgnore :
  filterIgnoredTasks MatchString taskList tasksToIgnore =
  List.filter (fun t => negb (anyRegexMatch MatchString t tasksToIgnore))
    taskList.
Proof. unfold filterIgnoredTasks. by rewrite filter_loop. Qed.

Lemma filterIgnoredTasks_existsb (taskList : list string) tasksToIgnore :
  filterIgnoredTasks MatchString taskList tasksToIgnore =
  List.filter
    (fun t => negb (existsb (fun re => MatchString re t) tasksToIgnore))
    taskList.
Proof.
  rewrite filterIgnoredTasks_filter. apply List.filter_ext.
  intros t. by rewrite anyRegexMatch_existsb.
Qed.

Lemma filterIgnoredTasks_app (xs ys : list string) tasksToIgnore :
  filterIgnoredTasks MatchString (xs ++ ys) tasksToIgnore =
  filterIgnoredTasks MatchString xs tasksToIgnore ++
  filterIgnoredTasks MatchString ys tasksToIgnore.
Proof. rewrite !filterIgnoredTasks_filter. apply List.filter_app. Qed.

Lemma filterIgnoredTasks_In t (taskList : list string) tasksToIgnore :
  In t (filterIgnoredTasks MatchString taskList tasksToIgnore) <->
  In t taskList /\ anyRegexMatch MatchString t tasksToIgnore = false.
Proof.
  rewrite filterIgnoredTasks_filter, List.filter_In.
  by destruct (anyRegexMatch MatchString t tasksToIgnore); simpl; intuition.
Qed.

Lemma filterIgnoredTasks_sublist (taskList : list string) tasksToIgnore :
  sublist (filterIgnoredTasks MatchString taskList tasksToIgnore) taskList.
Proof.
  rewrite filterIgnoredTasks_filter.
  induction taskList as [|t rest IH]; simpl; [constructor|].
  destruct (anyRegexMatch MatchString t tasksToIgnore); simpl;
    by constructor.
Qed.

Lemma filterIgnoredTasks_concat (ls : list (list string)) tasksToIgnore :
  filterIgnoredTasks MatchString (concat ls) tasksToIgnore =
  concat (map (fun l => filterIgnoredTasks MatchString l tasksToIgnore) ls).
Proof.
  induction ls as [|l ls IH]; simpl; [done|].
  by rewrite filterIgnoredTasks_app, IH.
Qed.

End FilterFacts.

(** ** The daily rollup *)

Lemma rollupStep_insert (rollup : dailyStatsRollup) (stat : stats.StatsToUpdate) :
  rollupStep rollup stat =
  <[stats.Day stat :=
      <[stats.Requester stat :=
          bucket rollup (stats.Day stat) (stats.Requester stat)
          ++ stats.Tasks stat]>
        (default ∅ (rollup !! stats.Day stat))]> rollup.
Proof.
  unfold rollupStep, bucket.
  destruct (rollup !! stats.Day stat) as [inner|] eqn:Hday; simpl.
  - rewrite Hday. simpl.
    destruct (inner !! stats.Requester stat) as [current|]; simpl;
      [by destruct current|done].
  - rewrite lookup_insert_eq. simpl. rewrite lookup_empty. simpl.
    by rewrite insert_insert_eq.
Qed.

Lemma bucket_rollupStep (rollup : dailyStatsRollup) stat day requester :
  bucket (rollupStep rollup stat) day requester =
  if decide (stats.Day stat = day /\ stats.Requester stat = requester)
  then bucket rollup day requester ++ stats.Tasks stat
  else bucket rollup day requester.
Proof.
  rewrite rollupStep_insert. unfold bucket at 1.
  destruct (decide (stats.Day stat = day)) as [<-|Hd].
  - rewrite lookup_insert_eq. simpl.
    destruct (decide (stats.Requester stat = requester)) as [<-|Hr].
    + rewrite lookup_insert_eq. simpl. by rewrite decide_True.
    + rewrite lookup_insert_ne by done. rewrite decide_False by tauto.
      unfold bucket. by destruct (rollup !! stats.Day stat).
  - rewrite lookup_insert_ne by done. by rewrite decide_False by tauto.
Qed.

Lemma bucket_fold (hourlyStats : list stats.StatsToUpdate)
    (rollup : dailyStatsRollup) day requester :
  bucket (fold_left rollupStep hourlyStats rollup) day requester =
  bucket rollup day requester ++
  concat (map stats.Tasks (List.filter (inBucket day requester) hourlyStats)).
Proof.
  revert rollup. induction hourlyStats as [|u rest IH]; intros rollup; simpl.
  - by rewrite app_nil_r.
  - rewrite IH, bucket_rollupStep. unfold inBucket at 2.
    destruct (decide _) as [Hk|Hk].
    + rewrite bool_decide_true by done. simpl. by rewrite <- app_assoc.
    + by rewrite bool_decide_false by done.
Qed.

Lemma bucket_buildDailyStatsRollup hourlyStats day requester :
  bucket (buildDailyStatsRollup hourlyStats) day requester =
  concat (map stats.Tasks (List.filter (inBucket day requester) hourlyStats)).
Proof.
  unfold buildDailyStatsRollup. rewrite bucket_fold.
  unfold bucket. by rewrite lookup_empty.
Qed.

Lemma hasKey_rollupStep (rollup : dailyStatsRollup) stat day requester :
  hasKey (rollupStep rollup stat) day requester <->
  hasKey rollup day requester \/
  (stats.Day stat = day /\ stats.Requester stat = requester).
Proof.
  rewrite rollupStep_insert. unfold hasKey.
  destruct (decide (stats.Day stat = day)) as [<-|Hd].
  - rewrite lookup_insert_eq. simpl.
    destruct (decide (stats.Requester stat = requester)) as [<-|Hr].
    + rewrite lookup_insert_eq. split; [by right|by eexists].
    + rewrite lookup_insert_ne by done.
      destruct (rollup !! stats.Day stat); simpl; [tauto|].
      rewrite lookup_empty. split; [by intros [??]|].
      intros [[? ?]|[_ ?]]; done.
  - rewrite lookup_insert_ne by done. tauto.
Qed.

Lemma hasKey_fold hourlyStats (rollup : dailyStatsRollup) day requester :
  hasKey (fold_left rollupStep hourlyStats rollup) day requester <->
  hasKey rollup day requester \/
  exists u, In u hourlyStats /\ stats.Day u = day /\
            stats.Requester u = requester.
Proof.
  revert rollup. induction hourlyStats as [|u rest IH]; intros rollup; simpl.
  - split; [by left|]. intros [?|(? & [] & _)]; done.
  - rewrite IH, hasKey_rollupStep. split.
    + intros [[?|?]|(u' & ? & ?)]; [by left|right; exists u; tauto|].
      right; exists u'; tauto.
    + intros [?|(u' & [<-|?] & ?)]; [tauto|tauto|].
      right; exists u'; tauto.
Qed.

Lemma hasKey_buildDailyStatsRollup hourlyStats day requester :
  hasKey (buildDailyStatsRollup hourlyStats) day requester <->
  exists u, In u hourlyStats /\ stats.Day u = day /\
            stats.Requester u = requester.
Proof.
  unfold buildDailyStatsRollup. rewrite hasKey_fold. unfold hasKey at 1.
  rewrite lookup_empty. simpl. split; [|by right].
  intros [[? ?]|?]; done.
Qed.

(** ** The dispatch of generator calls *)

Lemma genCalls_app evs1 evs2 :
  genCalls (evs1 ++ evs2) = genCalls evs1 ++ genCalls evs2.
Proof. apply omap_app. Qed.

Lemma genCalls_generate evs :
  Forall (fun ev => isGenerate ev = true) evs ->
  evs = map EvGenerate (genCalls evs).
Proof.
  induction 1 as [|ev evs Hev _ IH]; [done|].
  destruct ev; try discriminate. unfold genCalls in *. simpl. by f_equal.
Qed.

Lemma genCalls_In c evs : In c (genCalls evs) <-> In (EvGenerate c) evs.
Proof.
  induction evs as [|ev evs IH]; [done|].
  unfold genCalls in *. destruct ev; simpl; rewrite ?IH;
    try (split; [by right|by intros [?|?]]).
  split; (intros [?|?]; [left; congruence|by right]).
Qed.

Lemma nonempty_length {A} (l : list A) :
  (0 <? length l)%nat = negb (isNil l).
Proof. by destruct l. Qed.

Lemma runsThrough_failFast {A} expected evs (o : outcome Error A) :
  Forall callOk expected -> runsThrough expected evs o -> failFast evs o.
Proof.
  intros Hok. destruct o as [a|e|]; simpl; [by intros ->| |done].
  intros (pre & c & e0 & rest & Hevs & -> & Herr & ->).
  exists pre, c, e0. apply Forall_app in Hok as [Hpre _]. done.
Qed.

Section Dispatch.

Context {W : Type} `{GoRuntime W}.
Context {Regexp : Type}.
Variable MatchString : Regexp -> string -> bool.

Implicit Types (c : @cacheHistoricalJobContext Regexp).
Implicit Types (fn : @generateStatsFn W).

Lemma events_generate stage name fn p r t tasks jd msg (w : W) :
  eventsOf (generate stage name fn p r t tasks jd msg) w =
  [EvGenerate (mkGenCall stage name p r t tasks jd (fn p r t tasks jd w).2)].
Proof.
  unfold generate. rewrite events_bind, events_extcall, outcome_extcall.
  by destruct (errors_Wrap _ _).
Qed.

Lemma outcome_generate stage name fn p r t tasks jd msg (w : W) :
  outcomeOf (generate stage name fn p r t tasks jd msg) w =
  match (fn p r t tasks jd w).2 with
  | None => Done tt
  | Some e => Failed (ErrWrap e msg)
  end.
Proof.
  unfold generate. rewrite outcome_bind, outcome_extcall.
  by destruct (fn p r t tasks jd w).2.
Qed.

Lemma runsThrough_generate stage name fn p r t tasks jd (w : W) :
  runsThrough [mkGenCall stage name p r t tasks jd None]
    (eventsOf (generate stage name fn p r t tasks jd (stageMsg stage)) w)
    (outcomeOf (generate stage name fn p r t tasks jd (stageMsg stage)) w).
Proof.
  rewrite events_generate, outcome_generate.
  destruct (fn p r t tasks jd w).2 as [e|] eqn:Hfn; simpl; [|done].
  by eexists [], _, e, [].
Qed.

Lemma runsThrough_bind {A B} e1 e2 (m : M W JobEvent Error A)
    (k : A -> M W JobEvent Error B) w :
  runsThrough e1 (eventsOf m w) (outcomeOf m w) ->
  (forall a, outcomeOf m w = Done a ->
     runsThrough e2 (eventsOf (k a) (worldOf m w))
       (outcomeOf (k a) (worldOf m w))) ->
  runsThrough (e1 ++ e2) (eventsOf (bind m k) w) (outcomeOf (bind m k) w).
Proof.
  intros Hm Hk. rewrite events_bind, outcome_bind.
  destruct (outcomeOf m w) as [a|e|] eqn:Ho; simpl in *; [| |done].
  - specialize (Hk a eq_refl).
    destruct (outcomeOf (k a) (worldOf m w)) as [b|e|]; simpl in *;
      rewrite ?genCalls_app, ?Hm; [by rewrite Hk| |done].
    destruct Hk as (pre & c & e0 & rest & -> & -> & Herr & ->).
    exists (e1 ++ pre), c, e0, rest. by rewrite <- !app_assoc.
  - destruct Hm as (pre & c & e0 & rest & Hevs & -> & Herr & ->).
    exists pre, c, e0, (rest ++ e2).
    rewrite app_nil_r, <- app_assoc. done.
Qed.

Lemma failFast_bind {A B} (m : M W JobEvent Error A)
    (k : A -> M W JobEvent Error B) w :
  failFast (eventsOf m w) (outcomeOf m w) ->
  (forall a, outcomeOf m w = Done a ->
     failFast (eventsOf (k a) (worldOf m w)) (outcomeOf (k a) (worldOf m w))) ->
  failFast (eventsOf (bind m k) w) (outcomeOf (bind m k) w).
Proof.
  intros Hm Hk. rewrite events_bind, outcome_bind.
  destruct (outcomeOf m w) as [a|e|] eqn:Ho; simpl in *; [| |done].
  - specialize (Hk a eq_refl).
    destruct (outcomeOf (k a) (worldOf m w)) as [b|e|]; simpl in *;
      rewrite ?genCalls_app; [by apply Forall_app| |done].
    destruct Hk as (pre & c & e0 & -> & Hpre & Herr & ->).
    exists (genCalls (eventsOf m w) ++ pre), c, e0.
    rewrite <- app_assoc. split_and!; try done. by apply Forall_app.
  - by rewrite app_nil_r.
Qed.

Lemma FailFast_bind {A B} (m : M W JobEvent Error A)
    (k : A -> M W JobEvent Error B) :
  FailFast m -> (forall a, FailFast (k a)) -> FailFast (bind m k).
Proof. intros Hm Hk w. apply failFast_bind; [apply Hm|]. intros. apply Hk. Qed.

Lemma FailFast_ret {A} (a : A) : FailFast (@ret W JobEvent Error A a).
Proof. intros w. constructor. Qed.

Lemma FailFast_call {A} (f : W -> W * A) :
  FailFast (@call W JobEvent Error A f).
Proof. intros w. rewrite events_call, outcome_call. constructor. Qed.

Lemma FailFast_generate stage name fn p r t tasks jd :
  FailFast (generate stage name fn p r t tasks jd (stageMsg stage)).
Proof.
  intros w. eapply runsThrough_failFast; [|apply runsThrough_generate].
  by repeat constructor.
Qed.

Lemma FailFast_forEach {A} (xs : list A)
    (body : A -> M W JobEvent Error unit) :
  (forall x, FailFast (body x)) -> FailFast (forEach xs body).
Proof.
  intros Hb. induction xs as [|x xs IH]; simpl.
  - apply FailFast_ret.
  - apply FailFast_bind; [apply Hb|]. by intros _.
Qed.

Lemma FailFast_iteratorOverHourlyStats c stats fn name :
  FailFast (iteratorOverHourlyStats MatchString c stats fn name).
Proof.
  apply FailFast_forEach. intros stat. simpl.
  destruct (0 <? _)%nat; [apply (FailFast_generate Hourly)|apply FailFast_ret].
Qed.

Lemma FailFast_iteratorOverDailyStats c dailyStats fn name :
  FailFast (iteratorOverDailyStats MatchString c dailyStats fn name).
Proof.
  apply FailFast_bind; [apply FailFast_call|]. intros days.
  apply FailFast_forEach. intros [day stats].
  apply FailFast_bind; [apply FailFast_call|]. intros requesters.
  apply FailFast_forEach. intros [requester tasks]. simpl.
  destruct (0 <? _)%nat; [apply (FailFast_generate Daily)|apply FailFast_ret].
Qed.

Lemma FailFast_hourlyStage c statsToUpdate generateFns :
  FailFast (hourlyStage MatchString c statsToUpdate generateFns).
Proof.
  apply FailFast_bind; [apply FailFast_call|]. intros fns.
  apply FailFast_forEach. intros [name genFn].
  apply FailFast_iteratorOverHourlyStats.
Qed.

Lemma FailFast_dailyStage c statsToUpdate generateFns :
  FailFast (dailyStage MatchString c statsToUpdate generateFns).
Proof.
  apply FailFast_bind; [apply FailFast_call|]. intros fns.
  apply FailFast_forEach. intros [name genFn].
  apply FailFast_iteratorOverDailyStats.
Qed.

Lemma FailFast_updateHourlyAndDailyStats c statsToUpdate generateFns :
  FailFast (updateHourlyAndDailyStats MatchString c statsToUpdate generateFns).
Proof.
  apply FailFast_bind; [apply FailFast_hourlyStage|]. intros _.
  apply FailFast_dailyStage.
Qed.

(** *** The hourly stage works through the filtered units *)

Lemma hourlyCalls_cons jobTime tasksToIgnore u rest name :
  hourlyCalls MatchString jobTime tasksToIgnore (u :: rest) name =
  (let taskList :=
     filterIgnoredTasks MatchString (stats.Tasks u) tasksToIgnore in
   if (0 <? length taskList)%nat
   then [mkGenCall Hourly name (stats.ProjectId u) (stats.Requester u)
           (stats.Hour u) taskList jobTime None]
   else [])
  ++ hourlyCalls MatchString jobTime tasksToIgnore rest name.
Proof.
  unfold hourlyCalls, spec_Filter. simpl.
  rewrite nonempty_length, filterIgnoredTasks_existsb.
  by destruct (negb (isNil _)).
Qed.

Lemma runsThrough_iteratorOverHourlyStats c stats fn name w :
  runsThrough (hourlyCalls MatchString (JobTime c) (TasksToIgnore c) stats name)
    (eventsOf (iteratorOverHourlyStats MatchString c stats fn name) w)
    (outcomeOf (iteratorOverHourlyStats MatchString c stats fn name) w).
Proof.
  revert w. induction stats as [|u rest IH]; intros w; [done|].
  rewrite hourlyCalls_cons. unfold iteratorOverHourlyStats. simpl forEach.
  apply runsThrough_bind; [|intros _ _; apply IH].
  simpl. destruct (0 <? _)%nat; [|done].
  apply (runsThrough_generate Hourly).
Qed.

Lemma runsThrough_hourlyStage c statsToUpdate generateFns w :
  runsThrough
    (hourlyStageCalls MatchString (JobTime c) (TasksToIgnore c) statsToUpdate
       (map_range (HourlyFns generateFns) w).2.*1)
    (eventsOf (hourlyStage MatchString c statsToUpdate generateFns) w)
    (outcomeOf (hourlyStage MatchString c statsToUpdate generateFns) w).
Proof.
  unfold hourlyStage.
  change (hourlyStageCalls MatchString ?j ?i ?s ?n) with
    ([] ++ hourlyStageCalls MatchString j i s n).
  apply runsThrough_bind.
  { rewrite events_call, outcome_call. done. }
  intros fns Hfns. rewrite outcome_call in Hfns. injection Hfns as <-.
  generalize (worldOf (call (E:=JobEvent) (X:=Error)
                         (map_range (HourlyFns generateFns))) w).
  induction ((map_range (HourlyFns generateFns) w).2) as [|[name genFn] fns IH];
    intros w1; [done|].
  simpl. apply runsThrough_bind; [|intros _ _; apply IH].
  apply runsThrough_iteratorOverHourlyStats.
Qed.

(** *** What each call is given *)

Lemma Emits_generate (P : JobEvent -> Prop) stage name fn p r t tasks jd msg :
  (forall err, P (EvGenerate (mkGenCall stage name p r t tasks jd err))) ->
  Emits P (generate (W:=W) stage name fn p r t tasks jd msg).
Proof. intros HP w. rewrite events_generate. by repeat constructor. Qed.

Lemma Emits_iteratorOverHourlyStats c stats fn name :
  Emits (hourlyEvent MatchString (JobTime c) (TasksToIgnore c) stats)
    (iteratorOverHourlyStats MatchString c stats fn name).
Proof.
  apply Emits_forEach. intros stat Hstat. simpl.
  destruct (0 <? _)%nat eqn:Hlen; [|apply Emits_ret].
  apply Emits_generate. intros err. eexists _, stat. split; [done|].
  simpl. split_and!; try done.
  - by apply list_elem_of_In.
  - intros Hnil. by rewrite Hnil in Hlen.
Qed.

Lemma Emits_hourlyStage c statsToUpdate generateFns :
  Emits (hourlyEvent MatchString (JobTime c) (TasksToIgnore c) statsToUpdate)
    (hourlyStage MatchString c statsToUpdate generateFns).
Proof.
  apply Emits_bind; [apply Emits_call|]. intros fns.
  apply Emits_forEach. intros [name genFn] _.
  apply Emits_iteratorOverHourlyStats.
Qed.

Lemma Emits_iteratorOverDailyStats c (dailyStats : dailyStatsRollup) fn name :
  Emits (dailyEvent MatchString (ProjectId c) (JobTime c) (TasksToIgnore c)
           dailyStats)
    (iteratorOverDailyStats MatchString c dailyStats fn name).
Proof.
  apply Emits_bind_call. intros w.
  apply Emits_forEach. intros [day stats] Hday.
  apply Emits_bind_call. intros w1.
  apply Emits_forEach. intros [requester tasks] Hreq. simpl.
  destruct (0 <? _)%nat eqn:Hlen; [|apply Emits_ret].
  apply Emits_generate. intros err. eexists. split; [done|]. simpl.
  rewrite (map_range_perm _ _ dailyStats w) in Hday.
  rewrite (map_range_perm _ _ stats w1) in Hreq.
  apply elem_of_map_to_list in Hday, Hreq.
  assert (bucket dailyStats day requester = tasks) as Hb.
  { unfold bucket. rewrite Hday. simpl. by rewrite Hreq. }
  split_and!; try done.
  - unfold hasKey. rewrite Hday. simpl. by rewrite Hreq.
  - by rewrite Hb.
  - intros Hnil. by rewrite Hnil in Hlen.
Qed.

Lemma Emits_dailyStage c statsToUpdate generateFns :
  Emits (dailyEvent MatchString (ProjectId c) (JobTime c) (TasksToIgnore c)
           (buildDailyStatsRollup statsToUpdate))
    (dailyStage MatchString c statsToUpdate generateFns).
Proof.
  apply Emits_bind; [apply Emits_call|]. intros fns.
  apply Emits_forEach. intros [name genFn] _.
  apply Emits_iteratorOverDailyStats.
Qed.

(** The trace of the dispatch is the trace of the hourly stage followed,
    when that stage ends normally, by the trace of the daily stage. *)
Lemma events_updateHourlyAndDailyStats c statsToUpdate generateFns w :
  let hourly := hourlyStage MatchString c statsToUpdate generateFns in
  let daily := dailyStage MatchString c statsToUpdate generateFns in
  eventsOf (updateHourlyAndDailyStats MatchString c statsToUpdate generateFns) w
  = eventsOf hourly w ++
    match outcomeOf hourly w with
    | Done _ => eventsOf daily (worldOf hourly w)
    | _ => []
    end.
Proof. apply events_bind. Qed.

End Dispatch.

(** ** Filtering before or after the rollup *)

Section FilterRollup.

Context {Regexp : Type}.
Variable MatchString : Regexp -> string -> bool.

Lemma bucket_filtered_units (tasksToIgnore : list Regexp) units day requester :
  bucket (buildDailyStatsRollup (map (filterUnit MatchString tasksToIgnore) units))
    day requester =
  filterIgnoredTasks MatchString
    (bucket (buildDailyStatsRollup units) day requester) tasksToIgnore.
Proof.
  rewrite !bucket_buildDailyStatsRollup, filterIgnoredTasks_concat.
  induction units as [|u rest IH]; [done|].
  cbn [map List.filter].
  change (inBucket day requester (filterUnit MatchString tasksToIgnore u))
    with (inBucket day requester u).
  destruct (inBucket day requester u); [|done].
  cbn [map concat]. rewrite IH, filterIgnoredTasks_existsb. done.
Qed.

Lemma bucket_drop_empty units day requester :
  bucket (buildDailyStatsRollup
            (List.filter (fun u => negb (isNil (stats.Tasks u))) units))
    day requester =
  bucket (buildDailyStatsRollup units) day requester.
Proof.
  rewrite !bucket_buildDailyStatsRollup.
  induction units as [|u rest IH]; simpl; [done|].
  destruct (stats.Tasks u) as [|t ts] eqn:Htasks; simpl.
  - rewrite IH. destruct (inBucket day requester u); simpl; [|done].
    by rewrite Htasks.
  - destruct (inBucket day requester u); simpl; [|done]. by rewrite IH.
Qed.

Lemma bucket_spec_Filter (tasksToIgnore : list Regexp) units day requester :
  bucket (buildDailyStatsRollup (spec_Filter MatchString tasksToIgnore units))
    day requester =
  filterIgnoredTasks MatchString
    (bucket (buildDailyStatsRollup units) day requester) tasksToIgnore.
Proof.
  unfold spec_Filter. by rewrite bucket_drop_empty, bucket_filtered_units.
Qed.

End FilterRollup.

(** ** Consequences of the fail-fast shape *)

Lemma Forall_genCalls (P : JobEvent -> Prop) (Q : GenCall -> Prop) evs :
  (forall c, P (EvGenerate c) -> Q c) ->
  Forall P evs -> Forall Q (genCalls evs).
Proof.
  intros HPQ. induction 1 as [|ev evs Hev _ IH]; [constructor|].
  unfold genCalls in *. destruct ev; simpl; auto.
Qed.

Lemma failFast_failure_last {A} evs (o : outcome Error A) i ci :
  failFast evs o ->
  genCalls evs !! i = Some ci -> gc_err ci <> None ->
  S i = length (genCalls evs) /\
  exists e0, gc_err ci = Some e0 /\
             o = Failed (ErrWrap e0 (stageMsg (gc_stage ci))).
Proof.
  intros Hff Hi Herr. destruct o as [a|e|]; simpl in Hff; [| |done].
  - exfalso. apply Herr.
    by apply (proj1 (Forall_lookup _ _) Hff i ci).
  - destruct Hff as (pre & c & e0 & Hcalls & Hpre & Hc & ->).
    rewrite Hcalls in *. rewrite length_app. simpl.
    destruct (decide (i < length pre)%nat) as [Hlt|Hge].
    + rewrite lookup_app_l in Hi by done. exfalso. apply Herr.
      by apply (proj1 (Forall_lookup _ _) Hpre i ci).
    + rewrite lookup_app_r in Hi by lia.
      destruct (i - length pre)%nat as [|n] eqn:Hn; simpl in Hi; [|done].
      injection Hi as <-. split; [lia|]. by exists e0.
Qed.

Lemma failFast_done evs (o : outcome Error unit) :
  failFast evs o -> (o = Done tt <-> Forall callOk (genCalls evs)).
Proof.
  intros Hff. destruct o as [[]|e|]; simpl in Hff; [done| |done].
  split; [done|]. intros Hall.
  destruct Hff as (pre & c & e0 & Hcalls & _ & Hc & _).
  rewrite Hcalls in Hall. apply Forall_app in Hall as [_ Hlast].
  apply Forall_inv in Hlast. unfold callOk in Hlast. congruence.
Qed.

Section DispatchOrder.

Context {W : Type} `{GoRuntime W}.
Context {Regexp : Type}.
Variable MatchString : Regexp -> string -> bool.

Lemma dispatch_only_generates (c : @cacheHistoricalJobContext Regexp) units
    (fns : @generateFunctions W) (w : W) :
  Forall (fun ev => isGenerate ev = true)
    (eventsOf (updateHourlyAndDailyStats MatchString c units fns) w).
Proof.
  rewrite events_updateHourlyAndDailyStats. apply Forall_app. split.
  - eapply Forall_impl; [apply Emits_hourlyStage|].
    by intros ev (c' & u & -> & _).
  - destruct (outcomeOf (hourlyStage _ _ _ _) w); [|constructor..].
    eapply Forall_impl; [apply Emits_dailyStage|].
    by intros ev (c' & -> & _).
Qed.

Lemma dispatch_tasks_nonempty (c : @cacheHistoricalJobContext Regexp) units
    (fns : @generateFunctions W) (w : W) :
  Forall (fun cl => gc_tasks cl <> [])
    (genCalls (eventsOf (updateHourlyAndDailyStats MatchString c units fns) w)).
Proof.
  rewrite events_updateHourlyAndDailyStats, genCalls_app.
  apply Forall_app. split.
  - eapply Forall_genCalls; [|apply Emits_hourlyStage].
    intros cl (c' & u & [= <-] & Hc). tauto.
  - destruct (outcomeOf (hourlyStage _ _ _ _) w); [|constructor..].
    eapply Forall_genCalls; [|apply Emits_dailyStage].
    intros cl (c' & [= <-] & Hc). tauto.
Qed.

(** The calls of a dispatch split into the hourly calls followed by the
    daily calls; the daily part is empty unless the hourly stage went
    through all of its calls. *)
Lemma dispatch_split (c : @cacheHistoricalJobContext Regexp) units
    (fns : @generateFunctions W) (w : W) :
  let hourly := hourlyStage MatchString c units fns in
  let daily := dailyStage MatchString c units fns in
  exists hs ds,
    genCalls (eventsOf (updateHourlyAndDailyStats MatchString c units fns) w)
      = hs ++ ds /\
    hs = genCalls (eventsOf hourly w) /\
    Forall (fun cl => gc_stage cl = Hourly) hs /\
    Forall (fun cl => gc_stage cl = Daily) ds /\
    (ds <> [] ->
     hs = hourlyStageCalls MatchString (JobTime c) (TasksToIgnore c) units
            (map_range (HourlyFns fns) w).2.*1).
Proof.
  intros hourly daily.
  exists (genCalls (eventsOf hourly w)),
    (genCalls match outcomeOf hourly w with
              | Done _ => eventsOf daily (worldOf hourly w)
              | _ => []
              end).
  split_and!.
  - by rewrite events_updateHourlyAndDailyStats, genCalls_app.
  - done.
  - eapply Forall_genCalls; [|apply Emits_hourlyStage].
    intros cl (c' & u & [= <-] & Hstage & _). done.
  - destruct (outcomeOf hourly w); [|constructor..].
    eapply Forall_genCalls; [|apply Emits_dailyStage].
    intros cl (c' & [= <-] & Hstage & _). done.
  - pose proof (runsThrough_hourlyStage MatchString c units fns w) as Hrun.
    fold hourly in Hrun.
    destruct (outcomeOf hourly w); simpl in *; done.
Qed.

End DispatchOrder.

(** ** The ways through [Run] *)

Lemma syncTarget_min now previousSyncTime :
  syncTarget now previousSyncTime =
  Z.min now (previousSyncTime + maxSyncDuration).
Proof.
  unfold syncTarget, Time_After, Time_Add. case_bool_decide; lia.
Qed.

Section RunFacts.

Context {W : Type} `{GoRuntime W}.
Context {Regexp : Type}.
Variable regexp_Compile : string -> result Regexp.
Variable MatchString : Regexp -> string -> bool.
Variable env : @JobEnv W.

Lemma run_findTargetTimeForSync previousSyncTime (w : W) :
  findTargetTimeForSync previousSyncTime w =
  ((time_Now w).1, [], Done (syncTarget (time_Now w).2 previousSyncTime)).
Proof.
  unfold findTargetTimeForSync, bind, call, syncTarget.
  destruct (time_Now w) as [w1 now]. simpl.
  by destruct (Time_After _ _).
Qed.

Ltac job_step :=
  match goal with
  | H : findTargetTimeForSync _ _ = (_, _, _) |- _ =>
      rewrite run_findTargetTimeForSync in H; simplify_eq/=
  end.

Lemma Run_path_of p (w w' : W) evs o :
  Run regexp_Compile MatchString env p w = (w', evs, o) ->
  RunPath regexp_Compile MatchString env p w evs o.
Proof.
  intros Hrun. unfold Run in Hrun.
  unfold getTasksToIgnore in Hrun.
  repeat (run_step || job_step);
    try (by econstructor; eauto);
    try match goal with
    | Hd : updateHourlyAndDailyStats _ ?c ?units ?fns ?w5 = (_, _, ?o') |- _ =>
        pose proof (FailFast_updateHourlyAndDailyStats MatchString
                      c units fns w5) as Hff;
        apply run_parts in Hd as (-> & -> & Ho');
        rewrite <- Ho' in Hff; destruct o' as [[]|e'|]; simplify_eq/=
    end.
  - eapply (path_update _ _ _ _ _ _ _ _ _ _ _ _ _ _ (Some _)); eauto.
    econstructor; eauto using surjective_pairing.
  - eapply (path_update _ _ _ _ _ _ _ _ _ _ _ _ _ _ None); eauto.
    econstructor; eauto using surjective_pairing.
  - eapply path_generator_error; eauto.
    econstructor; eauto using surjective_pairing.
  - by destruct Hff.
  - eapply path_fetch_error; eauto.
    econstructor; eauto using surjective_pairing.
Qed.

Lemma Run_path p (w : W) :
  RunPath regexp_Compile MatchString env p w
    (eventsOf (Run regexp_Compile MatchString env p) w)
    (outcomeOf (Run regexp_Compile MatchString env p) w).
Proof. eapply Run_path_of, run_eta. Qed.

(** The generator calls of [Run] are those of its dispatch, if it gets
    that far. *)
Lemma Run_genCalls p (w : W) :
  genCalls (eventsOf (Run regexp_Compile MatchString env p) w) = [] \/
  exists jobTime res units w5,
    genCalls (eventsOf (Run regexp_Compile MatchString env p) w) =
    genCalls (eventsOf
                (updateHourlyAndDailyStats MatchString
                   (mkJobContext p jobTime res) units (generateMap env)) w5).
Proof.
  generalize (Run_path p w).
  generalize (eventsOf (Run regexp_Compile MatchString env p) w)
             (outcomeOf (Run regexp_Compile MatchString env p) w).
  intros evs o Hp. destruct Hp; try (by left); right.
  - exists jobTime, res, units, w5. subst dispatch. done.
  - exists jobTime, res, units, w5. subst dispatch.
    unfold genCalls. simpl. rewrite omap_app. simpl. by rewrite app_nil_r.
Qed.

Lemma generate_not_update evs :
  Forall (fun ev => isGenerate ev = true) evs -> ~ updateCalled evs.
Proof.
  intros Hgen (q & jt & to & err & Hin).
  by apply (proj1 (List.Forall_forall _ _) Hgen) in Hin.
Qed.

Lemma updateCalled_app evs1 evs2 :
  updateCalled (evs1 ++ evs2) <-> updateCalled evs1 \/ updateCalled evs2.
Proof.
  unfold updateCalled. setoid_rewrite in_app_iff. naive_solver.
Qed.

(** The checkpoint update is called exactly on the one path on which the
    patterns compiled, the units were fetched and every generator call
    returned nil. *)
Lemma Run_update_iff p (w : W) :
  let evs := eventsOf (Run regexp_Compile MatchString env p) w in
  updateCalled evs <->
  patternsCompiled regexp_Compile evs /\ unitsFetched evs /\
  generatorsSucceeded evs.
Proof.
  intros evs. subst evs.
  generalize (Run_path p w).
  generalize (eventsOf (Run regexp_Compile MatchString env p) w)
             (outcomeOf (Run regexp_Compile MatchString env p) w).
  intros evs o Hp.
  destruct Hp;
    try (split;
         [ intros (? & ? & ? & ? & Hin); simpl in Hin; naive_solver
         | intros ((? & ? & ? & Hin & ?) & (? & ? & ? & ? & Hin') & ?);
           simpl in *; naive_solver ]).
  - subst dispatch.
    pose proof (FailFast_updateHourlyAndDailyStats MatchString
                  (mkJobContext p jobTime res) units (generateMap env) w5)
      as Hff.
    rewrite Hout in Hff. destruct Hff as (pre & c & e0 & Hcalls & _ & Hc & _).
    split.
    + intros [Hup|Hup]%updateCalled_app.
      * destruct Hup as (? & ? & ? & ? & Hin). simpl in Hin. naive_solver.
      * exfalso. eapply generate_not_update; [|exact Hup].
        apply dispatch_only_generates.
    + intros (_ & _ & Hok). exfalso. unfold generatorsSucceeded in Hok.
      rewrite genCalls_app, Hcalls in Hok. simpl in Hok.
      apply Forall_app in Hok as [_ Hok]. apply Forall_inv in Hok.
      unfold callOk in Hok. congruence.
  - subst dispatch.
    pose proof (FailFast_updateHourlyAndDailyStats MatchString
                  (mkJobContext p jobTime res) units (generateMap env) w5)
      as Hff.
    rewrite Hout in Hff. simpl in Hff.
    split; [intros _|intros _].
    + split_and!.
      * exists p, ref, res. split; [simpl; tauto|]. by destruct Hprep.
      * exists p, from, to, units. simpl. tauto.
      * unfold generatorsSucceeded. rewrite !genCalls_app. simpl.
        by rewrite app_nil_r.
    + exists p, jobTime, to, err. rewrite !in_app_iff. simpl. tauto.
Qed.

Lemma not_in_dispatch ev (c : @cacheHistoricalJobContext Regexp) units
    (fns : @generateFunctions W) (w5 : W) :
  isGenerate ev = false ->
  ~ In ev (eventsOf (updateHourlyAndDailyStats MatchString c units fns) w5).
Proof.
  intros Hev Hin.
  pose proof (dispatch_only_generates MatchString c units fns w5) as Hgen.
  apply (proj1 (List.Forall_forall _ _) Hgen) in Hin. congruence.
Qed.

Lemma Prepares_clock p (w : W) st ref res jobTime now w4 :
  Prepares regexp_Compile env p w st ref res jobTime now w4 ->
  exists w3, now = (time_Now w3).2.
Proof. intros []. exists w3. by rewrite Hnow. Qed.

Lemma Prepares_compiled p (w : W) st ref res jobTime now w4 :
  Prepares regexp_Compile env p w st ref res jobTime now w4 ->
  createRegexpFromStrings regexp_Compile (model.FilesIgnoredFromCache ref)
    = Ok res.
Proof. by intros []. Qed.

(** Every window [Run] asks the stats source for starts at the loaded
    checkpoint and ends at the sync target for a reading of the clock. *)
Lemma Run_fetch_window p (w : W) q lower upper r :
  In (EvFindStatsToUpdate q lower upper r)
    (eventsOf (Run regexp_Compile MatchString env p) w) ->
  exists st w3,
    In (EvGetStatsStatus p (Ok st))
      (eventsOf (Run regexp_Compile MatchString env p) w) /\
    q = p /\ lower = stats.ProcessedTasksUntil st /\
    upper = syncTarget (time_Now w3).2 lower.
Proof.
  generalize (Run_path p w).
  generalize (eventsOf (Run regexp_Compile MatchString env p) w)
             (outcomeOf (Run regexp_Compile MatchString env p) w).
  intros evs o Hp Hin.
  destruct Hp; try (simpl in Hin; naive_solver);
    destruct (Prepares_clock _ _ _ _ _ _ _ _ Hprep) as [w3 Hnow];
    exists st, w3; (split; [simpl; tauto|]);
    rewrite ?in_app_iff in Hin; simpl in Hin.
  - destruct Hin as [|[|[[= <- <- <- <-]|[]]]]; try done.
    by rewrite <- Hnow.
  - destruct Hin as [[|[|[[= <- <- <- <-]|[]]]]|Hin]; try done.
    + by rewrite <- Hnow.
    + by apply not_in_dispatch in Hin.
  - destruct Hin as [[|[|[[= <- <- <- <-]|[]]]]|[Hin|[|[]]]]; try done.
    + by rewrite <- Hnow.
    + by apply not_in_dispatch in Hin.
Qed.

(** What the checkpoint update is given, and where it stands in the trace. *)
Lemma Run_update_last p (w : W) q jt target uerr :
  In (EvUpdateStatsStatus q jt target uerr)
    (eventsOf (Run regexp_Compile MatchString env p) w) ->
  exists st w3 units pre,
    eventsOf (Run regexp_Compile MatchString env p) w =
      pre ++ [EvUpdateStatsStatus q jt target uerr] /\
    ~ updateCalled pre /\
    q = p /\
    In (EvGetStatsStatus p (Ok st)) pre /\
    In (EvFindStatsToUpdate p (stats.ProcessedTasksUntil st) target (Ok units))
      pre /\
    target = syncTarget (time_Now w3).2 (stats.ProcessedTasksUntil st) /\
    outcomeOf (Run regexp_Compile MatchString env p) w =
      match uerr with
      | None => Done tt
      | Some e => Failed (ErrWrap e "error updating last synced date")
      end.
Proof.
  generalize (Run_path p w).
  generalize (eventsOf (Run regexp_Compile MatchString env p) w)
             (outcomeOf (Run regexp_Compile MatchString env p) w).
  intros evs o Hp Hin.
  destruct Hp; try (simpl in Hin; naive_solver).
  - rewrite in_app_iff in Hin. simpl in Hin.
    destruct Hin as [[|[|[|[]]]]|Hin]; try done.
    by apply not_in_dispatch in Hin.
  - rewrite !in_app_iff in Hin. simpl in Hin.
    destruct Hin as [[|[|[|[]]]]|[Hin|[[= <- <- <- <-]|[]]]]; try done.
    { by apply not_in_dispatch in Hin. }
    destruct (Prepares_clock _ _ _ _ _ _ _ _ Hprep) as [w3 Hnow].
    exists st, w3, units,
      ([EvGetStatsStatus p (Ok st); EvFindOneProjectRef p (Ok (Some ref));
        EvFindStatsToUpdate p from to (Ok units)] ++ eventsOf dispatch w5).
    split_and!; try done.
    + intros [Hup|Hup]%updateCalled_app.
      * destruct Hup as (? & ? & ? & ? & Hup). simpl in Hup. naive_solver.
      * eapply generate_not_update; [|exact Hup].
        apply dispatch_only_generates.
    + simpl. tauto.
    + simpl. tauto.
    + by rewrite <- Hnow.
Qed.

(** A pattern list the compiler rejects ends [Run] before the fetch. *)
Lemma Run_compile_error p (w : W) q ref e :
  In (EvFindOneProjectRef q (Ok (Some ref)))
    (eventsOf (Run regexp_Compile MatchString env p) w) ->
  createRegexpFromStrings regexp_Compile (model.FilesIgnoredFromCache ref)
    = Err e ->
  exists st,
    eventsOf (Run regexp_Compile MatchString env p) w =
      [EvGetStatsStatus p (Ok st); EvFindOneProjectRef p (Ok (Some ref))] /\
    outcomeOf (Run regexp_Compile MatchString env p) w =
      Failed (ErrWrap e "error retrieving project settings").
Proof.
  generalize (Run_path p w).
  generalize (eventsOf (Run regexp_Compile MatchString env p) w)
             (outcomeOf (Run regexp_Compile MatchString env p) w).
  intros evs o Hp Hin Herr.
  destruct Hp; try (simpl in Hin; naive_solver);
    rewrite ?in_app_iff in Hin; simpl in Hin;
    [ exists st; destruct Hin as [|[[= <- <-]|[]]]; [done|];
      split; [done|congruence]
    | exfalso; pose proof (Prepares_compiled _ _ _ _ _ _ _ _ Hprep) as Hok;
      repeat (destruct Hin as [Hin|Hin]); try done;
      try (injection Hin as <- <-; congruence);
      by apply not_in_dispatch in Hin .. ].
Qed.

End RunFacts.

(** ** Trimming and compiling the ignore patterns *)

Lemma append_nil_r (s : string) : s +:+ "" = s.
Proof. induction s as [|a s IH]; [done|]. unfold String.app in *. simpl. by f_equal. Qed.

Lemma append_assoc (s t u : string) : (s +:+ t) +:+ u = s +:+ (t +:+ u).
Proof.
  induction s as [|a s IH]; [done|]. unfold String.app in *. simpl. by f_equal.
Qed.

Lemma rev_app_append (s t : string) :
  String.rev_app s t = String.rev s +:+ t.
Proof.
  revert t. induction s as [|a s IH]; intros t; [done|].
  unfold String.rev. simpl. rewrite (IH (String a "")), IH.
  by rewrite append_assoc.
Qed.

Lemma rev_cons a (s : string) :
  String.rev (String a s) = String.rev s +:+ String a "".
Proof. unfold String.rev at 1. simpl. apply rev_app_append. Qed.

Lemma rev_append (s t : string) :
  String.rev (s +:+ t) = String.rev t +:+ String.rev s.
Proof.
  induction s as [|a s IH].
  - by rewrite append_nil_r.
  - change (String a s +:+ t) with (String a (s +:+ t)).
    by rewrite !rev_cons, IH, append_assoc.
Qed.

Lemma rev_involutive (s : string) : String.rev (String.rev s) = s.
Proof.
  induction s as [|a s IH]; [done|]. by rewrite rev_cons, rev_append, IH.
Qed.

Lemma spaces_snoc n : spaces n +:+ " " = String " " (spaces n).
Proof.
  induction n as [|n IH]; [done|]. simpl.
  change (String " " (spaces n) +:+ " ") with (String " " (spaces n +:+ " ")).
  by rewrite IH.
Qed.

Lemma rev_spaces n : String.rev (spaces n) = spaces n.
Proof.
  induction n as [|n IH]; [done|]. simpl.
  by rewrite rev_cons, IH, spaces_snoc.
Qed.

Lemma firstChar_append (s t : string) :
  s <> "" -> firstChar (s +:+ t) = firstChar s.
Proof. by destruct s. Qed.

Lemma strings_TrimLeft_spec (s : string) :
  exists n,
    s = spaces n +:+ strings_TrimLeft s " " /\
    firstChar (strings_TrimLeft s " ") <> Some " "%char.
Proof.
  induction s as [|a s (n & Hs & Hfirst)]; [by exists O|].
  simpl. destruct (Ascii.eqb_spec a " ") as [->|Hne].
  - exists (S n). split; [|done]. simpl.
    change (String " " (spaces n) +:+ ?t) with (String " " (spaces n +:+ t)).
    by f_equal.
  - exists O. split; [done|]. simpl. congruence.
Qed.

(** [strings.Trim(s, " ")] removes the spaces around [s], and nothing
    else. *)
Lemma strings_Trim_spec (s : string) :
  exists n m,
    s = spaces n +:+ strings_Trim s " " +:+ spaces m /\
    firstChar (strings_Trim s " ") <> Some " "%char /\
    lastChar (strings_Trim s " ") <> Some " "%char.
Proof.
  unfold strings_Trim, strings_TrimRight.
  destruct (strings_TrimLeft_spec (String.rev s)) as (m & Hrev & Hfirst1).
  set (t1 := strings_TrimLeft (String.rev s) " ") in *.
  destruct (strings_TrimLeft_spec (String.rev t1)) as (n & Ht1 & Hfirst2).
  set (t2 := strings_TrimLeft (String.rev t1) " ") in *.
  exists n, m. split_and!; [|done|].
  - rewrite <- append_assoc, <- Ht1.
    by rewrite <- (rev_involutive s), Hrev, rev_append, rev_spaces.
  - unfold lastChar.
    assert (t1 = String.rev t2 +:+ spaces n) as Heq.
    { by rewrite <- (rev_involutive t1), Ht1, rev_append, rev_spaces. }
    destruct (String.rev t2) as [|a r] eqn:Hr; [done|].
    rewrite Heq in Hfirst1. done.
Qed.

Lemma strings_Trim_spaces_only (s : string) :
  strings_Trim s " " = "" <-> exists n, s = spaces n.
Proof.
  split.
  - intros Hempty. destruct (strings_Trim_spec s) as (n & m & Hs & _).
    rewrite Hempty in Hs. exists (n + m)%nat. rewrite Hs. clear.
    induction n as [|n IH]; [done|]. simpl. rewrite <- IH. done.
  - intros [n ->]. unfold strings_Trim, strings_TrimRight.
    rewrite rev_spaces.
    assert (forall k, strings_TrimLeft (spaces k) " " = "") as Hleft.
    { intros k. induction k as [|k IH]; [done|]. simpl. done. }
    by rewrite Hleft.
Qed.

Section CompileFacts.

Context {Regexp : Type}.
Variable regexp_Compile : string -> result Regexp.

Lemma createRegexpLoop_spec (filePatterns : list string)
    (tasksToIgnore : list Regexp) :
  createRegexpLoop regexp_Compile filePatterns tasksToIgnore =
  match spec_Compile regexp_Compile " " filePatterns with
  | Ok res => Ok (tasksToIgnore ++ res)
  | Err e => Err e
  end.
Proof.
  revert tasksToIgnore.
  induction filePatterns as [|p rest IH]; intros acc; simpl.
  - by rewrite app_nil_r.
  - unfold spec_Compile in *. simpl.
    destruct (String.eqb_spec (strings_Trim p " ") "") as [Hempty|Hne]; simpl.
    + rewrite bool_decide_false by (by intros ?). apply IH.
    + rewrite bool_decide_true by done.
      destruct (regexp_Compile (strings_Trim p " ")) as [re|e]; [|done].
      rewrite IH. destruct (compileAll _ _); [|done].
      by rewrite <- app_assoc.
Qed.

(** The function compiles the trimmed, non-empty patterns in order and
    stops at the first one the compiler rejects. *)
Lemma createRegexpFromStrings_spec (filePatterns : list string) :
  createRegexpFromStrings regexp_Compile filePatterns =
  spec_Compile regexp_Compile " " filePatterns.
Proof.
  unfold createRegexpFromStrings. rewrite createRegexpLoop_spec.
  by destruct (spec_Compile _ _ _).
Qed.

Lemma compileAll_Ok (patterns : list string) (res : list Regexp) :
  compileAll regexp_Compile patterns = Ok res <->
  Forall2 (fun p re => regexp_Compile p = Ok re) patterns res.
Proof.
  revert res. induction patterns as [|p rest IH]; intros res; simpl.
  - split; [intros [= <-]; constructor|by inversion 1].
  - destruct (regexp_Compile p) as [re|e] eqn:Hp; cycle 1.
    { split; [done|]. inversion 1; congruence. }
    destruct (compileAll regexp_Compile rest) as [res'|e]; split.
    + intros [= <-]. constructor; [done|]. by apply IH.
    + inversion 1 as [|? re' ? res'' Hre Hrest]; simplify_eq.
      apply IH in Hrest. congruence.
    + done.
    + inversion 1 as [|? re' ? res'' Hre Hrest]; simplify_eq.
      by apply IH in Hrest.
Qed.

Lemma compileAll_Err (patterns : list string) (e : Error) :
  compileAll regexp_Compile patterns = Err e <->
  exists pre p rest e0,
    patterns = pre ++ p :: rest /\
    Forall (fun q => exists re, regexp_Compile q = Ok re) pre /\
    regexp_Compile p = Err e0 /\
    e = ErrWrap e0 "Could not compile regexp".
Proof.
  induction patterns as [|p rest IH]; simpl.
  - split; [done|]. intros (pre & ? & ? & ? & Hnil & _). by destruct pre.
  - destruct (regexp_Compile p) as [re|e1] eqn:Hp; cycle 1.
    { split.
      - intros [= <-]. by exists [], p, rest, e1.
      - intros (pre & q & rest' & e0 & Heq & Hpre & Hq & ->).
        destruct pre as [|p' pre]; simplify_eq/=; [congruence|].
        apply Forall_cons in Hpre as [[re Hre] _]. congruence. }
    assert ((exists pre q rest' e0,
               p :: rest = pre ++ q :: rest' /\
               Forall (fun q => exists re, regexp_Compile q = Ok re) pre /\
               regexp_Compile q = Err e0 /\
               e = ErrWrap e0 "Could not compile regexp") <->
            compileAll regexp_Compile rest = Err e) as ->.
    { rewrite IH. split.
      - intros (pre & q & rest' & e0 & Heq & Hpre & Hq & ->).
        destruct pre as [|p' pre]; simplify_eq/=; [congruence|].
        apply Forall_cons in Hpre as [_ Hpre]. by exists pre, q, rest', e0.
      - intros (pre & q & rest' & e0 & -> & Hpre & Hq & ->).
        exists (p :: pre), q, rest', e0. split_and!; try done.
        constructor; [by exists re|done]. }
    destruct (compileAll regexp_Compile rest); [done|].
    split; congruence.
Qed.

End CompileFacts.

(** ** The manifest load handler *)

Section HandlerFacts.

Context {W : Type}.
Variable as_ : @HandlerEnv W.

Lemma orRespond_inv {A} (r : result A) status msg (w w' : W) evs
    (o : outcome Response A) :
  orRespond r status msg w = (w', evs, o) ->
  w' = w /\ evs = [] /\
  o = match r with
      | Ok a => Done a
      | Err e => Failed (LoggedError status (ErrWrap e msg))
      end.
Proof. destruct r; by intros [= <- <- <-]. Qed.

Ltac handler_step :=
  match goal with
  | H : orRespond ?r _ _ _ = (_, _, _) |- _ =>
      destruct r; apply orRespond_inv in H as (? & ? & ?); simplify_eq/=
  end.

(** The module loop makes its upstream queries in module order, looks up
    and inserts nothing, and can only end early with a server error. *)
Lemma populateModules_trace projectModules modules (w w' : W) evs o :
  populateModules as_ projectModules modules w = (w', evs, o) ->
  findResults evs = [] /\ insertAttempts evs = [] /\
  branchQueries evs `prefix_of` map (moduleQuery as_) projectModules /\
  match o with
  | Done _ =>
      branchQueries evs = map (moduleQuery as_) projectModules /\
      forallb (fun ev => negb (upstreamFailure ev)) evs = true
  | Failed r =>
      (exists e, r = LoggedError StatusInternalServerError e) /\
      existsb upstreamFailure evs = true
  | Panicked => existsb upstreamFailure evs = true
  end.
Proof.
  revert modules w w' evs o.
  induction projectModules as [|module rest IH]; intros modules w w' evs o Hrun.
  - simpl in Hrun. run_step. by split_and!.
  - simpl in Hrun.
    destruct (GetRepoOwnerAndName as_ module) as [owner repo] eqn:Hrepo.
    assert (moduleQuery as_ module = (owner, repo, model.ModuleBranch module))
      as Hquery by (unfold moduleQuery; by rewrite Hrepo).
    repeat (run_step || handler_step); rewrite Hquery;
      repeat match goal with
             | Heq : _ = Some _ |- _ => rewrite Heq
             | Heq : _ = None |- _ => rewrite Heq
             end; simpl;
      try (split_and!; try done; try (by eexists);
           by apply prefix_cons, prefix_nil).
    match goal with
    | Hrest : populateModules _ _ _ _ = _ |- _ =>
        destruct (IH _ _ _ _ _ Hrest) as (Hfinds & Hinserts & Hprefix & Ho)
    end.
    split_and!; try done.
    + by apply prefix_cons.
    + destruct o as [modules'|r0|]; simpl; [|done..].
      destruct Ho as [-> ?]. done.
Qed.

(** The module loop against the upstream calls it stands for: it leaves
    the world they leave; it builds the module map from the heads they
    deliver; it ends with a server error when one of them fails, and
    panics on a branch with a part missing. *)
Lemma populateModules_heads projectModules modules (w w' : W) evs o :
  populateModules as_ projectModules modules w = (w', evs, o) ->
  (spec_BranchHeads as_ projectModules w).1 = w' /\
  match (spec_BranchHeads as_ projectModules w).2 with
  | Delivered heads =>
      o = Done (builtModules as_ projectModules heads modules) /\
      length heads = length projectModules
  | UpstreamFailed e =>
      exists msg,
        o = Failed (LoggedError StatusInternalServerError (ErrWrap e msg))
  | HeadMissing => o = Panicked
  end.
Proof.
  revert modules w w' evs o.
  induction projectModules as [|module rest IH]; intros modules w w' evs o Hrun.
  - simpl in Hrun. run_step. by split_and!.
  - simpl in Hrun. simpl spec_BranchHeads.
    destruct (GetRepoOwnerAndName as_ module) as [owner repo] eqn:Hrepo.
    simpl.
    repeat (run_step || handler_step);
      repeat match goal with
             | Heq : ?f = (_, _) |- context [?f] => rewrite Heq
             end;
      unfold headOf;
      repeat match goal with
             | Heq : _ = Some _ |- _ => rewrite Heq
             | Heq : _ = None |- _ => rewrite Heq
             end; simpl; try (by eauto).
    match goal with
    | Hrest : populateModules _ _ _ _ = _ |- _ =>
        destruct (IH _ _ _ _ _ Hrest) as (Hw & Ho)
    end.
    destruct (spec_BranchHeads as_ rest _) as [w3 [heads|e|]]; simpl in *;
      split; try done.
    destruct Ho as [-> Hlen]. split; [|by rewrite Hlen].
    unfold builtModules, moduleEntry. simpl. by rewrite Hrepo.
Qed.

(** No run of the handler makes more than one insert. *)
Lemma manifestLoadHandler_inserts_once task (w : W) :
  (length (insertAttempts (eventsOf (manifestLoadHandler as_ task) w)) <= 1)%nat.
Proof.
  destruct (manifestLoadHandler as_ task w) as [[w' evs] o] eqn:Hrun.
  unfold eventsOf. rewrite Hrun. simpl.
  unfold manifestLoadHandler in Hrun.
  repeat (run_step || handler_step);
    try match goal with
        | Hp : populateModules _ _ _ _ = _ |- _ =>
            apply populateModules_trace in Hp as (_ & Hi & _)
        end;
    unfold insertAttempts in *; rewrite ?omap_app; simpl;
    rewrite ?Hi; simpl; lia.
Qed.

End HandlerFacts.

(** Take a guarded call of the handler apart. *)
Ltac orRespond_step :=
  match goal with
  | H : orRespond ?r _ _ _ = (_, _, _) |- _ =>
      destruct r; apply orRespond_inv in H as (? & ? & ?); simplify_eq/=
  end.

(** * The properties *)

(** C6. The daily rollup groups the units by day and requester: the
    bucket of a key is the concatenation, in input order and with
    duplicates kept, of the task lists of the units that carry that day
    and requester; the rollup holds exactly the keys some unit carries;
    and two units of one day and requester with tasks ["a"] and ["a","b"]
    fold to ["a","a","b"]. *)
Theorem daily_rollup_concatenates_in_input_order
    (hourlyStats : list stats.StatsToUpdate) (day : Time) (requester : string) :
  bucket (buildDailyStatsRollup hourlyStats) day requester =
    concat (map stats.Tasks
              (List.filter (inBucket day requester) hourlyStats)) /\
  (hasKey (buildDailyStatsRollup hourlyStats) day requester <->
   exists u, In u hourlyStats /\ stats.Day u = day /\
             stats.Requester u = requester) /\
  (forall p1 p2 h1 h2,
     bucket
       (buildDailyStatsRollup
          [stats.mkStatsToUpdate p1 requester h1 day ["a"];
           stats.mkStatsToUpdate p2 requester h2 day ["a"; "b"]])
       day requester = ["a"; "a"; "b"]).
Proof.
  split_and!.
  - apply bucket_buildDailyStatsRollup.
  - apply hasKey_buildDailyStatsRollup.
  - intros. rewrite bucket_buildDailyStatsRollup. simpl.
    unfold inBucket. simpl. by rewrite !bool_decide_true by done.
Qed.

(** C10. Filtering task names distributes over concatenation, hence
    filtering a daily bucket after the rollup gives, for every key, the
    bucket that the rollup of the filtered units holds (whether or not
    the units left empty by the filter are dropped first). *)
Theorem filtering_distributes_over_concatenation {Regexp : Type}
    (MatchString : Regexp -> string -> bool) (tasksToIgnore : list Regexp)
    (xs ys : list string) (units : list stats.StatsToUpdate)
    (day : Time) (requester : string) :
  filterIgnoredTasks MatchString (xs ++ ys) tasksToIgnore =
    filterIgnoredTasks MatchString xs tasksToIgnore ++
    filterIgnoredTasks MatchString ys tasksToIgnore /\
  filterIgnoredTasks MatchString
    (bucket (buildDailyStatsRollup units) day requester) tasksToIgnore =
    bucket
      (buildDailyStatsRollup (map (filterUnit MatchString tasksToIgnore) units))
      day requester /\
  filterIgnoredTasks MatchString
    (bucket (buildDailyStatsRollup units) day requester) tasksToIgnore =
    bucket (buildDailyStatsRollup (spec_Filter MatchString tasksToIgnore units))
      day requester.
Proof.
  split_and!.
  - apply filterIgnoredTasks_app.
  - symmetry. apply bucket_filtered_units.
  - symmetry. apply bucket_spec_Filter.
Qed.

(** C2. In every dispatch, only generator calls are made; every hourly
    call precedes every daily call; a daily call is made only after the
    hourly stage has gone through all of its calls (every hourly generator
    over every unit left by the filter), each of which returned nil; a
    call that returns an error is the last call of the dispatch, whose
    result is that error, wrapped; and the dispatch ends normally exactly
    when every call returned nil. *)
Theorem dispatch_runs_hourly_before_daily_and_fails_fast
    {W : Type} `{GoRuntime W} {Regexp : Type}
    (MatchString : Regexp -> string -> bool)
    (c : @cacheHistoricalJobContext Regexp)
    (statsToUpdate : list stats.StatsToUpdate)
    (generateFns : @generateFunctions W) (w : W) :
  let dispatch :=
    updateHourlyAndDailyStats MatchString c statsToUpdate generateFns in
  let evs := eventsOf dispatch w in
  let calls := genCalls evs in
  evs = map EvGenerate calls /\
  (forall i j ci cj,
     calls !! i = Some ci -> calls !! j = Some cj ->
     gc_stage ci = Hourly -> gc_stage cj = Daily -> (i < j)%nat) /\
  (forall cj,
     In cj calls -> gc_stage cj = Daily ->
     exists ds,
       calls =
         hourlyStageCalls MatchString (JobTime c) (TasksToIgnore c)
           statsToUpdate (map_range (HourlyFns generateFns) w).2.*1 ++ ds /\
       Forall (fun cl => gc_stage cl = Daily) ds) /\
  failFast evs (outcomeOf dispatch w) /\
  (forall i ci,
     calls !! i = Some ci -> gc_err ci <> None ->
     S i = length calls /\
     exists e0, gc_err ci = Some e0 /\
       outcomeOf dispatch w = Failed (ErrWrap e0 (stageMsg (gc_stage ci)))) /\
  (outcomeOf dispatch w = Done tt <-> Forall callOk calls).
Proof.
  intros dispatch evs calls.
  pose proof (FailFast_updateHourlyAndDailyStats MatchString c statsToUpdate
                generateFns w) as Hff.
  destruct (dispatch_split MatchString c statsToUpdate generateFns w)
    as (hs & ds & Hcalls & _ & Hhs & Hds & Hfull).
  fold dispatch evs calls in Hff, Hcalls.
  split_and!.
  - apply genCalls_generate, dispatch_only_generates.
  - intros i j ci cj Hi Hj Hci Hcj. rewrite Hcalls in Hi, Hj.
    destruct (decide (i < length hs)%nat) as [Hlt|Hge]; cycle 1.
    { rewrite lookup_app_r in Hi by lia.
      pose proof (proj1 (Forall_lookup _ _) Hds _ _ Hi). congruence. }
    destruct (decide (j < length hs)%nat) as [Hlt'|Hge']; [|lia].
    rewrite lookup_app_l in Hj by done.
    pose proof (proj1 (Forall_lookup _ _) Hhs _ _ Hj). congruence.
  - intros cj Hin Hcj. exists ds. split; [|done].
    rewrite Hcalls. f_equal. apply Hfull. intros ->.
    rewrite Hcalls, app_nil_r in Hin.
    pose proof (proj1 (List.Forall_forall _ _) Hhs _ Hin). congruence.
  - done.
  - intros i ci. by apply failFast_failure_last.
  - by apply failFast_done.
Qed.

(** C4, as amended.  The daily buckets are folded from the units as
    fetched, and each bucket is filtered when its daily call is made:
    every daily call of a dispatch is given its key's bucket without the
    ignored names, which is also the bucket the rollup of the filtered
    units holds, so that no name matched by an ignore pattern reaches a
    daily generator. *)
Theorem daily_calls_are_given_filtered_buckets
    {W : Type} `{GoRuntime W} {Regexp : Type}
    (MatchString : Regexp -> string -> bool)
    (c : @cacheHistoricalJobContext Regexp)
    (statsToUpdate : list stats.StatsToUpdate)
    (generateFns : @generateFunctions W) (w : W) :
  Forall
    (fun cl =>
       gc_stage cl = Daily ->
       gc_tasks cl =
         filterIgnoredTasks MatchString
           (bucket (buildDailyStatsRollup statsToUpdate)
              (gc_timePeriod cl) (gc_requester cl))
           (TasksToIgnore c) /\
       gc_tasks cl =
         bucket
           (buildDailyStatsRollup
              (spec_Filter MatchString (TasksToIgnore c) statsToUpdate))
           (gc_timePeriod cl) (gc_requester cl) /\
       Forall
         (fun t => anyRegexMatch MatchString t (TasksToIgnore c) = false)
         (gc_tasks cl))
    (genCalls
       (eventsOf
          (updateHourlyAndDailyStats MatchString c statsToUpdate generateFns)
          w)).
Proof.
  rewrite events_updateHourlyAndDailyStats, genCalls_app.
  apply Forall_app. split.
  - eapply Forall_genCalls; [|apply Emits_hourlyStage].
    intros cl (c' & u & [= <-] & Hstage & _). congruence.
  - destruct (outcomeOf (hourlyStage _ _ _ _) w); [|constructor..].
    eapply Forall_genCalls; [|apply Emits_dailyStage].
    intros cl (c' & [= <-] & _ & _ & _ & _ & Htasks & _) _.
    split_and!; [done|by rewrite bucket_spec_Filter|].
    rewrite Htasks. apply List.Forall_forall. intros t Ht.
    by apply filterIgnoredTasks_In in Ht as [_ ?].
Qed.

(** C4, as stated, fails: for a unit with tasks ["gen_x","keep_y"] and the
    ignore pattern ^gen_, the bucket that [updateHourlyAndDailyStats]
    hands to the daily iterator (the rollup of the units as fetched) still
    holds the ignored name, while the rollup of the filtered units does
    not. *)
Lemma daily_buckets_are_folded_from_unfiltered_units :
  let unit := stats.mkStatsToUpdate "p" "patch" 36000 0 ["gen_x"; "keep_y"] in
  let ignore := [Sample.mkPattern true "gen_"] in
  anyRegexMatch Sample.MatchString "gen_x" ignore = true /\
  bucket (buildDailyStatsRollup [unit]) 0 "patch" = ["gen_x"; "keep_y"] /\
  bucket (buildDailyStatsRollup (spec_Filter Sample.MatchString ignore [unit]))
    0 "patch" = ["keep_y"] /\
  buildDailyStatsRollup [unit] <>
  buildDailyStatsRollup (spec_Filter Sample.MatchString ignore [unit]).
Proof.
  split_and!; by vm_compute.
Qed.

(** C8. Filtering keeps exactly the task names that no ignore pattern
    matches, in their order; the hourly iterator works through the units
    the filter leaves with at least one name, skipping the others; and no
    generator call, of a dispatch or of a whole run, is given an empty
    task list.  A unit with tasks ["gen_x","keep_y"] and a pattern
    matching only the first yields ["keep_y"], and a unit reduced to the
    empty list makes no call. *)
Theorem filter_removes_matched_names_and_skips_empty_units
    {W : Type} `{GoRuntime W} {Regexp : Type}
    (regexp_Compile : string -> result Regexp)
    (MatchString : Regexp -> string -> bool) (env : @JobEnv W) :
  (forall taskList tasksToIgnore,
     filterIgnoredTasks MatchString taskList tasksToIgnore =
       List.filter
         (fun t => negb (existsb (fun re => MatchString re t) tasksToIgnore))
         taskList /\
     sublist (filterIgnoredTasks MatchString taskList tasksToIgnore) taskList /\
     forall t,
       In t (filterIgnoredTasks MatchString taskList tasksToIgnore) <->
       In t taskList /\
       ~ exists re, In re tasksToIgnore /\ MatchString re t = true) /\
  (forall c units fn name (w : W),
     runsThrough
       (map (hourlyCall (JobTime c) name)
          (spec_Filter MatchString (TasksToIgnore c) units))
       (eventsOf (iteratorOverHourlyStats MatchString c units fn name) w)
       (outcomeOf (iteratorOverHourlyStats MatchString c units fn name) w)) /\
  (forall c units fns (w : W),
     Forall (fun cl => gc_tasks cl <> [])
       (genCalls
          (eventsOf (updateHourlyAndDailyStats MatchString c units fns) w))) /\
  (forall p (w : W),
     Forall (fun cl => gc_tasks cl <> [])
       (genCalls (eventsOf (Run regexp_Compile MatchString env p) w))) /\
  (forall re,
     MatchString re "gen_x" = true -> MatchString re "keep_y" = false ->
     filterIgnoredTasks MatchString ["gen_x"; "keep_y"] [re] = ["keep_y"] /\
     forall c u fn name (w : W),
       TasksToIgnore c = [re] -> stats.Tasks u = ["gen_x"] ->
       eventsOf (iteratorOverHourlyStats MatchString c [u] fn name) w = []).
Proof.
  split_and!.
  - intros taskList tasksToIgnore. split_and!.
    + apply filterIgnoredTasks_existsb.
    + apply filterIgnoredTasks_sublist.
    + intros t. rewrite filterIgnoredTasks_In.
      rewrite <- anyRegexMatch_true.
      by destruct (anyRegexMatch MatchString t tasksToIgnore); intuition.
  - intros. apply runsThrough_iteratorOverHourlyStats.
  - intros. apply dispatch_tasks_nonempty.
  - intros p w.
    destruct (Run_genCalls regexp_Compile MatchString env p w)
      as [->|(jobTime & res & units & w5 & ->)]; [constructor|].
    apply dispatch_tasks_nonempty.
  - intros re Hgen Hkeep. split.
    + unfold filterIgnoredTasks. simpl. by rewrite Hgen, Hkeep.
    + intros c u fn name w Hc Hu.
      unfold iteratorOverHourlyStats. simpl.
      rewrite Hc, Hu. unfold filterIgnoredTasks. simpl. by rewrite Hgen.
Qed.

(** C5. [findTargetTimeForSync] only reads the clock, and returns the
    smaller of that reading and the previous sync time plus one week:
    the reading when the previous sync time plus one week is after it, and
    the previous sync time plus one week otherwise.  With the previous
    sync at D0, a clock at D0+2d gives the clock reading and a clock at
    D0+20d gives D0+7d.  Every window that [Run] asks the stats source
    for starts at the loaded checkpoint and ends at such a target. *)
Theorem sync_target_is_min_of_now_and_one_week_ahead
    {W : Type} `{GoRuntime W} {Regexp : Type}
    (regexp_Compile : string -> result Regexp)
    (MatchString : Regexp -> string -> bool) (env : @JobEnv W)
    (previousSyncTime D0 : Time) (p : string) (w : W) :
  let now := (time_Now w).2 in
  findTargetTimeForSync previousSyncTime w =
    ((time_Now w).1, [],
     Done (Z.min now (previousSyncTime + maxSyncDuration))) /\
  maxSyncDuration = days 7 /\
  Z.min now (previousSyncTime + maxSyncDuration) =
    (if decide (now < previousSyncTime + maxSyncDuration)
     then now else previousSyncTime + maxSyncDuration) /\
  spec_ComputeRange previousSyncTime now maxSyncDuration =
    (previousSyncTime, syncTarget now previousSyncTime) /\
  syncTarget (D0 + days 2) D0 = D0 + days 2 /\
  syncTarget (D0 + days 20) D0 = D0 + days 7 /\
  (forall q lower upper r,
     In (EvFindStatsToUpdate q lower upper r)
       (eventsOf (Run regexp_Compile MatchString env p) w) ->
     exists st w3,
       In (EvGetStatsStatus p (Ok st))
         (eventsOf (Run regexp_Compile MatchString env p) w) /\
       (lower, upper) =
         spec_ComputeRange (stats.ProcessedTasksUntil st) (time_Now w3).2
           maxSyncDuration).
Proof.
  intros now. split_and!.
  - by rewrite run_findTargetTimeForSync, syncTarget_min.
  - reflexivity.
  - case_decide; lia.
  - unfold spec_ComputeRange. by rewrite syncTarget_min.
  - rewrite syncTarget_min. unfold days, maxSyncDuration, Hour, Minute,
      Second, Nanosecond. lia.
  - rewrite syncTarget_min. unfold days, maxSyncDuration, Hour, Minute,
      Second, Nanosecond. lia.
  - intros q lower upper r Hin.
    destruct (Run_fetch_window regexp_Compile MatchString env p w _ _ _ _ Hin)
      as (st & w3 & Hst & -> & -> & ->).
    exists st, w3. split; [done|].
    unfold spec_ComputeRange. by rewrite syncTarget_min.
Qed.

(** C3, as amended.  The value [Run] passes to the checkpoint update is
    the smaller of a clock reading and the previous checkpoint plus one
    week; it is at least the previous checkpoint when that clock reading
    is not earlier than the previous checkpoint, and it is earlier than
    the previous checkpoint otherwise. *)
Theorem checkpoint_advances_unless_clock_is_behind
    {W : Type} `{GoRuntime W} {Regexp : Type}
    (regexp_Compile : string -> result Regexp)
    (MatchString : Regexp -> string -> bool) (env : @JobEnv W)
    (p : string) (w : W) :
  let evs := eventsOf (Run regexp_Compile MatchString env p) w in
  Forall
    (fun ev =>
       forall q jt target uerr,
         ev = EvUpdateStatsStatus q jt target uerr ->
         exists st w3,
           In (EvGetStatsStatus p (Ok st)) evs /\
           let lastProcessed := stats.ProcessedTasksUntil st in
           let now := (time_Now w3).2 in
           target = Z.min now (lastProcessed + maxSyncDuration) /\
           (lastProcessed <= now -> lastProcessed <= target) /\
           (now < lastProcessed -> target < lastProcessed))
    evs.
Proof.
  intros evs. apply List.Forall_forall. intros ev Hin q jt target uerr ->.
  destruct (Run_update_last regexp_Compile MatchString env p w _ _ _ _ Hin)
    as (st & w3 & units & pre & Hevs & _ & -> & Hst & _ & -> & _).
  exists st, w3. split.
  - subst evs. rewrite Hevs. apply in_app_iff. by left.
  - rewrite syncTarget_min. unfold maxSyncDuration, Hour, Minute, Second,
      Nanosecond. lia.
Qed.

(** C3, as stated, fails: with the checkpoint at 100 and a clock that
    reads 50, the run succeeds and sets the checkpoint to 50. *)
Lemma checkpoint_moves_back_when_clock_is_behind :
  let w0 := Sample.mkWorld 49 1 100 [] false [] "" in
  let run := Run Sample.Compile Sample.MatchString Sample.jobEnv "p" in
  Sample.checkpoint w0 = 100 /\
  outcomeOf run w0 = Done tt /\
  fetchWindows (eventsOf run w0) = [(100, 50)] /\
  checkpointUpdates (eventsOf run w0) = [50] /\
  Sample.checkpoint (worldOf run w0) = 50.
Proof. by vm_compute. Qed.

(** C1, as amended.  [Run] calls the checkpoint update exactly when the
    ignore patterns compiled, the units were fetched and every generator
    call returned nil; the update is then the last call of the run, made
    once, for the project of the job and with the upper bound of the
    window that was fetched; a run that ends normally has made it.  A run
    that does not make it leaves the checkpoint to the next invocation,
    whose window starts at the same checkpoint and ends at a target
    computed from the clock anew: not earlier than the aborted window's
    end if the clock has not gone back, the same end if the aborted window
    was already one week long, and a later end if it was shorter and the
    clock has advanced. *)
Theorem checkpoint_update_only_after_full_success
    {W : Type} `{GoRuntime W} {Regexp : Type}
    (regexp_Compile : string -> result Regexp)
    (MatchString : Regexp -> string -> bool) (env : @JobEnv W)
    (p : string) (w : W) :
  let run := Run regexp_Compile MatchString env p in
  let evs := eventsOf run w in
  (updateCalled evs <->
   patternsCompiled regexp_Compile evs /\ unitsFetched evs /\
   generatorsSucceeded evs) /\
  (forall q jt target uerr,
     In (EvUpdateStatsStatus q jt target uerr) evs ->
     exists st units pre,
       evs = pre ++ [EvUpdateStatsStatus q jt target uerr] /\
       ~ updateCalled pre /\ q = p /\
       In (EvGetStatsStatus p (Ok st)) pre /\
       In (EvFindStatsToUpdate p (stats.ProcessedTasksUntil st) target
             (Ok units)) pre) /\
  (outcomeOf run w = Done tt -> updateCalled evs) /\
  (forall q lower upper r,
     In (EvFindStatsToUpdate q lower upper r) evs ->
     exists st w3,
       In (EvGetStatsStatus p (Ok st)) evs /\
       lower = stats.ProcessedTasksUntil st /\
       upper = syncTarget (time_Now w3).2 lower) /\
  (forall lastProcessed now now',
     now <= now' ->
     syncTarget now lastProcessed <= syncTarget now' lastProcessed /\
     (lastProcessed + maxSyncDuration <= now ->
      syncTarget now' lastProcessed = syncTarget now lastProcessed) /\
     (now < lastProcessed + maxSyncDuration -> now < now' ->
      syncTarget now lastProcessed < syncTarget now' lastProcessed)).
Proof.
  intros run evs. split_and!.
  - apply Run_update_iff.
  - intros q jt target uerr Hin.
    destruct (Run_update_last regexp_Compile MatchString env p w _ _ _ _ Hin)
      as (st & w3 & units & pre & Hevs & Hpre & -> & Hst & Hfetch & _).
    by exists st, units, pre.
  - intros Hdone. subst evs run.
    generalize (Run_path regexp_Compile MatchString env p w).
    rewrite Hdone.
    generalize (eventsOf (Run regexp_Compile MatchString env p) w).
    intros evs Hp. inversion Hp as [| | | | | |
      st ref res jobTime now w4 w5 units w7 uerr Hprep from to Hfetch
      dispatch Hout Hupd Hevs Ho].
    exists p, jobTime, to, uerr. rewrite !in_app_iff. simpl. tauto.
  - intros q lower upper r Hin.
    destruct (Run_fetch_window regexp_Compile MatchString env p w _ _ _ _ Hin)
      as (st & w3 & Hst & -> & -> & ->).
    by exists st, w3.
  - intros lastProcessed now now' Hle. rewrite !syncTarget_min. lia.
Qed.

(** C1, as stated, fails: a run that aborts on a fetch error two days
    after the checkpoint leaves the checkpoint at 0, and the next run, a
    day later, asks for the window from 0 to day 3, not again for the
    window from 0 to day 2. *)
Lemma aborted_window_is_widened_by_the_next_run :
  let w0 :=
    Sample.mkWorld (days 1 + 12 * Hour) (12 * Hour) 0 [] true [] "" in
  let run := Run Sample.Compile Sample.MatchString Sample.jobEnv "p" in
  let w1 := worldOf run w0 in
  fetchWindows (eventsOf run w0) = [(0, days 2)] /\
  checkpointUpdates (eventsOf run w0) = [] /\
  Sample.checkpoint w1 = Sample.checkpoint w0 /\
  fetchWindows (eventsOf run w1) = [(0, days 3)] /\
  days 2 <> days 3.
Proof. by vm_compute. Qed.

(** C7, as amended.  Each pattern is trimmed of the spaces around it
    (and of nothing else); the patterns that are then empty are skipped;
    the others are compiled in order, and the first one the compiler
    rejects makes the whole compilation fail with that error, wrapped.
    In [Run] such a failure ends the run before any unit is fetched.  The
    list ["", "  ", "^gen_.*"] compiles to the one matcher of its last
    pattern, and a rejected pattern "([" fails the compilation. *)
Theorem ignore_patterns_are_trimmed_of_spaces_and_compiled
    {W : Type} `{GoRuntime W} {Regexp : Type}
    (regexp_Compile : string -> result Regexp)
    (MatchString : Regexp -> string -> bool) (env : @JobEnv W) :
  (forall s,
     exists n m,
       s = spaces n +:+ strings_Trim s " " +:+ spaces m /\
       firstChar (strings_Trim s " ") <> Some " "%char /\
       lastChar (strings_Trim s " ") <> Some " "%char) /\
  (forall s, strings_Trim s " " = "" <-> exists n, s = spaces n) /\
  (forall filePatterns,
     let trimmed :=
       List.filter (fun p => negb (String.eqb p ""))
         (map (fun p => strings_Trim p " ") filePatterns) in
     createRegexpFromStrings regexp_Compile filePatterns =
       compileAll regexp_Compile trimmed /\
     (forall res,
        createRegexpFromStrings regexp_Compile filePatterns = Ok res <->
        Forall2 (fun p re => regexp_Compile p = Ok re) trimmed res) /\
     (forall e,
        createRegexpFromStrings regexp_Compile filePatterns = Err e <->
        exists pre p rest e0,
          trimmed = pre ++ p :: rest /\
          Forall (fun q => exists re, regexp_Compile q = Ok re) pre /\
          regexp_Compile p = Err e0 /\
          e = ErrWrap e0 "Could not compile regexp")) /\
  (forall p (w : W) q ref e,
     In (EvFindOneProjectRef q (Ok (Some ref)))
       (eventsOf (Run regexp_Compile MatchString env p) w) ->
     createRegexpFromStrings regexp_Compile (model.FilesIgnoredFromCache ref)
       = Err e ->
     fetchWindows (eventsOf (Run regexp_Compile MatchString env p) w) = [] /\
     genCalls (eventsOf (Run regexp_Compile MatchString env p) w) = [] /\
     checkpointUpdates (eventsOf (Run regexp_Compile MatchString env p) w)
       = [] /\
     outcomeOf (Run regexp_Compile MatchString env p) w =
       Failed (ErrWrap e "error retrieving project settings")) /\
  (forall re,
     regexp_Compile "^gen_.*" = Ok re ->
     createRegexpFromStrings regexp_Compile [""; "  "; "^gen_.*"] = Ok [re]) /\
  (forall e,
     regexp_Compile "([" = Err e ->
     createRegexpFromStrings regexp_Compile ["(["] =
       Err (ErrWrap e "Could not compile regexp")).
Proof.
  split_and!.
  - apply strings_Trim_spec.
  - apply strings_Trim_spaces_only.
  - intros filePatterns trimmed. split_and!.
    + apply createRegexpFromStrings_spec.
    + intros res. rewrite createRegexpFromStrings_spec. apply compileAll_Ok.
    + intros e. rewrite createRegexpFromStrings_spec. apply compileAll_Err.
  - intros p w q ref e Hin Herr.
    destruct (Run_compile_error regexp_Compile MatchString env p w q ref e
                Hin Herr) as (st & -> & ->).
    done.
  - intros re Hre. unfold createRegexpFromStrings. simpl.
    change (strings_Trim "^gen_.*" " ") with "^gen_.*". by rewrite Hre.
  - intros e He. unfold createRegexpFromStrings. simpl.
    change (strings_Trim "([" " ") with "([". by rewrite He.
Qed.

(** C7, as stated, fails: a pattern that consists of a tab is whitespace
    only, yet it is not trimmed away and skipped but handed to the
    compiler, whatever the compiler: the result is the one matcher the
    compiler returns (or its error), where trimming whitespace would leave
    no pattern to compile. *)
Lemma tab_pattern_is_compiled_not_skipped :
  let tab := String "009" "" in
  strings_Trim tab " " = tab /\
  strings_Trim tab asciiWhitespace = "" /\
  createRegexpFromStrings Sample.Compile [tab] =
    Ok [Sample.mkPattern false tab] /\
  spec_Compile Sample.Compile asciiWhitespace [tab] = Ok [] /\
  (forall (Regexp : Type) (regexp_Compile : string -> result Regexp),
     createRegexpFromStrings regexp_Compile [tab] =
       match regexp_Compile tab with
       | Ok re => Ok [re]
       | Err e => Err (ErrWrap e "Could not compile regexp")
       end /\
     spec_Compile regexp_Compile asciiWhitespace [tab] = Ok [] /\
     createRegexpFromStrings regexp_Compile [tab] <>
       spec_Compile regexp_Compile asciiWhitespace [tab]).
Proof.
  split_and!; try by vm_compute.
  intros Regexp regexp_Compile.
  assert (createRegexpFromStrings regexp_Compile [String "009" ""] =
          match regexp_Compile (String "009" "") with
          | Ok re => Ok [re]
          | Err e => Err (ErrWrap e "Could not compile regexp")
          end) as Hcode by reflexivity.
  assert (spec_Compile regexp_Compile asciiWhitespace [String "009" ""]
          = Ok []) as Hspec by reflexivity.
  split_and!; [done|done|].
  rewrite Hcode, Hspec. by destruct (regexp_Compile _).
Qed.

(** C9, as amended.  No request makes more than one insert.  A request
    whose project reference lookup fails is answered with a client error
    after that one call; so is a request whose project reference is found
    but whose project lookup fails or finds no project, after those two
    calls.  When the project reference and the project are found, the
    manifest is looked up by the task's version: a manifest that is found
    is returned as it is, and a failed lookup, or an empty version when
    nothing is found, is answered with a client error, in each case
    without any upstream call or insert.  When nothing is found for a
    non-empty version, the upstream API is asked once per declared
    module, in module order: if a token fetch or a branch query fails,
    the answer is a server error carrying that error and no insert is
    made; if every query delivers a branch head, exactly one insert is
    made, of the manifest for the task's version, revision and project,
    the branch of the project reference and the module map built from
    the heads.  An insert that fails is answered with a server error; an
    insert without conflict with the new manifest; and after a conflict
    the manifest is looked up again: the manifest that is found is
    returned, and a failed lookup is answered with a client error.
    Nothing is said of a project reference lookup that returns neither a
    reference nor an error, of a branch that comes back with a part
    missing, and of a second lookup that finds nothing. *)
Theorem manifest_handler_returns_found_or_inserts_once
    {W : Type} (as_ : @HandlerEnv W) (task : Task) (w : W) :
  let evs := eventsOf (manifestLoadHandler as_ task) w in
  let o := outcomeOf (manifestLoadHandler as_ task) w in
  let clientError e := o = Failed (LoggedError StatusBadRequest e) in
  let serverError e := o = Failed (LoggedError StatusInternalServerError e) in
  (length (insertAttempts evs) <= 1)%nat /\
  let '(w1, foundRef) := handler_FindOneProjectRef as_ (TaskProject task) w in
  match foundRef with
  | Err e =>
      evs = [EvProjectRef (TaskProject task) (Err e)] /\
      clientError
        (ErrWrap e ("projectRef not found for project " +:+ TaskProject task))
  | Ok None => True
  | Ok (Some ref) =>
      let '(w2, foundProject) := model_FindProject as_ "" (Some ref) w1 in
      let resolved :=
        [EvProjectRef (TaskProject task) (Ok (Some ref));
         EvFindProject (Some ref) foundProject] in
      match foundProject with
      | Err e =>
          evs = resolved /\
          clientError
            (ErrWrap e ("project not found for ProjectRef "
                        +:+ model.Identifier ref))
      | Ok None =>
          evs = resolved /\
          clientError
            (ErrNew ("empty project not found for ProjectRef "
                     +:+ model.Identifier ref))
      | Ok (Some project) =>
          let '(w3, found) := manifest_FindOne as_ (TaskVersion task) w2 in
          let lookups := resolved ++ [EvFindOne (TaskVersion task) found] in
          match found with
          | Err e =>
              evs = lookups /\
              clientError
                (ErrWrap e ("error retrieving manifest with version id "
                            +:+ TaskVersion task))
          | Ok (Some m) => evs = lookups /\ o = Done (WriteJSON m)
          | Ok None =>
              if bool_decide (TaskVersion task = "") then
                evs = lookups /\
                clientError
                  (ErrNew ("found empty version when retrieving manifest for "
                           +:+ model.Identifier ref))
              else
                let '(w4, upstream) :=
                  spec_BranchHeads as_ (model.Modules project) w3 in
                match upstream with
                | HeadMissing => True
                | UpstreamFailed e =>
                    (exists msg, serverError (ErrWrap e msg)) /\
                    insertAttempts evs = [] /\
                    findResults evs = [Ok None] /\
                    branchQueries evs `prefix_of`
                      map (moduleQuery as_) (model.Modules project)
                | Delivered heads =>
                    let newManifest :=
                      manifest.mkManifest (TaskVersion task)
                        (TaskRevision task) (TaskProject task)
                        (model.Branch ref)
                        (builtModules as_ (model.Modules project) heads ∅) in
                    let '(w5, inserted) := TryInsert as_ newManifest w4 in
                    length heads = length (model.Modules project) /\
                    branchQueries evs =
                      map (moduleQuery as_) (model.Modules project) /\
                    insertAttempts evs = [(newManifest, inserted)] /\
                    match inserted with
                    | Err e =>
                        findResults evs = [Ok None] /\
                        serverError
                          (ErrWrap e ("problem inserting manifest for project "
                                      +:+ TaskProject task))
                    | Ok false =>
                        findResults evs = [Ok None] /\
                        o = Done (WriteJSON newManifest)
                    | Ok true =>
                        let '(_, reread) :=
                          manifest_FindOne as_ (TaskVersion task) w5 in
                        findResults evs = [Ok None; reread] /\
                        match reread with
                        | Ok (Some m) => o = Done (WriteJSON m)
                        | Err e =>
                            clientError
                              (ErrWrap e
                                 ("problem getting latest manifest for project "
                                  +:+ TaskProject task))
                        | Ok None => True
                        end
                    end
                end
          end
      end
  end.
Proof.
  intros evs o clientError serverError.
  subst evs o clientError serverError.
  split; [apply manifestLoadHandler_inserts_once|].
  destruct (manifestLoadHandler as_ task w) as [[w' evs] o] eqn:Hrun.
  unfold eventsOf, outcomeOf. rewrite Hrun. simpl.
  unfold manifestLoadHandler in Hrun.
  repeat (run_step || orRespond_step);
    try match goal with
        | Hp : populateModules _ _ _ _ = _ |- _ =>
            pose proof (populateModules_trace _ _ _ _ _ _ _ Hp)
              as (Hf & Hi & Hpre & Hq);
            apply populateModules_heads in Hp as (Hw & Ho)
        end;
    repeat (match goal with
            | Heq : ?f = (_, _) |- context [?f] => rewrite Heq
            | Heq : bool_decide _ = _ |- _ => rewrite Heq
            | a : option model.ProjectRef |- _ => destruct a; [|exact I]
            end; cbn match beta);
    try done.
  all: destruct (spec_BranchHeads as_ _ _) as [w4 [heads|e0|]];
    simpl in Hw, Ho; subst;
    try match type of Ho with
        | _ /\ _ => destruct Ho as [Ho Hlen]
        | ex _ => destruct Ho as [msg Ho]
        end;
    simplify_eq; try exact I;
    repeat (match goal with
            | Heq : ?f = (_, _) |- context [?f] => rewrite Heq
            end; cbn match beta);
    try match type of Hq with
        | _ /\ _ => destruct Hq as [Hq _]
        end;
    unfold findResults, insertAttempts, branchQueries in *;
    rewrite ?omap_app; simpl; rewrite ?Hf, ?Hi, ?app_nil_r; simpl;
    try (by split_and!; eauto).
Qed.

(** C9, as stated, fails on three requests.  The manifest exists but the
    project reference cannot be loaded: the answer is a client error and
    the manifest is not even looked up.  No manifest exists and the task
    has no version: the answer is a client error and no insert is made.
    The insert reports a conflict and the second lookup fails: the answer
    is a client error. *)
Lemma manifest_handler_errors_around_lookup_and_conflict :
  let ref := model.mkProjectRef "proj" "main" [] in
  let project := model.mkProject [] in
  let stored := manifest.mkManifest "v1" "old" "proj" "main" ∅ in
  let built := manifest.mkManifest "v1" "abc" "proj" "main" ∅ in
  let handler := manifestLoadHandler Sample.handlerEnv in
  let unresolved :=
    Sample.mkScript (Err (ErrNew "db")) (Ok (Some project))
      [Ok (Some stored)] (Ok "token") (Ok None) (Ok false) in
  let noVersion :=
    Sample.mkScript (Ok (Some ref)) (Ok (Some project))
      [Ok None] (Ok "token") (Ok None) (Ok false) in
  let rereadFails :=
    Sample.mkScript (Ok (Some ref)) (Ok (Some project))
      [Ok None; Err (ErrNew "db")] (Ok "token") (Ok None) (Ok true) in
  findResults (eventsOf (handler (mkTask "proj" "v1" "abc")) unresolved) = [] /\
  responseOf (outcomeOf (handler (mkTask "proj" "v1" "abc")) unresolved) =
    Some (LoggedError StatusBadRequest
            (ErrWrap (ErrNew "db") "projectRef not found for project proj")) /\
  insertAttempts (eventsOf (handler (mkTask "proj" "" "abc")) noVersion) = [] /\
  responseOf (outcomeOf (handler (mkTask "proj" "" "abc")) noVersion) =
    Some (LoggedError StatusBadRequest
            (ErrNew "found empty version when retrieving manifest for proj")) /\
  insertAttempts (eventsOf (handler (mkTask "proj" "v1" "abc")) rereadFails) =
    [(built, Ok true)] /\
  responseOf (outcomeOf (handler (mkTask "proj" "v1" "abc")) rereadFails) =
    Some (LoggedError StatusBadRequest
            (ErrWrap (ErrNew "db")
               "problem getting latest manifest for project proj")).
Proof. by vm_compute. Qed.

(** ** Worked examples *)

(** The spec's end-to-end case: checkpoint at day 0, clock at day 1, one
    fetched unit at 10:00 for requester "patch" with tasks t1 and t2, no
    ignore patterns, every generator succeeding.  The hourly generator is
    called once for the hour, each of the two daily generators once for
    the day, and the checkpoint advances to day 1. *)
Example end_to_end_run_advances_checkpoint :
  let unit := stats.mkStatsToUpdate "p" "patch" (10 * Hour) 0 ["t1"; "t2"] in
  let w0 := Sample.mkWorld (days 1) 0 0 [] false [unit] "" in
  let run := Run Sample.Compile Sample.MatchString Sample.jobEnv "p" in
  genCalls (eventsOf run w0) =
    [mkGenCall Hourly "test" "p" "patch" (10 * Hour) ["t1"; "t2"] (days 1) None;
     mkGenCall Daily "test" "p" "patch" 0 ["t1"; "t2"] (days 1) None;
     mkGenCall Daily "task" "p" "patch" 0 ["t1"; "t2"] (days 1) None] /\
  fetchWindows (eventsOf run w0) = [(0, days 1)] /\
  checkpointUpdates (eventsOf run w0) = [days 1] /\
  outcomeOf run w0 = Done tt /\
  Sample.checkpoint (worldOf run w0) = days 1.
Proof. by vm_compute. Qed.

(** Fail-fast: of three hourly generators the one ranged over first
    fails; the other two and the daily generator are never called, and a
    run in which a generator fails does not touch the checkpoint. *)
Example failing_generator_stops_the_dispatch :
  let unit := stats.mkStatsToUpdate "p" "patch" (10 * Hour) 0 ["t1"; "t2"] in
  let w0 := Sample.mkWorld (days 1) 0 0 [] false [unit] "t2" in
  let c := mkJobContext "p" (days 1) [] in
  let dispatch :=
    updateHourlyAndDailyStats Sample.MatchString c [unit] Sample.threeHourly in
  let run := Run Sample.Compile Sample.MatchString Sample.jobEnv "p" in
  genCalls (eventsOf dispatch w0) =
    [mkGenCall Hourly "second" "p" "patch" (10 * Hour) ["t1"; "t2"] (days 1)
       (Some (ErrNew "generator failed"))] /\
  outcomeOf dispatch w0 =
    Failed (ErrWrap (ErrNew "generator failed") "Could not sync hourly stats") /\
  length (genCalls (eventsOf run w0)) = 1%nat /\
  checkpointUpdates (eventsOf run w0) = [] /\
  Sample.checkpoint (worldOf run w0) = 0.
Proof. by vm_compute. Qed.

(** The handler on a version without manifest and a project with one
    module: one upstream query, one insert, and the new manifest as the
    answer. *)
Example handler_builds_and_inserts_manifest :
  let task := mkTask "proj" "v1" "abc" in
  let ref := model.mkProjectRef "proj" "main" [] in
  let project := model.mkProject [model.mkModule "enterprise" "v4.0" "modules"] in
  let head :=
    github.mkBranch
      (Some (github.mkRepositoryCommit (Some "5ha") (Some "https://x"))) in
  let script :=
    Sample.mkScript (Ok (Some ref)) (Ok (Some project)) [Ok None]
      (Ok "token") (Ok (Some head)) (Ok false) in
  let built :=
    manifest.mkManifest "v1" "abc" "proj" "main"
      {[ "enterprise" :=
           manifest.mkModule "v4.0" "5ha" "modules" "evergreen-ci" "https://x" ]} in
  let handler := manifestLoadHandler Sample.handlerEnv task in
  branchQueries (eventsOf handler script) =
    [("evergreen-ci", "modules", "v4.0")] /\
  insertAttempts (eventsOf handler script) = [(built, Ok false)] /\
  responseOf (outcomeOf handler script) = Some (WriteJSON built).
Proof. by vm_compute. Qed.

(** * More properties of the code *)

(** ** Matching and filtering *)

Section MatchingFacts.

Context {Regexp : Type}.
Variable MatchString : Regexp -> string -> bool.

Lemma anyRegexMatch_app value (r1 r2 : list Regexp) :
  anyRegexMatch MatchString value (r1 ++ r2) =
  anyRegexMatch MatchString value r1 || anyRegexMatch MatchString value r2.
Proof. rewrite !anyRegexMatch_existsb. apply existsb_app. Qed.

Lemma anyRegexMatch_perm value (r1 r2 : list Regexp) :
  r1 ≡ₚ r2 ->
  anyRegexMatch MatchString value r1 = anyRegexMatch MatchString value r2.
Proof.
  intros Hperm. apply eq_true_iff_eq. rewrite !anyRegexMatch_true.
  split; intros (re & Hin & Hm); exists re; split; try done;
    apply list_elem_of_In; apply list_elem_of_In in Hin;
    [by rewrite <- Hperm|by rewrite Hperm].
Qed.

Lemma filterIgnoredTasks_any (taskList : list string)
    (tasksToIgnore : list Regexp) :
  filterIgnoredTasks MatchString taskList tasksToIgnore =
  List.filter (fun t => negb (anyRegexMatch MatchString t tasksToIgnore))
    taskList.
Proof. unfold filterIgnoredTasks. by rewrite filter_loop. Qed.

Lemma filter_filter_and {A} (f g : A -> bool) (l : list A) :
  List.filter g (List.filter f l) = List.filter (fun x => f x && g x) l.
Proof.
  induction l as [|x l IH]; simpl; [done|].
  destruct (f x); simpl; [|done]. destruct (g x); by rewrite IH.
Qed.

Lemma filter_id_iff {A} (f : A -> bool) (l : list A) :
  List.filter f l = l <-> Forall (fun x => f x = true) l.
Proof.
  induction l as [|x l IH]; simpl.
  - split; [constructor|done].
  - destruct (f x) eqn:Hx.
    + split.
      * intros [= Heq]. constructor; [done|]. by apply IH.
      * intros [_ Hl]%Forall_cons. f_equal. by apply IH.
    + split.
      * intros Heq. exfalso.
        pose proof (List.filter_length_le f l) as Hlen.
        rewrite Heq in Hlen. simpl in Hlen. lia.
      * intros [Hfx _]%Forall_cons. congruence.
Qed.

(** X1. [anyRegexMatch] answers whether some pattern of the list matches
    the value: returning at the first match changes nothing.  It is false
    on the empty list, the disjunction of its answers on the two parts of
    an appended list, and the same on every reordering of the list. *)
Theorem any_match_is_a_disjunction_over_the_patterns
    (value : string) (r1 r2 : list Regexp) :
  anyRegexMatch MatchString value [] = false /\
  (anyRegexMatch MatchString value r1 = true <->
   exists re, In re r1 /\ MatchString re value = true) /\
  anyRegexMatch MatchString value (r1 ++ r2) =
    anyRegexMatch MatchString value r1 || anyRegexMatch MatchString value r2 /\
  (r1 ≡ₚ r2 ->
   anyRegexMatch MatchString value r1 = anyRegexMatch MatchString value r2).
Proof.
  split_and!.
  - done.
  - apply anyRegexMatch_true.
  - apply anyRegexMatch_app.
  - apply anyRegexMatch_perm.
Qed.

(** X2. Filtering by two pattern lists one after the other is filtering
    by the two lists appended, in either order; filtering twice by the
    same list is filtering once; no pattern at all keeps every name; the
    result is never longer than the input, and it is the input exactly
    when no name is matched. *)
Theorem filtering_composes_and_is_idempotent
    (taskList : list string) (r1 r2 : list Regexp) :
  filterIgnoredTasks MatchString taskList (r1 ++ r2) =
    filterIgnoredTasks MatchString
      (filterIgnoredTasks MatchString taskList r1) r2 /\
  filterIgnoredTasks MatchString
    (filterIgnoredTasks MatchString taskList r1) r2 =
    filterIgnoredTasks MatchString
      (filterIgnoredTasks MatchString taskList r2) r1 /\
  filterIgnoredTasks MatchString
    (filterIgnoredTasks MatchString taskList r1) r1 =
    filterIgnoredTasks MatchString taskList r1 /\
  filterIgnoredTasks MatchString taskList [] = taskList /\
  (length (filterIgnoredTasks MatchString taskList r1) <= length taskList)%nat /\
  (filterIgnoredTasks MatchString taskList r1 = taskList <->
   Forall (fun t => anyRegexMatch MatchString t r1 = false) taskList).
Proof.
  rewrite !filterIgnoredTasks_any, !filter_filter_and.
  split_and!.
  - apply List.filter_ext. intros t. rewrite anyRegexMatch_app.
    by destruct (anyRegexMatch MatchString t r1),
                (anyRegexMatch MatchString t r2).
  - apply List.filter_ext. intros t.
    by destruct (anyRegexMatch MatchString t r1),
                (anyRegexMatch MatchString t r2).
  - apply List.filter_ext. intros t.
    by destruct (anyRegexMatch MatchString t r1).
  - simpl. by apply filter_id_iff, Forall_true.
  - apply List.filter_length_le.
  - rewrite filter_id_iff. apply Forall_iff. intros t.
    by destruct (anyRegexMatch MatchString t r1).
Qed.

End MatchingFacts.

(** ** Compiling the ignore patterns *)

Section MoreCompileFacts.

Context {Regexp : Type}.
Variable regexp_Compile : string -> result Regexp.

Lemma createRegexpLoop_acc (filePatterns : list string)
    (tasksToIgnore : list Regexp) :
  createRegexpLoop regexp_Compile filePatterns tasksToIgnore =
  match createRegexpFromStrings regexp_Compile filePatterns with
  | Ok res => Ok (tasksToIgnore ++ res)
  | Err e => Err e
  end.
Proof.
  rewrite createRegexpLoop_spec, createRegexpFromStrings_spec.
  by destruct (spec_Compile _ _ _).
Qed.

Lemma createRegexpLoop_app (ps qs : list string) (acc : list Regexp) :
  createRegexpLoop regexp_Compile (ps ++ qs) acc =
  match createRegexpLoop regexp_Compile ps acc with
  | Ok res => createRegexpLoop regexp_Compile qs res
  | Err e => Err e
  end.
Proof.
  revert acc. induction ps as [|p ps IH]; intros acc; simpl; [done|].
  case_bool_decide; [|apply IH].
  destruct (regexp_Compile (strings_Trim p " ")); [apply IH|done].
Qed.

Lemma createRegexpLoop_length (ps : list string) (acc res : list Regexp) :
  createRegexpLoop regexp_Compile ps acc = Ok res ->
  (length res <= length acc + length ps)%nat.
Proof.
  revert acc. induction ps as [|p ps IH]; intros acc; simpl.
  - intros [= <-]. lia.
  - case_bool_decide.
    + destruct (regexp_Compile (strings_Trim p " ")); [|done].
      intros Hres%IH. rewrite length_app in Hres. simpl in Hres. lia.
    + intros Hres%IH. lia.
Qed.

(** X3. Compiling an appended pattern list is compiling its two parts
    one after the other: the matchers of the first part followed by those
    of the second, or the error of the first part that fails, the second
    part not being looked at after a failure in the first.  The empty
    list compiles to no matcher, and there are never more matchers than
    patterns. *)
Theorem pattern_compilation_composes_over_append (ps qs : list string) :
  createRegexpFromStrings regexp_Compile (ps ++ qs) =
    match createRegexpFromStrings regexp_Compile ps with
    | Err e => Err e
    | Ok r1 =>
        match createRegexpFromStrings regexp_Compile qs with
        | Err e => Err e
        | Ok r2 => Ok (r1 ++ r2)
        end
    end /\
  createRegexpFromStrings regexp_Compile [] = Ok [] /\
  (forall res,
     createRegexpFromStrings regexp_Compile ps = Ok res ->
     (length res <= length ps)%nat).
Proof.
  split_and!.
  - unfold createRegexpFromStrings at 1 2. rewrite createRegexpLoop_app.
    destruct (createRegexpLoop regexp_Compile ps []) as [r1|e]; [|done].
    apply createRegexpLoop_acc.
  - done.
  - intros res Hres. by apply createRegexpLoop_length in Hres.
Qed.

End MoreCompileFacts.

(** ** The rollup as a whole *)

(** The sum of [g] over the values of a map. *)
Lemma mass_insert `{Countable K} {A} (g : A -> nat) (m : gmap K A) k v :
  (map_fold (fun _ x acc => g x + acc) O (<[k:=v]> m)
   + from_option g O (m !! k) =
   g v + map_fold (fun _ x acc => g x + acc) O m)%nat.
Proof.
  destruct (m !! k) as [x|] eqn:Hk; simpl.
  - rewrite <- (insert_delete_eq m k v).
    rewrite <- (insert_delete_id m k x) at 2 by done.
    rewrite !map_fold_insert_L; try (by rewrite lookup_delete_eq);
      try (intros; lia).
  - rewrite map_fold_insert_L; [lia|intros; lia|done].
Qed.

Lemma innerTaskCount_insert (inner : gmap string (list string)) k v :
  (innerTaskCount (<[k:=v]> inner) + length (default [] (inner !! k)) =
   length v + innerTaskCount inner)%nat.
Proof.
  unfold innerTaskCount.
  rewrite <- (mass_insert (length (A:=string)) inner k v).
  by destruct (inner !! k).
Qed.

Lemma rollupTaskCount_rollupStep (rollup : dailyStatsRollup) stat :
  rollupTaskCount (rollupStep rollup stat) =
  (length (stats.Tasks stat) + rollupTaskCount rollup)%nat.
Proof.
  rewrite rollupStep_insert.
  pose proof (mass_insert innerTaskCount rollup (stats.Day stat)
                (<[stats.Requester stat :=
                     bucket rollup (stats.Day stat) (stats.Requester stat)
                     ++ stats.Tasks stat]>
                   (default ∅ (rollup !! stats.Day stat)))) as Houter.
  pose proof (innerTaskCount_insert (default ∅ (rollup !! stats.Day stat))
                (stats.Requester stat)
                (bucket rollup (stats.Day stat) (stats.Requester stat)
                 ++ stats.Tasks stat)) as Hinner.
  rewrite length_app in Hinner.
  assert (bucket rollup (stats.Day stat) (stats.Requester stat) =
          default [] (default ∅ (rollup !! stats.Day stat)
                        !! stats.Requester stat)) as Hb.
  { unfold bucket. destruct (rollup !! stats.Day stat); simpl; [done|].
    by rewrite lookup_empty. }
  assert (from_option innerTaskCount O (rollup !! stats.Day stat) =
          innerTaskCount (default ∅ (rollup !! stats.Day stat))) as Hd.
  { by destruct (rollup !! stats.Day stat). }
  unfold rollupTaskCount. rewrite Hd in Houter. rewrite <- Hb in Hinner.
  lia.
Qed.

Lemma rollupTaskCount_fold units (rollup : dailyStatsRollup) :
  rollupTaskCount (fold_left rollupStep units rollup) =
  (unitsTaskCount units + rollupTaskCount rollup)%nat.
Proof.
  revert rollup. induction units as [|u rest IH]; intros rollup; simpl.
  - done.
  - rewrite IH, rollupTaskCount_rollupStep. lia.
Qed.

Lemma day_rollupStep (rollup : dailyStatsRollup) stat day :
  is_Some (rollupStep rollup stat !! day) <->
  is_Some (rollup !! day) \/ stats.Day stat = day.
Proof.
  rewrite rollupStep_insert.
  destruct (decide (stats.Day stat = day)) as [<-|Hd].
  - rewrite lookup_insert_eq. split; [by right|by eexists].
  - rewrite lookup_insert_ne by done. tauto.
Qed.

Lemma day_fold units (rollup : dailyStatsRollup) day :
  is_Some (fold_left rollupStep units rollup !! day) <->
  is_Some (rollup !! day) \/ exists u, In u units /\ stats.Day u = day.
Proof.
  revert rollup. induction units as [|u rest IH]; intros rollup; simpl.
  - split; [by left|]. intros [?|(? & [] & _)]; done.
  - rewrite IH, day_rollupStep. split.
    + intros [[?|?]|(u' & ? & ?)]; [by left|right; exists u; tauto|].
      right; exists u'; tauto.
    + intros [?|(u' & [<-|?] & ?)]; [tauto|tauto|].
      right; exists u'; tauto.
Qed.

Lemma inner_nonempty_rollupStep (rollup : dailyStatsRollup) stat :
  (forall day inner, rollup !! day = Some inner -> inner <> ∅) ->
  forall day inner, rollupStep rollup stat !! day = Some inner -> inner <> ∅.
Proof.
  intros Hinv day inner. rewrite rollupStep_insert.
  destruct (decide (stats.Day stat = day)) as [<-|Hd].
  - rewrite lookup_insert_eq. intros [= <-]. apply insert_non_empty.
  - rewrite lookup_insert_ne by done. apply Hinv.
Qed.

Lemma inner_nonempty_fold units (rollup : dailyStatsRollup) :
  (forall day inner, rollup !! day = Some inner -> inner <> ∅) ->
  forall day inner,
    fold_left rollupStep units rollup !! day = Some inner -> inner <> ∅.
Proof.
  revert rollup. induction units as [|u rest IH]; intros rollup Hinv; simpl.
  - done.
  - apply IH. by apply inner_nonempty_rollupStep.
Qed.

Lemma rollupStep_view (rollup : dailyStatsRollup) u1 u2 :
  rollupView u1 = rollupView u2 -> rollupStep rollup u1 = rollupStep rollup u2.
Proof. unfold rollupView, rollupStep. by intros [= -> -> ->]. Qed.

Lemma fold_rollupStep_view units1 units2 (rollup : dailyStatsRollup) :
  map rollupView units1 = map rollupView units2 ->
  fold_left rollupStep units1 rollup = fold_left rollupStep units2 rollup.
Proof.
  revert units2 rollup.
  induction units1 as [|u1 rest1 IH]; intros [|u2 rest2] rollup; try done.
  simpl. intros [= Hu Hrest]. unfold rollupView in Hu.
  rewrite (rollupStep_view rollup u1 u2) by (unfold rollupView; congruence).
  by apply IH.
Qed.

(** X4. The rollup neither loses nor duplicates a task name: the number
    of names over all of its buckets is the number of names over all the
    units it was folded from. *)
Theorem rollup_holds_as_many_names_as_the_units
    (hourlyStats : list stats.StatsToUpdate) :
  rollupTaskCount (buildDailyStatsRollup hourlyStats) =
  unitsTaskCount hourlyStats.
Proof.
  unfold buildDailyStatsRollup. rewrite rollupTaskCount_fold.
  unfold rollupTaskCount at 1. rewrite map_fold_empty. lia.
Qed.

(** X5. The outer keys of the rollup are the days of the units; no day
    is left with an empty requester map; the rollup is empty only for no
    unit at all; and the rollup reads nothing of a unit but its day, its
    requester and its task names, so that units differing in project or
    hour fold to the same rollup. *)
Theorem rollup_has_a_day_for_each_unit_and_no_empty_day
    (hourlyStats : list stats.StatsToUpdate) :
  (forall day,
     is_Some (buildDailyStatsRollup hourlyStats !! day) <->
     exists u, In u hourlyStats /\ stats.Day u = day) /\
  (forall day inner,
     buildDailyStatsRollup hourlyStats !! day = Some inner -> inner <> ∅) /\
  (buildDailyStatsRollup hourlyStats = ∅ <-> hourlyStats = []) /\
  (forall others,
     map rollupView others = map rollupView hourlyStats ->
     buildDailyStatsRollup others = buildDailyStatsRollup hourlyStats).
Proof.
  assert (forall day,
            is_Some (buildDailyStatsRollup hourlyStats !! day) <->
            exists u, In u hourlyStats /\ stats.Day u = day) as Hdays.
  { intros day. unfold buildDailyStatsRollup. rewrite day_fold.
    rewrite lookup_empty. split; [|by right].
    intros [[? ?]|?]; done. }
  split_and!.
  - exact Hdays.
  - unfold buildDailyStatsRollup. apply inner_nonempty_fold.
    intros day inner. by rewrite lookup_empty.
  - split.
    + intros Hempty. destruct hourlyStats as [|u rest]; [done|].
      exfalso.
      assert (is_Some (buildDailyStatsRollup (u :: rest) !! stats.Day u))
        as [inner Hin].
      { apply Hdays. exists u. split; [by left|done]. }
      rewrite Hempty, lookup_empty in Hin. done.
    + by intros ->.
  - intros others Hview. by apply fold_rollupStep_view.
Qed.

(** ** The sync target, run after run *)

Lemma maxSyncDuration_pos : 0 < maxSyncDuration.
Proof. done. Qed.

Lemma checkpointAfter_S n now lastProcessed :
  checkpointAfter (S n) now lastProcessed =
  Z.min now (lastProcessed + Z.of_nat (S n) * maxSyncDuration).
Proof.
  pose proof maxSyncDuration_pos as Hpos.
  induction n as [|n IH].
  - unfold checkpointAfter. simpl. rewrite syncTarget_min. lia.
  - unfold checkpointAfter in *. rewrite Nat.iter_succ, IH, syncTarget_min.
    rewrite (Nat2Z.inj_succ (S n)). lia.
Qed.

(** X6. Successive runs under one clock reading close a backlog one week
    at a time: after [n] runs, one at least, the checkpoint is the smaller
    of the clock reading and the first checkpoint plus [n] weeks, so that
    a backlog of at most [n] weeks is closed by [n] runs and a checkpoint
    ahead of the clock is brought back to it by the first run.  A run
    leaves the checkpoint where it was exactly when it was the clock
    reading, and once there it stays. *)
Theorem checkpoint_catches_up_one_week_per_run
    {W : Type} `{GoRuntime W} (n : nat) (lastProcessed : Time) (w : W) :
  let now := (time_Now w).2 in
  outcomeOf (findTargetTimeForSync lastProcessed) w =
    Done (checkpointAfter 1 now lastProcessed) /\
  checkpointAfter (S n) now lastProcessed =
    Z.min now (lastProcessed + Z.of_nat (S n) * maxSyncDuration) /\
  (now - lastProcessed <= Z.of_nat (S n) * maxSyncDuration ->
   checkpointAfter (S n) now lastProcessed = now) /\
  (now < lastProcessed -> checkpointAfter 1 now lastProcessed = now) /\
  (syncTarget now lastProcessed = lastProcessed <-> lastProcessed = now) /\
  checkpointAfter n now now = now.
Proof.
  intros now. pose proof maxSyncDuration_pos as Hpos.
  split_and!.
  - unfold outcomeOf. by rewrite run_findTargetTimeForSync.
  - apply checkpointAfter_S.
  - intros Hle. rewrite checkpointAfter_S. lia.
  - intros Hlt. rewrite checkpointAfter_S. lia.
  - rewrite syncTarget_min. lia.
  - destruct n as [|n]; [done|]. rewrite checkpointAfter_S. lia.
Qed.

(** ** Loops that end normally *)

Section LoopFacts.

Context {W E X : Type}.

Lemma bind_call_events {A B} (f : W -> W * A) (k : A -> M W E X B) w :
  eventsOf (bind (call f) k) w = eventsOf (k (f w).2) (f w).1.
Proof. by rewrite events_bind, events_call, outcome_call, world_call. Qed.

Lemma bind_call_outcome {A B} (f : W -> W * A) (k : A -> M W E X B) w :
  outcomeOf (bind (call f) k) w = outcomeOf (k (f w).2) (f w).1.
Proof. by rewrite outcome_bind, outcome_call, world_call. Qed.

(** A loop that ends normally has run its body, to a normal end, on
    every element. *)
Lemma forEach_done {A} (xs : list A) (body : A -> M W E X unit) w :
  outcomeOf (forEach xs body) w = Done tt ->
  forall x, In x xs ->
    exists wx,
      outcomeOf (body x) wx = Done tt /\
      forall ev, In ev (eventsOf (body x) wx) ->
                 In ev (eventsOf (forEach xs body) w).
Proof.
  revert w. induction xs as [|y xs IH]; intros w Hdone x Hin; [done|].
  simpl in Hdone. rewrite outcome_bind in Hdone. simpl.
  destruct (outcomeOf (body y) w) as [[]|e|] eqn:Hy; try done.
  destruct Hin as [->|Hin].
  - exists w. split; [done|]. intros ev Hev.
    rewrite events_bind. apply in_app_iff. by left.
  - destruct (IH _ Hdone x Hin) as (wx & Hx & Hevs).
    exists wx. split; [done|]. intros ev Hev.
    rewrite events_bind, Hy. apply in_app_iff. right. by apply Hevs.
Qed.

End LoopFacts.

(** ** More on the dispatch *)

Section MoreDispatchFacts.

Context {W : Type} `{GoRuntime W}.
Context {Regexp : Type}.
Variable MatchString : Regexp -> string -> bool.

Implicit Types (c : @cacheHistoricalJobContext Regexp).

Lemma dispatch_events c units (fns : @generateFunctions W) (w : W) :
  Forall
    (fun ev =>
       hourlyEvent MatchString (JobTime c) (TasksToIgnore c) units ev \/
       dailyEvent MatchString (ProjectId c) (JobTime c) (TasksToIgnore c)
         (buildDailyStatsRollup units) ev)
    (eventsOf (updateHourlyAndDailyStats MatchString c units fns) w).
Proof.
  rewrite events_updateHourlyAndDailyStats. apply Forall_app. split.
  - eapply Forall_impl; [apply Emits_hourlyStage|]. intros ev Hev. by left.
  - destruct (outcomeOf (hourlyStage _ _ _ _) w); [|constructor..].
    eapply Forall_impl; [apply Emits_dailyStage|]. intros ev Hev. by right.
Qed.

Lemma spec_Filter_In (tasksToIgnore : list Regexp) units u :
  In u units ->
  filterIgnoredTasks MatchString (stats.Tasks u) tasksToIgnore <> [] ->
  In (filterUnit MatchString tasksToIgnore u)
    (spec_Filter MatchString tasksToIgnore units).
Proof.
  intros Hin Hne. unfold spec_Filter. apply filter_In. split.
  - by apply in_map.
  - simpl. rewrite <- filterIgnoredTasks_existsb.
    by destruct (filterIgnoredTasks _ _ _).
Qed.

Lemma dispatch_nothing_left c units (fns : @generateFunctions W) (w : W) :
  spec_Filter MatchString (TasksToIgnore c) units = [] ->
  eventsOf (updateHourlyAndDailyStats MatchString c units fns) w = [] /\
  outcomeOf (updateHourlyAndDailyStats MatchString c units fns) w = Done tt.
Proof.
  intros Hnone.
  assert (eventsOf (updateHourlyAndDailyStats MatchString c units fns) w = [])
    as Hevs.
  { pose proof (dispatch_events c units fns w) as Hall.
    destruct (eventsOf _ w) as [|ev evs]; [done|]. exfalso.
    apply Forall_inv in Hall as [Hh|Hd].
    - destruct Hh as (cl & u & _ & _ & Hin & _ & _ & _ & _ & Htasks & Hne).
      rewrite Htasks in Hne.
      pose proof (spec_Filter_In _ _ _ Hin Hne) as Hleft.
      by rewrite Hnone in Hleft.
    - destruct Hd as (cl & _ & _ & _ & _ & _ & Htasks & Hne).
      rewrite <- bucket_spec_Filter, Hnone in Htasks.
      rewrite bucket_buildDailyStatsRollup in Htasks. done. }
  split; [done|].
  pose proof (FailFast_updateHourlyAndDailyStats MatchString c units fns w)
    as Hff.
  rewrite Hevs in Hff.
  destruct (outcomeOf _ w) as [[]|e|]; simpl in Hff; [done| |done].
  destruct Hff as (pre & cl & _ & Hcalls & _). by destruct pre.
Qed.

Lemma bucket_nonempty (rollup : dailyStatsRollup) day requester :
  bucket rollup day requester <> [] ->
  exists inner,
    rollup !! day = Some inner /\
    inner !! requester = Some (bucket rollup day requester).
Proof.
  unfold bucket. destruct (rollup !! day) as [inner|]; simpl; [|done].
  destruct (inner !! requester) as [tasks|] eqn:Hr; simpl; [|done].
  intros _. by exists inner.
Qed.

Lemma iteratorOverDailyStats_done c (dailyStats : dailyStatsRollup)
    (fn : @generateStatsFn W) name (w : W) day requester :
  outcomeOf (iteratorOverDailyStats MatchString c dailyStats fn name) w
    = Done tt ->
  filterIgnoredTasks MatchString (bucket dailyStats day requester)
    (TasksToIgnore c) <> [] ->
  In (EvGenerate
        (mkGenCall Daily name (ProjectId c) requester day
           (filterIgnoredTasks MatchString (bucket dailyStats day requester)
              (TasksToIgnore c))
           (JobTime c) None))
    (eventsOf (iteratorOverDailyStats MatchString c dailyStats fn name) w).
Proof.
  intros Hdone Hne.
  destruct (bucket_nonempty dailyStats day requester) as (inner & Hday & Hreq).
  { intros Hnil. by rewrite Hnil in Hne. }
  unfold iteratorOverDailyStats in *.
  rewrite bind_call_outcome in Hdone. rewrite bind_call_events.
  destruct (forEach_done _ _ _ Hdone (day, inner)) as (w1 & Hdone1 & Hevs1).
  { apply list_elem_of_In. rewrite (map_range_perm _ _ dailyStats w).
    by apply elem_of_map_to_list. }
  apply Hevs1. clear Hevs1 Hdone.
  rewrite bind_call_outcome in Hdone1. rewrite bind_call_events.
  destruct (forEach_done _ _ _ Hdone1
              (requester, bucket dailyStats day requester))
    as (w2 & Hdone2 & Hevs2).
  { apply list_elem_of_In. rewrite (map_range_perm _ _ inner w1).
    by apply elem_of_map_to_list. }
  apply Hevs2. clear Hevs2 Hdone1.
  rewrite nonempty_length in *.
  destruct (filterIgnoredTasks _ _ _) as [|t ts] eqn:Htasks; [done|].
  simpl in *. rewrite outcome_generate in Hdone2. rewrite events_generate.
  destruct (fn _ _ _ _ _ w2).2; [done|]. by left.
Qed.

(** X7. When the filter leaves no unit with a task name (no unit was
    fetched, or every name of every unit is ignored), the dispatch calls
    no generator, whatever the table of generators, and ends normally. *)
Theorem dispatch_with_nothing_left_calls_no_generator
    c (statsToUpdate : list stats.StatsToUpdate)
    (generateFns : @generateFunctions W) (w : W) :
  spec_Filter MatchString (TasksToIgnore c) statsToUpdate = [] ->
  eventsOf
    (updateHourlyAndDailyStats MatchString c statsToUpdate generateFns) w = [] /\
  outcomeOf
    (updateHourlyAndDailyStats MatchString c statsToUpdate generateFns) w
    = Done tt.
Proof. apply dispatch_nothing_left. Qed.

(** X8. A dispatch that ends normally has called every daily generator
    of the table on every key of the rollup whose bucket keeps a name
    after filtering: with the job's project, the key's requester and day,
    the filtered bucket and the job time, and with success. *)
Theorem successful_dispatch_calls_each_daily_generator_on_each_bucket
    c (statsToUpdate : list stats.StatsToUpdate)
    (generateFns : @generateFunctions W) (w : W)
    (name : string) (fn : @generateStatsFn W)
    (day : Time) (requester : string) :
  outcomeOf
    (updateHourlyAndDailyStats MatchString c statsToUpdate generateFns) w
    = Done tt ->
  DailyFns generateFns !! name = Some fn ->
  filterIgnoredTasks MatchString
    (bucket (buildDailyStatsRollup statsToUpdate) day requester)
    (TasksToIgnore c) <> [] ->
  In (mkGenCall Daily name (ProjectId c) requester day
        (filterIgnoredTasks MatchString
           (bucket (buildDailyStatsRollup statsToUpdate) day requester)
           (TasksToIgnore c))
        (JobTime c) None)
    (genCalls
       (eventsOf
          (updateHourlyAndDailyStats MatchString c statsToUpdate generateFns)
          w)).
Proof.
  intros Hdone Hfn Hne. apply genCalls_In.
  rewrite events_updateHourlyAndDailyStats.
  unfold updateHourlyAndDailyStats in Hdone. rewrite outcome_bind in Hdone.
  destruct (outcomeOf (hourlyStage _ _ _ _) w) as [[]|e|]; try done.
  apply in_app_iff. right.
  unfold dailyStage in *.
  rewrite bind_call_outcome in Hdone. rewrite bind_call_events.
  destruct (forEach_done _ _ _ Hdone (name, fn)) as (w1 & Hdone1 & Hevs1).
  { apply list_elem_of_In.
    rewrite (map_range_perm _ _ (DailyFns generateFns) _).
    by apply elem_of_map_to_list. }
  apply Hevs1. by apply iteratorOverDailyStats_done.
Qed.

End MoreDispatchFacts.

(** X7, on a unit whose only task name is ignored. *)
Lemma dispatch_with_nothing_left_calls_no_generator_witness :
  let unit := stats.mkStatsToUpdate "p" "patch" (10 * Hour) 0 ["gen_x"] in
  let w0 := Sample.mkWorld (days 1) 0 0 [] false [unit] "" in
  let c := mkJobContext "p" (days 1) [Sample.mkPattern true "gen_"] in
  eventsOf
    (updateHourlyAndDailyStats Sample.MatchString c [unit] Sample.threeHourly)
    w0 = [] /\
  outcomeOf
    (updateHourlyAndDailyStats Sample.MatchString c [unit] Sample.threeHourly)
    w0 = Done tt.
Proof.
  intros unit w0 c.
  apply (dispatch_with_nothing_left_calls_no_generator
           Sample.MatchString c [unit] Sample.threeHourly w0).
  reflexivity.
Defined.

(** X8, on one unit and the table of [Run]. *)
Lemma successful_dispatch_calls_each_daily_generator_on_each_bucket_witness :
  let unit := stats.mkStatsToUpdate "q" "patch" (10 * Hour) 0 ["t1"; "gen_x"] in
  let w0 := Sample.mkWorld (days 1) 0 0 [] false [unit] "" in
  let c := mkJobContext "p" (days 1) [Sample.mkPattern true "gen_"] in
  In (mkGenCall Daily "task" "p" "patch" 0 ["t1"] (days 1) None)
    (genCalls
       (eventsOf
          (updateHourlyAndDailyStats Sample.MatchString c [unit]
             (generateMap Sample.jobEnv))
          w0)).
Proof.
  intros unit w0 c.
  apply (successful_dispatch_calls_each_daily_generator_on_each_bucket
           Sample.MatchString c [unit] (generateMap Sample.jobEnv) w0
           "task" Sample.generator 0 "patch").
  - reflexivity.
  - reflexivity.
  - vm_compute. discriminate.
Defined.

(** ** More on [Run] *)

Section MoreRunFacts.

Context {W : Type} `{GoRuntime W}.
Context {Regexp : Type}.
Variable regexp_Compile : string -> result Regexp.
Variable MatchString : Regexp -> string -> bool.
Variable env : @JobEnv W.

Lemma dispatch_callOfJob p jobTime (res : list Regexp) units
    (fns : @generateFunctions W) (w5 : W) evs from to :
  In (EvFindStatsToUpdate p from to (Ok units)) evs ->
  Forall (callOfJob p evs)
    (eventsOf
       (updateHourlyAndDailyStats MatchString (mkJobContext p jobTime res)
          units fns) w5).
Proof.
  intros Hfetch.
  eapply Forall_impl; [apply dispatch_events|]. intros ev [Hh|Hd].
  - destruct Hh as (cl & u & -> & Hstage & Hin & Hp & Hr & Ht & _).
    simpl. exists from, to, units, u. by rewrite Hstage.
  - destruct Hd as (cl & -> & Hstage & Hp & _ & Hkey & _).
    apply hasKey_buildDailyStatsRollup in Hkey as (u & Hin & Hday & Hreq).
    simpl. exists from, to, units, u. by rewrite Hstage.
Qed.

Lemma dispatch_timedBy lastProcessed p jobTime now (res : list Regexp) units
    (fns : @generateFunctions W) (w5 : W) :
  Forall (timedBy lastProcessed jobTime now)
    (eventsOf
       (updateHourlyAndDailyStats MatchString (mkJobContext p jobTime res)
          units fns) w5).
Proof.
  eapply Forall_impl; [apply dispatch_events|]. intros ev [Hh|Hd].
  - by destruct Hh as (cl & u & -> & _ & _ & _ & _ & _ & Hjd & _).
  - by destruct Hd as (cl & -> & _ & _ & Hjd & _).
Qed.

Lemma dispatch_failed_last (c : @cacheHistoricalJobContext Regexp) units
    (fns : @generateFunctions W) (w5 : W) e :
  outcomeOf (updateHourlyAndDailyStats MatchString c units fns) w5 = Failed e ->
  exists pre cl e0,
    eventsOf (updateHourlyAndDailyStats MatchString c units fns) w5 =
      pre ++ [EvGenerate cl] /\
    gc_err cl = Some e0 /\ e = ErrWrap e0 (stageMsg (gc_stage cl)).
Proof.
  intros Hout.
  pose proof (FailFast_updateHourlyAndDailyStats MatchString c units fns w5)
    as Hff.
  rewrite Hout in Hff. destruct Hff as (pre & cl & e0 & Hcalls & _ & Hc & ->).
  exists (map EvGenerate pre), cl, e0. split; [|done].
  rewrite (genCalls_generate (eventsOf _ w5))
    by apply dispatch_only_generates.
  by rewrite Hcalls, map_app.
Qed.

(** X9. Every call of a run is made on behalf of the job's project: the
    checkpoint, the project reference, the units and the checkpoint update
    are asked for by the job's project identifier; a daily generator is
    called with that identifier and the day and requester of a fetched
    unit; an hourly generator is called with the project, requester and
    hour that a fetched unit carries. *)
Theorem every_call_of_a_run_is_made_for_the_job (p : string) (w : W) :
  let evs := eventsOf (Run regexp_Compile MatchString env p) w in
  Forall (callOfJob p evs) evs.
Proof.
  intros evs. subst evs.
  generalize (Run_path regexp_Compile MatchString env p w).
  generalize (eventsOf (Run regexp_Compile MatchString env p) w)
             (outcomeOf (Run regexp_Compile MatchString env p) w).
  intros evs o Hp. destruct Hp; try (by repeat constructor).
  - apply Forall_app. split; [by repeat constructor|].
    apply dispatch_callOfJob with (from := from) (to := to).
    apply in_app_iff. left. simpl. tauto.
  - apply Forall_app. split; [by repeat constructor|].
    apply Forall_app. split; [|by repeat constructor].
    apply dispatch_callOfJob with (from := from) (to := to).
    apply in_app_iff. left. simpl. tauto.
Qed.

(** X10. A run reads the clock twice, right after the ignore patterns
    are compiled: the first reading is the job date that every generator
    call and the checkpoint update are given, the second is the one the
    end of the window is computed from, for the fetch and for the
    checkpoint update alike; and the window starts at the checkpoint that
    was loaded.  A run that cannot load the checkpoint makes no other
    call. *)
Theorem job_date_and_window_end_come_from_two_clock_readings
    (p : string) (w : W) :
  let evs := eventsOf (Run regexp_Compile MatchString env p) w in
  let w1 := (stats_GetStatsStatus env p w).1 in
  let w2 := (model_FindOneProjectRef env p w1).1 in
  let jobTime := (time_Now w2).2 in
  let now := (time_Now (time_Now w2).1).2 in
  match (stats_GetStatsStatus env p w).2 with
  | Ok st => Forall (timedBy (stats.ProcessedTasksUntil st) jobTime now) evs
  | Err e => evs = [EvGetStatsStatus p (Err e)]
  end.
Proof.
  intros evs. subst evs.
  generalize (Run_path regexp_Compile MatchString env p w).
  generalize (eventsOf (Run regexp_Compile MatchString env p) w)
             (outcomeOf (Run regexp_Compile MatchString env p) w).
  intros evs o Hp.
  destruct Hp; try destruct Hprep; simpl; rewrite Hstatus; simpl;
    try rewrite Href; simpl; try rewrite HjobTime; simpl;
    try rewrite Hnow; simpl; try (by repeat constructor).
  - repeat (constructor; [done|]). apply dispatch_timedBy.
  - repeat (constructor; [done|]).
    apply Forall_app. split; [apply dispatch_timedBy|by repeat constructor].
Qed.

(** X11. How a run ends is decided by the last call it made.  A run
    makes at least one call.  It ends normally exactly after a checkpoint
    update that returned nil; it panics exactly after a project reference
    lookup that returned neither a reference nor an error; otherwise it
    ends with the error of its last call (for a project reference that
    was found: the error of the pattern compilation), wrapped in the
    message of the step.  An error of a daily generator, too, is reported
    as an error generating hourly test stats. *)
Theorem a_run_ends_as_its_last_call_decides (p : string) (w : W) :
  let evs := eventsOf (Run regexp_Compile MatchString env p) w in
  let o := outcomeOf (Run regexp_Compile MatchString env p) w in
  match last evs with
  | Some ev => endsAfter regexp_Compile ev o
  | None => False
  end.
Proof.
  intros evs o. subst evs o.
  generalize (Run_path regexp_Compile MatchString env p w).
  generalize (eventsOf (Run regexp_Compile MatchString env p) w)
             (outcomeOf (Run regexp_Compile MatchString env p) w).
  intros evs o Hp. destruct Hp; try done.
  - simpl. by exists e.
  - subst dispatch.
    destruct (dispatch_failed_last _ _ _ _ _ Hout)
      as (pre & cl & e0 & -> & Hcl & ->).
    rewrite app_assoc, last_snoc. simpl. by exists e0.
  - rewrite !app_assoc, last_snoc. simpl. by destruct err.
Qed.

(** X12. A run that fetched units of which the filter leaves nothing
    (none were fetched, or all their task names are ignored) calls no
    generator and still moves the checkpoint to the end of the window:
    its calls are the checkpoint load, the project reference lookup, the
    fetch and the checkpoint update. *)
Theorem run_with_nothing_left_still_moves_the_checkpoint
    (p : string) (w : W) (q q' : string) (ref : model.ProjectRef)
    (res : list Regexp) (lower upper : Time)
    (units : list stats.StatsToUpdate) :
  let evs := eventsOf (Run regexp_Compile MatchString env p) w in
  In (EvFindOneProjectRef q (Ok (Some ref))) evs ->
  createRegexpFromStrings regexp_Compile (model.FilesIgnoredFromCache ref)
    = Ok res ->
  In (EvFindStatsToUpdate q' lower upper (Ok units)) evs ->
  spec_Filter MatchString res units = [] ->
  genCalls evs = [] /\ checkpointUpdates evs = [upper] /\
  length evs = 4%nat.
Proof.
  intros evs. subst evs.
  generalize (Run_path regexp_Compile MatchString env p w).
  generalize (eventsOf (Run regexp_Compile MatchString env p) w)
             (outcomeOf (Run regexp_Compile MatchString env p) w).
  intros evs o Hp Hrefq Hres Hfetchq Hnone.
  destruct Hp; try (simpl in Hfetchq; naive_solver);
    pose proof (Prepares_compiled _ _ _ _ _ _ _ _ _ _ Hprep) as Hcompiled;
    subst dispatch;
    rewrite ?in_app_iff in Hrefq, Hfetchq; simpl in Hrefq, Hfetchq.
  - exfalso.
    destruct Hrefq as [[|[[= <- <-]|[|[]]]]|Hin]; try done;
      [|by apply not_in_dispatch in Hin].
    destruct Hfetchq as [[|[|[[= <- <- <- <-]|[]]]]|Hin]; try done;
      [|by apply not_in_dispatch in Hin].
    assert (res0 = res) as -> by congruence.
    destruct (dispatch_nothing_left MatchString (mkJobContext p jobTime res)
                _ (generateMap env) w5 Hnone) as [_ Hdone].
    congruence.
  - destruct Hrefq as [[|[[= <- <-]|[|[]]]]|[Hin|[|[]]]]; try done;
      [|by apply not_in_dispatch in Hin].
    destruct Hfetchq as [[|[|[[= <- <- <- <-]|[]]]]|[Hin|[|[]]]]; try done;
      [|by apply not_in_dispatch in Hin].
    assert (res0 = res) as -> by congruence.
    destruct (dispatch_nothing_left MatchString (mkJobContext p jobTime res)
                _ (generateMap env) w5 Hnone) as [-> _].
    done.
Qed.

End MoreRunFacts.

(** X12, on a world whose only unit carries an ignored task name. *)
Lemma run_with_nothing_left_still_moves_the_checkpoint_witness :
  let unit := stats.mkStatsToUpdate "p" "patch" (10 * Hour) 0 ["gen_x"] in
  let w0 := Sample.mkWorld (days 1) 0 0 ["^gen_.*"] false [unit] "" in
  let evs :=
    eventsOf (Run Sample.Compile Sample.MatchString Sample.jobEnv "p") w0 in
  genCalls evs = [] /\ checkpointUpdates evs = [days 1] /\
  length evs = 4%nat.
Proof.
  intros unit w0 evs.
  apply (run_with_nothing_left_still_moves_the_checkpoint
           Sample.Compile Sample.MatchString Sample.jobEnv "p" w0 "p" "p"
           (model.mkProjectRef "p" "main" ["^gen_.*"])
           [Sample.mkPattern true "gen_"] 0 (days 1) [unit]).
  - vm_compute. tauto.
  - reflexivity.
  - vm_compute. tauto.
  - reflexivity.
Defined.

(** ** More on the manifest load handler *)

Lemma branchHeads_app evs1 evs2 :
  branchHeads (evs1 ++ evs2) = branchHeads evs1 ++ branchHeads evs2.
Proof. apply omap_app. Qed.

Lemma last_cons_some {A} (x : A) (l : list A) (f : A -> bool) :
  from_option f false (last l) = true ->
  from_option f false (last (x :: l)) = true.
Proof. rewrite last_cons. by destruct (last l). Qed.

Section MoreHandlerFacts.

Context {W : Type}.
Variable as_ : @HandlerEnv W.

Ltac handler_step :=
  match goal with
  | H : orRespond ?r _ _ _ = (_, _, _) |- _ =>
      destruct r; apply orRespond_inv in H as (? & ? & ?); simplify_eq/=
  end.

(** The module loop: what it builds and how it can end. *)
Lemma populateModules_upstream projectModules modules (w w' : W) evs o :
  populateModules as_ projectModules modules w = (w', evs, o) ->
  List.filter isUpstream evs = evs /\ tokensPaired evs = true /\
  match o with
  | Done modules' =>
      modules' = builtModules as_ projectModules (branchHeads evs) modules /\
      length (branchHeads evs) = length projectModules
  | Failed r =>
      from_option serverSide false (last evs) = true /\
      exists err, r = LoggedError StatusInternalServerError err
  | Panicked => from_option nilBranch false (last evs) = true
  end.
Proof.
  revert modules w w' evs o.
  induction projectModules as [|module rest IH]; intros modules w w' evs o Hrun.
  - simpl in Hrun. run_step. by split_and!.
  - simpl in Hrun.
    destruct (GetRepoOwnerAndName as_ module) as [owner repo] eqn:Hrepo.
    repeat (run_step || handler_step);
      try (unfold nilBranch, upstreamFailure;
           repeat match goal with
                  | Heq : _ = Some _ |- _ => rewrite Heq
                  | Heq : _ = None |- _ => rewrite Heq
                  end; simpl;
           rewrite ?String.eqb_refl; split_and!; by eauto).
    match goal with
    | Hrest : populateModules _ _ _ _ = _ |- _ =>
        destruct (IH _ _ _ _ _ Hrest) as (Hup & Htok & Ho)
    end.
    rewrite Hup, Htok, String.eqb_refl. split_and!; try done.
    unfold branchHeads. simpl.
    repeat match goal with
           | Heq : _ = Some _ |- _ => rewrite Heq
           end.
    match goal with
    | |- context [omap ?f ?l] => change (omap f l) with (branchHeads l)
    end.
    destruct o as [modules'|r0|]; simpl.
    + destruct Ho as [-> Hlen]. split; [|by rewrite Hlen].
      unfold builtModules, moduleEntry. simpl. by rewrite Hrepo.
    + destruct Ho as [Hlast Herr]. split; [|done].
      by repeat apply last_cons_some.
    + by repeat apply last_cons_some.
Qed.

Lemma builtModules_cons m pms head heads
    (acc : gmap string manifest.Module_) :
  builtModules as_ (m :: pms) (head :: heads) acc =
  builtModules as_ pms heads (<[model.Name m := moduleEntry as_ m head]> acc).
Proof. done. Qed.

Lemma builtModules_is_Some pms heads (acc : gmap string manifest.Module_)
    name :
  length heads = length pms ->
  is_Some (builtModules as_ pms heads acc !! name) <->
  is_Some (acc !! name) \/ exists m, In m pms /\ model.Name m = name.
Proof.
  revert heads acc. induction pms as [|m pms IH]; intros [|head heads] acc;
    try done; simpl.
  - intros _. unfold builtModules. simpl. naive_solver.
  - intros [= Hlen]. rewrite builtModules_cons, IH by done.
    assert (is_Some (<[model.Name m := moduleEntry as_ m head]> acc !! name)
            <-> model.Name m = name \/ is_Some (acc !! name)) as ->.
    { destruct (decide (model.Name m = name)) as [<-|Hne].
      - rewrite lookup_insert_eq. split; [by left|by eexists].
      - rewrite lookup_insert_ne by done. tauto. }
    split.
    + intros [[?|?]|(m' & ? & ?)]; [right; exists m; tauto|by left|].
      right. exists m'. tauto.
    + intros [?|(m' & [<-|?] & ?)]; [tauto|tauto|].
      right. by exists m'.
Qed.

(** After the loop, a name is mapped to the entry of the last module
    that carries it. *)
Lemma builtModules_lookup pms heads (acc : gmap string manifest.Module_)
    name e :
  length heads = length pms ->
  builtModules as_ pms heads acc !! name = Some e ->
  (exists i m head,
     pms !! i = Some m /\ heads !! i = Some head /\ model.Name m = name /\
     e = moduleEntry as_ m head /\
     forall j m', (i < j)%nat -> pms !! j = Some m' -> model.Name m' <> name)
  \/ (acc !! name = Some e /\ forall m, In m pms -> model.Name m <> name).
Proof.
  revert heads acc. induction pms as [|m pms IH]; intros [|head heads] acc;
    try done; simpl.
  - intros _ Hacc. right. split; [done|]. by intros m [].
  - intros [= Hlen]. rewrite builtModules_cons. intros Hlook.
    destruct (IH _ _ Hlen Hlook)
      as [(i & m' & head' & Hi & Hh & Hname & He & Hlater)|[Hacc Hnone]].
    + left. exists (S i), m', head'. split_and!; try done.
      intros [|j] m'' Hlt Hj; [lia|]. apply (Hlater j); [lia|done].
    + destruct (decide (model.Name m = name)) as [Heq|Hne].
      * left. exists O, m, head. rewrite <- Heq in Hacc.
        rewrite lookup_insert_eq in Hacc. injection Hacc as <-.
        split_and!; try done.
        intros [|j] m'' Hlt Hj; [lia|]. simpl in Hj.
        apply Hnone. apply list_elem_of_In. by eapply list_elem_of_lookup_2.
      * right. rewrite lookup_insert_ne in Hacc by done.
        split; [done|]. intros m' [<-|Hin]; [done|by apply Hnone].
Qed.

Lemma builtModules_spec (project : model.Project)
    (heads : list (string * string)) :
  length heads = length (model.Modules project) ->
  let modules := builtModules as_ (model.Modules project) heads ∅ in
  (forall name,
     is_Some (modules !! name) <->
     exists m, In m (model.Modules project) /\ model.Name m = name) /\
  (forall name e,
     modules !! name = Some e ->
     exists i m head,
       model.Modules project !! i = Some m /\ heads !! i = Some head /\
       model.Name m = name /\ e = moduleEntry as_ m head /\
       forall j m',
         (i < j)%nat -> model.Modules project !! j = Some m' ->
         model.Name m' <> name).
Proof.
  intros Hlen modules. subst modules. split.
  - intros name. rewrite builtModules_is_Some by done.
    rewrite lookup_empty. split; [|by right].
    intros [[? ?]|?]; done.
  - intros name e Hlook.
    destruct (builtModules_lookup _ _ _ _ _ Hlen Hlook) as [?|[Hacc _]];
      [done|].
    by rewrite lookup_empty in Hacc.
Qed.

(** X13. The manifest that the handler inserts maps module names to
    branch heads as the loop over the project's modules leaves them: one
    branch head was delivered per declared module; the names in the map
    are the names of the declared modules; and each name is mapped to the
    entry of the last declared module of that name, made of that
    module's branch, owner and repository and of the SHA and URL of the
    branch head that its query delivered. *)
Theorem inserted_manifest_maps_each_module_to_its_branch_head
    (task : Task) (w : W) :
  let evs := eventsOf (manifestLoadHandler as_ task) w in
  Forall
    (fun attempt =>
       exists project,
         resolvedProject evs = Some project /\
         length (branchHeads evs) = length (model.Modules project) /\
         manifest.Modules attempt.1 =
           builtModules as_ (model.Modules project) (branchHeads evs) ∅ /\
         (forall name,
            is_Some (manifest.Modules attempt.1 !! name) <->
            exists m, In m (model.Modules project) /\ model.Name m = name) /\
         (forall name e,
            manifest.Modules attempt.1 !! name = Some e ->
            exists i m head,
              model.Modules project !! i = Some m /\
              branchHeads evs !! i = Some head /\
              model.Name m = name /\ e = moduleEntry as_ m head /\
              forall j m',
                (i < j)%nat -> model.Modules project !! j = Some m' ->
                model.Name m' <> name))
    (insertAttempts evs).
Proof.
  intros evs. subst evs.
  destruct (manifestLoadHandler as_ task w) as [[w' evs] o] eqn:Hrun.
  unfold eventsOf. rewrite Hrun. simpl.
  unfold manifestLoadHandler in Hrun.
  repeat (run_step || handler_step);
    try match goal with
        | Hp : populateModules _ _ _ _ = _ |- _ =>
            pose proof (populateModules_trace _ _ _ _ _ _ _ Hp)
              as (_ & Hi & _ & _);
            apply populateModules_upstream in Hp as (_ & _ & Ho)
        end;
    unfold insertAttempts; rewrite ?omap_app; simpl;
    try (unfold insertAttempts in Hi; rewrite Hi); simpl;
    try (by constructor).
  all: destruct Ho as [-> Hlen];
    unfold branchHeads in *; rewrite ?omap_app; simpl; rewrite ?app_nil_r;
    constructor; [|constructor]; exists p; simpl;
    split; [done|]; split; [done|]; split; [done|];
    by apply builtModules_spec.
Qed.

(** X14. The handler fetches a token afresh for every module: every
    branch query is made with the token that the call just before it
    returned, and a token that could not be fetched is followed by no
    upstream call. *)
Theorem every_branch_query_uses_a_freshly_fetched_token
    (task : Task) (w : W) :
  tokensPaired
    (List.filter isUpstream (eventsOf (manifestLoadHandler as_ task) w))
  = true.
Proof.
  destruct (manifestLoadHandler as_ task w) as [[w' evs] o] eqn:Hrun.
  unfold eventsOf. rewrite Hrun. simpl.
  unfold manifestLoadHandler in Hrun.
  repeat (run_step || handler_step);
    try match goal with
        | Hp : populateModules _ _ _ _ = _ |- _ =>
            apply populateModules_upstream in Hp as (Hup & Htok & _)
        end;
    rewrite ?List.filter_app; simpl; rewrite ?Hup, ?app_nil_r; done.
Qed.

(** X15. How the handler answers is decided by the last call it made.
    It makes at least one call.  When it ends normally it has written a
    manifest.  When it ends early it has written an error, with status
    500 if the last call was a token fetch, a branch query or an insert
    that failed, and with status 400 after any other last call.  It
    panics only after a branch query that returned a branch without a
    commit, SHA or URL, or when the project reference lookup returned
    neither a reference nor an error. *)
Theorem handler_answer_is_decided_by_its_last_call (task : Task) (w : W) :
  let evs := eventsOf (manifestLoadHandler as_ task) w in
  let o := outcomeOf (manifestLoadHandler as_ task) w in
  match last evs with
  | None => False
  | Some ev =>
      match o with
      | Done r => exists m, r = WriteJSON m
      | Failed r =>
          exists err,
            r = LoggedError
                  (if serverSide ev then StatusInternalServerError
                   else StatusBadRequest) err
      | Panicked =>
          nilBranch ev = true \/
          In (EvProjectRef (TaskProject task) (Ok None)) evs
      end
  end.
Proof.
  intros evs o. subst evs o.
  destruct (manifestLoadHandler as_ task w) as [[w' evs] o] eqn:Hrun.
  unfold eventsOf, outcomeOf. rewrite Hrun. simpl.
  unfold manifestLoadHandler in Hrun.
  repeat (run_step || handler_step);
    try match goal with
        | Hp : populateModules _ _ _ _ = _ |- _ =>
            apply populateModules_upstream in Hp as (_ & _ & Ho)
        end;
    rewrite ?last_cons, ?last_app; simpl;
    try (by eauto);
    try match type of Ho with
        | _ /\ _ => destruct Ho as [Ho [err ->]]
        end;
    try match goal with
        | |- context [last ?l] =>
            destruct (last l) as [ev|]; simpl in *; try done;
            rewrite ?Ho; by eauto
        end.
Qed.

End MoreHandlerFacts.

(** ** The job's identifier *)

Lemma append_inj_l (s a b : string) : s +:+ a = s +:+ b -> a = b.
Proof. induction s as [|c s IH]; simpl; [done|]. intros [= Heq]. auto. Qed.

Lemma occurs_cons c d rest :
  occurs c (String d rest) = if Ascii.eqb c d then true else occurs c rest.
Proof. done. Qed.

Lemma occurs_head c rest : occurs c (String c rest) = true.
Proof. by rewrite occurs_cons, Ascii.eqb_refl. Qed.

Lemma dotted_inj (p1 p2 i1 i2 : string) :
  occurs "." p1 = false -> occurs "." p2 = false ->
  p1 +:+ "." +:+ i1 = p2 +:+ "." +:+ i2 -> p1 = p2 /\ i1 = i2.
Proof.
  revert p2. induction p1 as [|c p1 IH]; intros [|c' p2] H1 H2 Heq.
  - simpl in Heq. by injection Heq.
  - simpl in Heq. injection Heq as <- _. by rewrite occurs_head in H2.
  - simpl in Heq. injection Heq as -> _. by rewrite occurs_head in H1.
  - simpl in Heq. injection Heq as -> Heq.
    rewrite occurs_cons in H1, H2. destruct (Ascii.eqb "." c'); [done|].
    destruct (IH p2 H1 H2 Heq) as [-> ->]. done.
Qed.

(** X16. The identifier of a new job is the job type's name, the
    project and the given id, joined by dots; the job is of the
    registered type, always ready to run, and carries its project.  Two
    jobs for projects whose identifiers hold no dot have the same
    identifier only if they agree on project and id, and two jobs of one
    project only if they agree on the id; but a dot in the project
    identifier can be traded for one in the id, which yields two jobs of
    different projects with one identifier. *)
Theorem job_identifier_determines_project_and_id_unless_dotted
    (p1 i1 p2 i2 : string) :
  let j1 := NewCacheHistoricalTestDataJob p1 i1 in
  let j2 := NewCacheHistoricalTestDataJob p2 i2 in
  job.ID (Base j1) =
    cacheHistoricalTestDataName +:+ "." +:+ p1 +:+ "." +:+ i1 /\
  JobProjectId j1 = p1 /\
  job.JobType (Base j1) = job.JobType (Base makeCacheHistoricalTestDataJob) /\
  amboy.Name (job.JobType (Base j1)) = cacheHistoricalTestDataName /\
  job.Dependency (Base j1) = Some dependency.Always /\
  (occurs "." p1 = false -> occurs "." p2 = false ->
   job.ID (Base j1) = job.ID (Base j2) -> p1 = p2 /\ i1 = i2) /\
  (p1 = p2 -> job.ID (Base j1) = job.ID (Base j2) -> i1 = i2) /\
  job.ID (Base (NewCacheHistoricalTestDataJob (p1 +:+ "." +:+ p2) i1)) =
    job.ID (Base (NewCacheHistoricalTestDataJob p1 (p2 +:+ "." +:+ i1))).
Proof.
  intros j1 j2. subst j1 j2. split_and!; try done.
  - intros H1 H2 Heq. simpl in Heq. unfold sprintf_dotted in Heq.
    do 2 apply append_inj_l in Heq. by apply dotted_inj.
  - intros -> Heq. simpl in Heq. unfold sprintf_dotted in Heq.
    by do 4 apply append_inj_l in Heq.
  - simpl. unfold sprintf_dotted. f_equal.
    change (String "." (p1 +:+ "." +:+ p2 +:+ "." +:+ i1))
      with ("." +:+ (p1 +:+ "." +:+ p2 +:+ "." +:+ i1)).
    by rewrite !append_assoc.
Qed.

(** ** The migration command *)

Section MigrationFacts.

Context {W Settings Environment App : Type}.
Variable menv : @MigrationEnv W Settings Environment App.

Ltac migration_run :=
  unfold eventsOf, outcomeOf, worldOf, executeEnabled, migrate, deferring,
    bind, call, extcall, onWorld, getCommand, setMongoDBURI, orWrap,
    returnWrapped, errors_Wrap, errOf, ret, fail; simpl;
  repeat (match goal with
          | |- context [evergreen_NewSettings ?m ?p ?w] =>
              destruct (evergreen_NewSettings m p w) as [? [?|?]] eqn:?
          | |- context [settings_Validate ?m ?x ?w] =>
              destruct (settings_Validate m x w) as [? [?|]] eqn:?
          | |- context [migrations_Setup ?m ?u ?w] =>
              destruct (migrations_Setup m u w) as [? [?|?]] eqn:?
          | |- context [migrations_Application ?m ?x ?w] =>
              destruct (migrations_Application m x w) as [? [?|?]] eqn:?
          | |- context [app_Run ?m ?x ?d ?w] =>
              destruct (app_Run m x d w) as [? [?|]] eqn:?
          | |- context [env_Close ?m ?x ?w] =>
              destruct (env_Close m x w) as [? []] eqn:?
          | |- context [bool_decide ?P] => case_bool_decide
          end; simpl).

(** X18. Behind the feature switch, the deferred calls run on every
    path and in reverse order: the calls of the command are those of its
    body followed by the clean-up that is owed, the closing of the
    migration environment if it was set up and then the cancelling of the
    context if the set-up was tried at all; nothing is called after the
    clean-up, and an environment that was set up is closed whether the
    application could be configured and run or not. *)
Theorem deferred_cleanups_run_on_every_path (s : W * MigrationCommand) :
  let evs := eventsOf (executeEnabled menv) s in
  exists body,
    evs = body ++ cleanupsOwed body /\
    forallb (fun ev => negb (isCleanup ev)) body = true.
Proof.
  destruct s as [w c]. migration_run;
    match goal with
    | |- exists body, ?l = _ /\ _ =>
        exists (List.filter (fun ev => negb (isCleanup ev)) l)
    end; done.
Qed.

(** X19. Behind the feature switch, the command reads the settings from
    its configuration path, sets up the migration environment at its own
    database URI, or at the URI of the settings when its own is empty,
    and runs the application with its dry-run flag.  Once the settings
    are validated the URI that is used is also the URI the command holds
    afterwards, however the migration ends; the path and the flag are
    never changed, and a command whose settings cannot be read or
    validated is left as it was. *)
Theorem setup_uri_defaults_to_the_database_of_the_settings
    (s : W * MigrationCommand) :
  let c := s.2 in
  let evs := eventsOf (executeEnabled menv) s in
  let after := (worldOf (executeEnabled menv) s).2 in
  match (evergreen_NewSettings menv (ConfigPath c) s.1).2 with
  | Err e => evs = [EvNewSettings (ConfigPath c) (Some e)] /\ after = c
  | Ok settings =>
      let uri :=
        if bool_decide (MongoDBURI c = "")
        then settings_Database_Url menv settings else MongoDBURI c in
      Forall (migrationArgs (ConfigPath c) uri (DryRun c)) evs /\
      after =
        (if validated evs
         then mkMigrationCommand (ConfigPath c) uri (DryRun c) else c)
  end.
Proof.
  destruct s as [w c]. migration_run;
    repeat match goal with
           | |- context [bool_decide ?P] => case_bool_decide
           end;
    try done; try (split; [by repeat constructor|]);
    try done; by destruct c; simplify_eq/=.
Qed.

(** X20. Behind the feature switch, the command never panics, and how
    it ends is decided by the last call of its body: it returns nil
    exactly after an application run that returned nil, and otherwise the
    error of its last call, wrapped in the message of the step; the
    deferred calls change nothing of this. *)
Theorem migration_ends_as_its_last_body_call_decides
    (s : W * MigrationCommand) :
  let evs := eventsOf (executeEnabled menv) s in
  let o := outcomeOf (executeEnabled menv) s in
  match last (List.filter (fun ev => negb (isCleanup ev)) evs) with
  | Some ev => migrationEndsAfter ev o
  | None => False
  end.
Proof. destruct s as [w c]. migration_run; done. Qed.

End MigrationFacts.

(** ** No bucket is synced twice *)

Section LoopKeys.

Context {W E X : Type}.

(** A loop over elements with distinct indices, whose body leaves keys
    that belong to the index of its element, leaves distinct keys if each
    turn of the body does. *)
Lemma forEach_keys_NoDup {A I K} (k : E -> option K) (proj : K -> I)
    (idx : A -> I) (xs : list A) (body : A -> M W E X unit) :
  NoDup (idx <$> xs) ->
  (forall x w,
     Forall (fun key => proj key = idx x) (omap k (eventsOf (body x) w))) ->
  (forall x w, NoDup (omap k (eventsOf (body x) w))) ->
  forall w,
    NoDup (omap k (eventsOf (forEach xs body) w)) /\
    Forall (fun key => proj key ∈ idx <$> xs)
      (omap k (eventsOf (forEach xs body) w)).
Proof.
  intros Hidx Hproj Hbody.
  induction xs as [|x xs IH]; intros w.
  - split; [constructor|constructor].
  - apply NoDup_cons in Hidx as [Hx Hxs]. specialize (IH Hxs).
    simpl forEach. rewrite events_bind, omap_app.
    assert (Forall (fun key => proj key ∈ idx <$> x :: xs)
              (omap k (eventsOf (body x) w))) as Hhead.
    { eapply Forall_impl; [apply Hproj|]. intros key ->. simpl. left. }
    destruct (outcomeOf (body x) w) as [[]|e|]; simpl;
      rewrite ?app_nil_r; try (by split).
    destruct (IH (worldOf (body x) w)) as [Hnd Hin]. split.
    + apply NoDup_app. split_and!; [apply Hbody| |done].
      intros key Hkey1 Hkey2.
      pose proof (proj1 (Forall_forall _ _) (Hproj x w) key Hkey1) as Heq.
      pose proof (proj1 (Forall_forall _ _) Hin key Hkey2) as Hmem.
      apply Hx. rewrite <- Heq. exact Hmem.
    + apply Forall_app. split; [done|].
      eapply Forall_impl; [exact Hin|]. intros key Hkey. simpl. by right.
Qed.

Lemma forEach_keys_Forall {A K} (k : E -> option K) (Q : K -> Prop)
    (xs : list A) (body : A -> M W E X unit) :
  (forall x w, Forall Q (omap k (eventsOf (body x) w))) ->
  forall w, Forall Q (omap k (eventsOf (forEach xs body) w)).
Proof.
  intros Hbody. induction xs as [|x xs IH]; intros w; [constructor|].
  simpl forEach. rewrite events_bind, omap_app.
  apply Forall_app. split; [apply Hbody|].
  destruct (outcomeOf (body x) w); [apply IH|constructor..].
Qed.

End LoopKeys.

Section DailyKeys.

Context {W : Type} `{GoRuntime W}.
Context {Regexp : Type}.
Variable MatchString : Regexp -> string -> bool.

Lemma map_range_keys_NoDup `{Countable K} {A} (m : gmap K A) (w : W) :
  NoDup ((map_range m w).2.*1).
Proof. rewrite (map_range_perm _ _ m w). apply NoDup_fst_map_to_list. Qed.

Lemma dailyKeys_app evs1 evs2 :
  dailyKeys (evs1 ++ evs2) = dailyKeys evs1 ++ dailyKeys evs2.
Proof. apply omap_app. Qed.

Lemma dailyKeys_generate stage name (fn : @generateStatsFn W) p r t tasks jd
    msg (w : W) :
  dailyKeys (eventsOf (generate stage name fn p r t tasks jd msg) w) =
  match stage with Daily => [(name, t, r)] | Hourly => [] end.
Proof. rewrite events_generate. unfold dailyKeys. simpl. by destruct stage. Qed.

Lemma dailyKeys_iteratorOverDailyStats
    (c : @cacheHistoricalJobContext Regexp) (dailyStats : dailyStatsRollup)
    (fn : @generateStatsFn W) name (w : W) :
  NoDup (dailyKeys
           (eventsOf (iteratorOverDailyStats MatchString c dailyStats fn name)
              w)) /\
  Forall (fun key => key.1.1 = name)
    (dailyKeys
       (eventsOf (iteratorOverDailyStats MatchString c dailyStats fn name) w)).
Proof.
  unfold iteratorOverDailyStats. rewrite bind_call_events.
  set (inner := fun '(day, stats) => _).
  assert (forall x w1,
            NoDup (omap dailyKey (eventsOf (inner x) w1)) /\
            Forall (fun key => key.1.2 = x.1 /\ key.1.1 = name)
              (omap dailyKey (eventsOf (inner x) w1))) as Hinner.
  { intros [day stats] w1. subst inner. simpl. rewrite bind_call_events.
    set (body := fun '(requester, tasks) => _).
    assert (forall y w2,
              omap dailyKey (eventsOf (body y) w2) = [] \/
              omap dailyKey (eventsOf (body y) w2) = [(name, day, y.1)])
      as Hbody.
    { intros [requester tasks] w2. subst body. simpl.
      destruct (0 <? _)%nat; [right|by left].
      apply (dailyKeys_generate Daily). }
    split.
    - apply (forEach_keys_NoDup dailyKey
               (fun key : string * Time * string => key.2)
               (fun y : string * list string => y.1)).
      + apply map_range_keys_NoDup.
      + intros y w2. destruct (Hbody y w2) as [->| ->]; by repeat constructor.
      + intros y w2.
        destruct (Hbody y w2) as [->| ->]; [constructor|apply NoDup_singleton].
    - apply forEach_keys_Forall. intros y w2.
      destruct (Hbody y w2) as [->| ->]; by repeat constructor. }
  unfold dailyKeys. split.
  - apply (forEach_keys_NoDup dailyKey
             (fun key : string * Time * string => key.1.2)
             (fun x : Time * gmap string (list string) => x.1)).
    + apply map_range_keys_NoDup.
    + intros x w1. eapply Forall_impl; [apply Hinner|]. by intros key [? _].
    + intros x w1. apply Hinner.
  - apply forEach_keys_Forall. intros x w1.
    eapply Forall_impl; [apply Hinner|]. by intros key [_ ?].
Qed.

Lemma dailyKeys_dailyStage (c : @cacheHistoricalJobContext Regexp)
    statsToUpdate (generateFns : @generateFunctions W) (w : W) :
  NoDup (dailyKeys
           (eventsOf (dailyStage MatchString c statsToUpdate generateFns) w)).
Proof.
  unfold dailyStage. rewrite bind_call_events.
  set (body := fun '(name, genFn) => _).
  apply (forEach_keys_NoDup dailyKey
           (fun key : string * Time * string => key.1.1)
           (fun x : string * @generateStatsFn W => x.1)).
  - apply map_range_keys_NoDup.
  - intros [name genFn] w1. apply dailyKeys_iteratorOverDailyStats.
  - intros [name genFn] w1. apply dailyKeys_iteratorOverDailyStats.
Qed.

Lemma dailyKeys_hourlyStage (c : @cacheHistoricalJobContext Regexp)
    statsToUpdate (generateFns : @generateFunctions W) (w : W) :
  dailyKeys (eventsOf (hourlyStage MatchString c statsToUpdate generateFns) w)
  = [].
Proof.
  pose proof (Emits_hourlyStage MatchString c statsToUpdate generateFns w)
    as Hall.
  induction Hall as [|ev evs Hev _ IH]; [done|].
  destruct Hev as (cl & u & -> & Hstage & _).
  unfold dailyKeys in *. simpl. by rewrite Hstage.
Qed.

Lemma dailyKeys_dispatch (c : @cacheHistoricalJobContext Regexp)
    statsToUpdate (generateFns : @generateFunctions W) (w : W) :
  NoDup (dailyKeys
           (eventsOf
              (updateHourlyAndDailyStats MatchString c statsToUpdate
                 generateFns) w)).
Proof.
  rewrite events_updateHourlyAndDailyStats, dailyKeys_app,
    dailyKeys_hourlyStage. simpl.
  destruct (outcomeOf (hourlyStage _ _ _ _) w); [|constructor..].
  apply dailyKeys_dailyStage.
Qed.

Variable regexp_Compile : string -> result Regexp.
Variable env : @JobEnv W.

(** X21. No daily generator is called twice for the same day and
    requester: in a dispatch, and so in a run, the daily calls differ
    pairwise in generator, day or requester. *)
Theorem no_bucket_is_synced_twice_by_a_daily_generator
    (c : @cacheHistoricalJobContext Regexp)
    (statsToUpdate : list stats.StatsToUpdate)
    (generateFns : @generateFunctions W) (p : string) (w : W) :
  NoDup (dailyKeys
           (eventsOf
              (updateHourlyAndDailyStats MatchString c statsToUpdate
                 generateFns) w)) /\
  NoDup (dailyKeys (eventsOf (Run regexp_Compile MatchString env p) w)).
Proof.
  split; [apply dailyKeys_dispatch|].
  generalize (Run_path regexp_Compile MatchString env p w).
  generalize (eventsOf (Run regexp_Compile MatchString env p) w)
             (outcomeOf (Run regexp_Compile MatchString env p) w).
  intros evs o Hp. destruct Hp; try (by constructor).
  - rewrite dailyKeys_app. simpl. apply dailyKeys_dispatch.
  - rewrite !dailyKeys_app. simpl. rewrite app_nil_r.
    apply dailyKeys_dispatch.
Qed.

End DailyKeys.
